(** * Activity feed and real-time fan-out: a shallow embedding

    This development embeds, as Rocq functions, the activity feed of
    Tech Radar Express:

    - [backend/core/activity_feed_manager.py]  (class [ActivityFeedManager]),
    - [backend/database/redis_client.py]       (class [RedisClient]),
    - [backend/core/websocket_manager.py]      (class [WebSocketManager]),
    - [backend/api/routes/websocket.py]        (class [ConnectionManager]),

    and states the properties of the feed specification over it.

    Conventions of the embedding.
    - A [datetime] is the number of microseconds since the epoch, a [Z].
    - A Python [float] is an exact rational ([Qc]); rounding is not modelled.
    - [async] methods are run to completion one after the other: an [await]
      is a plain call.  [asyncio.gather] runs its tasks in list order.
    - Clock readings and random identifiers ([time.time()], [datetime.now()],
      [uuid.uuid4()]) are arguments of the function that performs them.
    - Exceptions are values of type [exn]; a [try]/[except] is a [match].
    - The Redis server is the external store.  Its commands are modelled from
      their documented behaviour over a keyspace [gmap string entry]; key
      expiry by the passing of time is not modelled (the TTL given to a key is
      recorded with it). *)

From Stdlib Require Import ZArith QArith Qcanon Lia Strings.String Strings.Ascii Structures.OrdersEx.
From stdpp Require Import gmap strings list fin_maps pretty numbers sorting.

#[local] Set Warnings "-clear-no-such-hyp,-register-all".
Local Open Scope string_scope.
Local Open Scope Z_scope.

(** ** Exceptions and results *)

Inductive exn : Type :=
| ConnectionError      (* the Redis server cannot be reached *)
| ResponseError        (* WRONGTYPE: command against a key of another type *)
| AttributeError       (* method call on [None] *)
| TypeError
| WebSocketError       (* [send_text] on a broken transport *)
| RuntimeError.        (* recursion budget of the model exhausted *)

Inductive result (A : Type) : Type :=
| Ok (a : A)
| Raise (e : exn).
Arguments Ok {A} a.
Arguments Raise {A} e.

#[global] Instance result_bind : MBind result := λ A B k r,
  match r with
  | Ok a => k a
  | Raise e => Raise e
  end.
Arguments result_bind _ _ _ !_ /.

(** ** The data model of [activity_feed_manager.py] *)

Inductive ActivityType : Type :=
| INSIGHT_DISCOVERED | CRITICAL_ALERT | CUSTOM_ALERT | SOURCE_CRAWLED
| DAILY_SUMMARY | FOCUS_MODE | SOURCE_ADDED | USER_SEARCH | SYSTEM_UPDATE
| CRAWL_STARTED | CRAWL_COMPLETED | LLM_ANALYSIS.

Inductive ActivityPriority : Type := LOW | NORMAL | HIGH | URGENT | CRITICAL.

Inductive ActivitySource : Type := SYSTEM | USER | SCHEDULER | MCP | LLM | CRAWLER.

#[global] Instance ActivityType_eq_dec : EqDecision ActivityType.
Proof. solve_decision. Defined.
#[global] Instance ActivityPriority_eq_dec : EqDecision ActivityPriority.
Proof. solve_decision. Defined.
#[global] Instance ActivitySource_eq_dec : EqDecision ActivitySource.
Proof. solve_decision. Defined.

Definition type_value (t : ActivityType) : string :=
  match t with
  | INSIGHT_DISCOVERED => "insight_discovered"
  | CRITICAL_ALERT => "critical_alert"
  | CUSTOM_ALERT => "custom_alert"
  | SOURCE_CRAWLED => "source_crawled"
  | DAILY_SUMMARY => "daily_summary"
  | FOCUS_MODE => "focus_mode"
  | SOURCE_ADDED => "source_added"
  | USER_SEARCH => "user_search"
  | SYSTEM_UPDATE => "system_update"
  | CRAWL_STARTED => "crawl_started"
  | CRAWL_COMPLETED => "crawl_completed"
  | LLM_ANALYSIS => "llm_analysis"
  end.

Definition priority_value (p : ActivityPriority) : string :=
  match p with
  | LOW => "low" | NORMAL => "normal" | HIGH => "high"
  | URGENT => "urgent" | CRITICAL => "critical"
  end.

Definition source_value (s : ActivitySource) : string :=
  match s with
  | SYSTEM => "system" | USER => "user" | SCHEDULER => "scheduler"
  | MCP => "mcp" | LLM => "llm" | CRAWLER => "crawler"
  end.

(** The dataclass [ActivityItem].  [timestamp] is in microseconds. *)
Record ActivityItem : Type := mkActivity {
  id : string;
  type : ActivityType;
  priority : ActivityPriority;
  source : ActivitySource;
  title : string;
  description : string;
  details : list (string * string);
  timestamp : Z;
  user_id : option string;
  source_name : option string;
  url : option string;
  tags : list string;
  tech_areas : list string;
  impact_score : Qc;
  read : bool;
  bookmarked : bool
}.

Definition set_read (b : bool) (a : ActivityItem) : ActivityItem :=
  mkActivity (id a) (type a) (priority a) (source a) (title a) (description a)
    (details a) (timestamp a) (user_id a) (source_name a) (url a) (tags a)
    (tech_areas a) (impact_score a) b (bookmarked a).

Definition set_bookmarked (b : bool) (a : ActivityItem) : ActivityItem :=
  mkActivity (id a) (type a) (priority a) (source a) (title a) (description a)
    (details a) (timestamp a) (user_id a) (source_name a) (url a) (tags a)
    (tech_areas a) (impact_score a) (read a) b.

(** The dataclass [ActivityStats]. *)
Record ActivityStats : Type := mkStats {
  total_activities : nat;
  activities_24h : nat;
  activities_by_type : list (string * nat);
  activities_by_priority : list (string * nat);
  avg_impact_score : Qc;
  most_active_source : string;
  last_activity : option Z
}.

(** ** The Redis server (external store) *)

Module Redis.

(** What a string key holds.  [RedisClient.set] stores [json.dumps(value)]
    (or the string itself) and [RedisClient.get] gives back
    [json.loads(...)]; the model keeps the structured value. *)
Inductive payload : Type :=
| PActivity (a : ActivityItem)                (* [_serialize_activity] *)
| PStats (counters : gmap string Z) (last : option Z)
| PText (s : string).

(** A sorted set is kept as the list of its (score, member) pairs in
    ascending rank order: by score, then by member bytes. *)
Inductive rvalue : Type :=
| RString (p : payload)
| RZSet (z : list (Z * string)).

Record entry : Type := mkEntry { value : rvalue; ttl : option Z }.

Record server : Type := mkServer {
  reachable : bool;
  db : gmap string entry
}.

Definition with_db (s : server) (d : gmap string entry) : server :=
  mkServer (reachable s) d.

(** *** Rank order of a sorted set *)

Definition zlt (x y : Z * string) : bool :=
  (x.1 <? y.1) ||
  ((x.1 =? y.1) &&
   match String_as_OT.compare x.2 y.2 with Lt => true | _ => false end).

Definition zle (x y : Z * string) : bool := negb (zlt y x).

Fixpoint zinsert (x : Z * string) (l : list (Z * string)) : list (Z * string) :=
  match l with
  | [] => [x]
  | y :: l' => if zlt x y then x :: y :: l' else y :: zinsert x l'
  end.

Definition zremove (member : string) (l : list (Z * string)) : list (Z * string) :=
  filter (fun e => e.2 ≠ member) l.

(** Index normalisation shared by ZRANGE, ZREVRANGE and ZREMRANGEBYRANK:
    negative indices count from the end, the range is clamped, and an
    empty range is [None].  The result is (first index, number of items). *)
Definition norm_range (len start stop : Z) : option (Z * Z) :=
  let start := if start <? 0 then len + start else start in
  let stop := if stop <? 0 then len + stop else stop in
  let start := if start <? 0 then 0 else start in
  if (stop <? start) || (len <=? start) then None
  else
    let stop := if len <=? stop then len - 1 else stop in
    Some (start, stop - start + 1).

Definition zset_at (s : server) (key : string) : result (list (Z * string)) :=
  match db s !! key with
  | None => Ok []
  | Some e =>
      match value e with
      | RZSet z => Ok z
      | RString _ => Raise ResponseError
      end
  end.

Definition put_zset (s : server) (key : string) (z : list (Z * string)) : server :=
  match z with
  | [] => with_db s (delete key (db s))
  | _ =>
      let t := match db s !! key with Some e => ttl e | None => None end in
      with_db s (<[key := mkEntry (RZSet z) t]> (db s))
  end.

(** *** Commands.  Each either raises and leaves the server as it was, or
    returns its reply and the new server. *)

Definition command (A : Type) : Type := server → result (A * server).

Definition guard {A} (c : command A) : command A :=
  fun s => if reachable s then c s else Raise ConnectionError.

(** SET key value [EX seconds] *)
Definition set (key : string) (v : payload) (ex : option Z) : command unit :=
  guard (fun s => Ok (tt, with_db s (<[key := mkEntry (RString v) ex]> (db s)))).

(** GET key *)
Definition get (key : string) : command (option payload) :=
  guard (fun s =>
    match db s !! key with
    | None => Ok (None, s)
    | Some e =>
        match value e with
        | RString p => Ok (Some p, s)
        | RZSet _ => Raise ResponseError
        end
    end).

(** DEL key: the number of keys removed *)
Definition delete (key : string) : command Z :=
  guard (fun s =>
    match db s !! key with
    | None => Ok (0, s)
    | Some _ => Ok (1, with_db s (base.delete key (db s)))
    end).

(** EXISTS key *)
Definition exists_ (key : string) : command Z :=
  guard (fun s => Ok (match db s !! key with Some _ => 1 | None => 0 end, s)).

(** EXPIRE key seconds *)
Definition expire (key : string) (seconds : Z) : command bool :=
  guard (fun s =>
    match db s !! key with
    | None => Ok (false, s)
    | Some e => Ok (true, with_db s (<[key := mkEntry (value e) (Some seconds)]> (db s)))
    end).

(** ZADD key score member: an existing member is moved to its new score;
    the reply is the number of members added. *)
Definition zadd (key : string) (member : string) (score : Z) : command Z :=
  guard (fun s =>
    z ← zset_at s key ;
    let added := if decide (member ∈ z.*2) then 0 else 1 in
    Ok (added, put_zset s key (zinsert (score, member) (zremove member z)))).

(** ZREMRANGEBYRANK key start stop: the number of members removed *)
Definition zremrangebyrank (key : string) (start stop : Z) : command Z :=
  guard (fun s =>
    z ← zset_at s key ;
    match norm_range (Z.of_nat (length z)) start stop with
    | None => Ok (0, s)
    | Some (i, n) =>
        Ok (n, put_zset s key
                 (take (Z.to_nat i) z ++ drop (Z.to_nat (i + n)) z))
    end).

(** ZREVRANGE key start stop: members from the highest rank down *)
Definition zrevrange (key : string) (start stop : Z) : command (list string) :=
  guard (fun s =>
    z ← zset_at s key ;
    match norm_range (Z.of_nat (length z)) start stop with
    | None => Ok ([], s)
    | Some (i, n) =>
        Ok ((take (Z.to_nat n) (drop (Z.to_nat i) (reverse z))).*2, s)
    end).

(** Glob patterns of KEYS: [*], [?], backslash escape and literal bytes.
    Bracket classes are not modelled. *)
Fixpoint glob (p s : list ascii) {struct p} : bool :=
  match p with
  | [] => match s with [] => true | _ => false end
  | c :: p' =>
      if Ascii.eqb c "*" then
        (fix star (s : list ascii) : bool :=
           glob p' s || match s with [] => false | _ :: s' => star s' end) s
      else if Ascii.eqb c "?" then
        match s with [] => false | _ :: s' => glob p' s' end
      else if Ascii.eqb c "\" then
        match p' with
        | [] => match s with [d] => Ascii.eqb c d | _ => false end
        | e :: p'' =>
            match s with
            | d :: s' => Ascii.eqb e d && glob p'' s'
            | [] => false
            end
        end
      else
        match s with
        | d :: s' => Ascii.eqb c d && glob p' s'
        | [] => false
        end
  end.

(** KEYS pattern *)
Definition keys (pattern : string) : command (list string) :=
  guard (fun s =>
    Ok (filter (fun k => glob (list_ascii_of_string pattern) (list_ascii_of_string k) = true)
               (map_to_list (db s)).*1, s)).

End Redis.

(** ** [RedisClient] of [redis_client.py]: every method catches the
    exception of the command, logs it and returns a default. *)

Module RedisClient.

Record t : Type := mk {
  redis : option Redis.server;     (* [None] until [connect] *)
  is_connected : bool
}.

(** [self.redis.<command>(...)]: a call on [None] raises. *)
Definition call {A} (c : t) (cmd : Redis.command A) : result (A * t) :=
  match redis c with
  | None => Raise AttributeError
  | Some s =>
      '(a, s') ← cmd s;
      Ok (a, mk (Some s') (is_connected c))
  end.

Definition set (key : string) (value : Redis.payload) (expire : option Z)
    (c : t) : bool * t :=
  match call c (Redis.set key value expire) with
  | Ok (_, c') => (true, c')
  | Raise _ => (false, c)
  end.

Definition get (key : string) (c : t) : option Redis.payload :=
  match call c (Redis.get key) with
  | Ok (v, _) => v
  | Raise _ => None
  end.

Definition delete (key : string) (c : t) : bool * t :=
  match call c (Redis.delete key) with
  | Ok (n, c') => (bool_decide (0 < n), c')
  | Raise _ => (false, c)
  end.

Definition exists_ (key : string) (c : t) : bool :=
  match call c (Redis.exists_ key) with
  | Ok (n, _) => bool_decide (0 < n)
  | Raise _ => false
  end.

Definition expire (key : string) (seconds : Z) (c : t) : bool * t :=
  match call c (Redis.expire key seconds) with
  | Ok (b, c') => (b, c')
  | Raise _ => (false, c)
  end.

End RedisClient.

(** ** JSON values, the frames written to a WebSocket *)

Inductive json : Type :=
| JNull
| JBool (b : bool)
| JInt (z : Z)
| JNum (q : Qc)
| JStr (s : string)
| JArr (l : list json)
| JObj (kv : list (string * json)).

(** A Python [dict] with string keys, in insertion order. *)
Definition dict : Type := list (string * json).

Fixpoint dict_set (k : string) (v : json) (d : dict) : dict :=
  match d with
  | [] => [(k, v)]
  | (k', v') :: d' =>
      if decide (k' = k) then (k, v) :: d' else (k', v') :: dict_set k v d'
  end.

Definition opt_str (o : option string) : json :=
  match o with Some s => JStr s | None => JNull end.

(** Python truthiness of an [Optional[str]]. *)
Definition truthy (o : option string) : bool :=
  match o with
  | None => false
  | Some s => negb (String.eqb s "")
  end.

(** ** The environment: wall clock, random source and transports *)

Inductive WebSocketState : Type := CONNECTING | CONNECTED | DISCONNECTED.

#[global] Instance WebSocketState_eq_dec : EqDecision WebSocketState.
Proof. solve_decision. Defined.

(** A [fastapi.WebSocket].  [broken] says that the transport raises on
    use; [outbox] is what reached the peer; [attempts] counts the calls of
    [send_text]. *)
Record WebSocket : Type := mkWebSocket {
  client_state : WebSocketState;
  accepted : bool;
  broken : bool;
  outbox : list json;
  attempts : nat
}.

(** The successive readings of the clock (microseconds) and of
    [uuid.uuid4().hex] are given by two oracles, read in order. *)
Record World : Type := mkWorld {
  wall : nat → Z;
  ticks : nat;
  uuids : nat → string;
  drawn : nat;
  sockets : gmap nat WebSocket
}.

Definition with_sockets (w : World) (s : gmap nat WebSocket) : World :=
  mkWorld (wall w) (ticks w) (uuids w) (drawn w) s.

(** [datetime.now()] *)
Definition now (w : World) : Z * World :=
  (wall w (ticks w), mkWorld (wall w) (S (ticks w)) (uuids w) (drawn w) (sockets w)).

(** [int(time.time() * 1000)] *)
Definition time_ms (w : World) : Z * World :=
  let '(t, w') := now w in (Z.quot t 1000, w').

(** [uuid.uuid4().hex] *)
Definition uuid4 (w : World) : string * World :=
  (uuids w (drawn w), mkWorld (wall w) (ticks w) (uuids w) (S (drawn w)) (sockets w)).

(** [await websocket.accept()] *)
Definition accept (ws : nat) (w : World) : result World :=
  match sockets w !! ws with
  | None => Raise WebSocketError
  | Some k =>
      if broken k then Raise WebSocketError
      else Ok (with_sockets w
                 (<[ws := mkWebSocket CONNECTED true false (outbox k) (attempts k)]>
                    (sockets w)))
  end.

(** [await websocket.send_text(text)]: the attempt is counted even when it
    raises. *)
Definition send_text (ws : nat) (text : json) (w : World) : result unit * World :=
  match sockets w !! ws with
  | None => (Raise WebSocketError, w)
  | Some k =>
      if broken k || negb (accepted k) then
        (Raise WebSocketError,
         with_sockets w
           (<[ws := mkWebSocket (client_state k) (accepted k) (broken k)
                      (outbox k) (S (attempts k))]> (sockets w)))
      else
        (Ok tt,
         with_sockets w
           (<[ws := mkWebSocket (client_state k) (accepted k) (broken k)
                      (outbox k ++ [text]) (S (attempts k))]> (sockets w)))
  end.

(** [await websocket.close()] *)
Definition close (ws : nat) (w : World) : result unit * World :=
  match sockets w !! ws with
  | None => (Raise WebSocketError, w)
  | Some k =>
      if broken k then (Raise WebSocketError, w)
      else
        (Ok tt,
         with_sockets w
           (<[ws := mkWebSocket DISCONNECTED (accepted k) (broken k)
                      (outbox k) (attempts k)]> (sockets w)))
  end.

(** ** [WebSocketManager] of [websocket_manager.py] *)

Module WebSocketManager.

Record WebSocketConnection : Type := mkConn {
  websocket : nat;                 (* the transport, a key of [sockets] *)
  user_id : option string;
  connection_id : string;
  connected_at : Z;
  last_ping : Z;
  conn_subscriptions : gset string (* the field [subscriptions] *)
}.

Record t : Type := mk {
  connections : gmap string WebSocketConnection;
  user_connections : gmap string (gset string);
  subscriptions : gmap string (gset string);
  ping_interval : Z;
  connection_timeout : Z;
  _cleanup_task : bool             (* whether the sweeping task is running *)
}.

Definition __init__ : t := mk ∅ ∅ ∅ 30 120 false.

Definition with_connections (m : t) c : t :=
  mk c (user_connections m) (subscriptions m) (ping_interval m)
     (connection_timeout m) (_cleanup_task m).
Definition with_user_connections (m : t) u : t :=
  mk (connections m) u (subscriptions m) (ping_interval m)
     (connection_timeout m) (_cleanup_task m).
Definition with_subscriptions (m : t) s : t :=
  mk (connections m) (user_connections m) s (ping_interval m)
     (connection_timeout m) (_cleanup_task m).
Definition with_cleanup_task (m : t) b : t :=
  mk (connections m) (user_connections m) (subscriptions m) (ping_interval m)
     (connection_timeout m) b.

(** [set.discard] inside a dict of sets, followed by the removal of the
    key when the set became empty. *)
Definition discard_from (key member : string) (d : gmap string (gset string))
    : gmap string (gset string) :=
  match d !! key with
  | None => d
  | Some s =>
      let s' := s ∖ {[member]} in
      if decide (s' = ∅) then delete key d else <[key := s']> d
  end.

Definition disconnect (connection_id : string) (m : t) : t :=
  match connections m !! connection_id with
  | None => m
  | Some connection =>
      let m := with_subscriptions m
                 (foldl (fun d topic => discard_from topic connection_id d)
                        (subscriptions m)
                        (elements (conn_subscriptions connection))) in
      let m :=
        match user_id connection with
        | Some u =>
            if truthy (Some u) then
              with_user_connections m (discard_from u connection_id (user_connections m))
            else m
        | None => m
        end in
      let m := with_connections m (delete connection_id (connections m)) in
      if bool_decide (connections m = ∅) && _cleanup_task m
      then with_cleanup_task m false
      else m
  end.

Definition subscribe (connection_id topic : string) (m : t) : bool * t :=
  match connections m !! connection_id with
  | None => (false, m)
  | Some connection =>
      let connection' :=
        mkConn (websocket connection) (user_id connection)
               (WebSocketManager.connection_id connection) (connected_at connection)
               (last_ping connection) ({[topic]} ∪ conn_subscriptions connection) in
      let m := with_connections m (<[connection_id := connection']> (connections m)) in
      let members := default ∅ (subscriptions m !! topic) in
      (true, with_subscriptions m (<[topic := {[connection_id]} ∪ members]> (subscriptions m)))
  end.

Definition _send_to_connection (connection_id : string) (message : dict)
    (m : t) (w : World) : bool * t * World :=
  match connections m !! connection_id with
  | None => (false, m, w)
  | Some connection =>
      let '(t, w) := now w in
      let enhanced_message :=
        dict_set "connection_id" (JStr connection_id)
          (dict_set "timestamp" (JInt t) message) in
      match send_text (websocket connection) (JObj enhanced_message) w with
      | (Ok _, w) => (true, m, w)
      | (Raise _, w) => (false, disconnect connection_id m, w)
      end
  end.

(** The loop shared by [send_to_user], [broadcast] and
    [broadcast_to_topic]: send to each id of the snapshot, count the
    successes. *)
Fixpoint send_each (connection_ids : list string) (message : dict)
    (sent_count : nat) (m : t) (w : World) : nat * t * World :=
  match connection_ids with
  | [] => (sent_count, m, w)
  | connection_id :: rest =>
      let '(ok, m, w) := _send_to_connection connection_id message m w in
      send_each rest message (if ok then S sent_count else sent_count) m w
  end.

Definition send_to_user (user : string) (message : dict) (m : t) (w : World)
    : nat * t * World :=
  match user_connections m !! user with
  | None => (0%nat, m, w)
  | Some ids => send_each (elements ids) message 0 m w
  end.

Definition broadcast (message : dict) (m : t) (w : World) : nat * t * World :=
  send_each (elements (dom (connections m))) message 0 m w.

Definition broadcast_to_topic (topic : string) (message : dict) (m : t) (w : World)
    : nat * t * World :=
  match subscriptions m !! topic with
  | None => (0%nat, m, w)
  | Some ids => send_each (elements ids) message 0 m w
  end.

Definition connect (ws : nat) (user : option string) (m : t) (w : World)
    : result (string * t * World) :=
  w ← accept ws w;
  let '(ms, w) := time_ms w in
  let '(u, w) := uuid4 w in
  let connection_id := "ws_" +:+ pretty ms +:+ "_" +:+ String.substring 0 8 u in
  let '(t, w) := now w in
  let connection := mkConn ws user connection_id t t ∅ in
  let m := with_connections m (<[connection_id := connection]> (connections m)) in
  let m :=
    match user with
    | Some uid =>
        if truthy user then
          with_user_connections m
            (<[uid := {[connection_id]} ∪ default ∅ (user_connections m !! uid)]>
               (user_connections m))
        else m
    | None => m
    end in
  let m :=
    if bool_decide (size (connections m) = 1%nat) && negb (_cleanup_task m)
    then with_cleanup_task m true else m in
  let '(_, m, w) :=
    _send_to_connection connection_id
      [("type", JStr "connection_established");
       ("data", JObj [("connection_id", JStr connection_id);
                      ("user_id", opt_str user);
                      ("server_time", JInt t)])] m w in
  Ok (connection_id, m, w).

(** [handle_message], for the two message types it knows. *)
Definition handle_message (connection_id : string) (message_type : option string)
    (topic : option string) (m : t) (w : World) : t * World :=
  match connections m !! connection_id with
  | None => (m, w)
  | Some connection =>
      let '(t, w) := now w in
      let connection' :=
        mkConn (websocket connection) (user_id connection)
               (WebSocketManager.connection_id connection) (connected_at connection)
               t (conn_subscriptions connection) in
      let m := with_connections m (<[connection_id := connection']> (connections m)) in
      if decide (message_type = Some "ping") then
        let '(t', w) := now w in
        let '(_, m, w) :=
          _send_to_connection connection_id
            [("type", JStr "pong"); ("data", JObj [("timestamp", JInt t')])] m w in
        (m, w)
      else if decide (message_type = Some "subscribe") then
        match topic with
        | Some tp =>
            if truthy topic then
              let '(_, m) := subscribe connection_id tp m in
              let '(_, m, w) :=
                _send_to_connection connection_id
                  [("type", JStr "subscription_confirmed");
                   ("data", JObj [("topic", JStr tp)])] m w in
              (m, w)
            else (m, w)
        | None => (m, w)
        end
      else (m, w)
  end.

(** The body of one turn of the loop of [_cleanup_connections]: the
    connections whose last ping is older than [connection_timeout] seconds are
    disconnected.  The two times are compared as whole microseconds, where
    the code compares their float seconds.  The sleep between two turns is
    not modelled. *)
Definition _cleanup_connections_once (m : t) (w : World) : t * World :=
  let '(t, w) := now w in
  let timeout_threshold := t - connection_timeout m * 1000000 in
  let expired_connections :=
    (filter (fun x => last_ping x.2 < timeout_threshold)
            (map_to_list (connections m))).*1 in
  (foldl (fun m connection_id => disconnect connection_id m) m expired_connections, w).

(** [get_connection_stats]: connections, users, topics. *)
Definition get_connection_stats (m : t) : nat * nat * nat :=
  (size (connections m), size (user_connections m), size (subscriptions m)).

(** [shutdown] *)
Definition shutdown (m : t) (w : World) : t * World :=
  let m := if _cleanup_task m then with_cleanup_task m false else m in
  let shutdown_message :=
    [("type", JStr "server_shutdown");
     ("data", JObj [("message", JStr "Serveur en cours d'arrêt")])] in
  let '(_, m, w) := broadcast shutdown_message m w in
  foldl (fun st connection_id =>
           let '(m, w) := st in
           let w :=
             match connections m !! connection_id with
             | Some connection => (close (websocket connection) w).2
             | None => w
             end in
           (disconnect connection_id m, w))
        (m, w) (elements (dom (connections m))).

End WebSocketManager.

(** ** [ConnectionManager] of [api/routes/websocket.py] *)

(** [l[-n:]] *)
Definition py_last {A} (n : nat) (l : list A) : list A :=
  match n with
  | O => l
  | _ => drop (length l - n)%nat l
  end.

Module ConnectionManager.

Inductive NotificationType : Type :=
| NEW_INSIGHT | KPI_UPDATE | TRENDING_THEME | SOURCE_UPDATE | SYSTEM_STATUS
| USER_ACTION.

Definition notification_value (n : NotificationType) : string :=
  match n with
  | NEW_INSIGHT => "new_insight" | KPI_UPDATE => "kpi_update"
  | TRENDING_THEME => "trending_theme" | SOURCE_UPDATE => "source_update"
  | SYSTEM_STATUS => "system_status" | USER_ACTION => "user_action"
  end.

(** The pydantic model [WebSocketMessage]. *)
Record WebSocketMessage : Type := mkMessage {
  id : string;
  type : NotificationType;
  data : dict;
  timestamp : Z;
  priority : string;
  badge_text : option string;
  auto_dismiss : option Z
}.

(** [WebSocketMessage(type=..., data=..., ...)]: [id] and [timestamp] come
    from their default factories. *)
Definition new_message (type : NotificationType) (data : dict) (priority : string)
    (badge_text : option string) (auto_dismiss : option Z) (w : World)
    : WebSocketMessage * World :=
  let '(u, w) := uuid4 w in
  let '(t, w) := now w in
  (mkMessage u type data t priority badge_text auto_dismiss, w).

(** [message.json()] *)
Definition to_json (m : WebSocketMessage) : json :=
  JObj [("id", JStr (id m));
        ("type", JStr (notification_value (type m)));
        ("data", JObj (data m));
        ("timestamp", JInt (timestamp m));
        ("priority", JStr (priority m));
        ("badge_text", opt_str (badge_text m));
        ("auto_dismiss", match auto_dismiss m with Some n => JInt n | None => JNull end)].

(** The copy made by [_send_history_to_connection], both flags cleared. *)
Definition historical (m : WebSocketMessage) : WebSocketMessage :=
  mkMessage (id m) (type m) (data m) (timestamp m) (priority m) None None.

Record metadata : Type := mkMeta {
  connected_at : Z;
  groups : list string;
  last_ping : Z;
  message_count : nat
}.

Record t : Type := mk {
  active_connections : gmap string nat;
  connection_groups : gmap string (gset string);
  connection_metadata : gmap string metadata;
  recent_messages : list WebSocketMessage;
  max_history : nat
}.

Definition __init__ : t :=
  mk ∅ (<["dashboard" := ∅]> (<["notifications" := ∅]>
          (<["admin" := ∅]> (<["global" := ∅]> ∅))))
     ∅ [] 50.

Definition with_active (m : t) a : t :=
  mk a (connection_groups m) (connection_metadata m) (recent_messages m) (max_history m).
Definition with_groups (m : t) g : t :=
  mk (active_connections m) g (connection_metadata m) (recent_messages m) (max_history m).
Definition with_metadata (m : t) d : t :=
  mk (active_connections m) (connection_groups m) d (recent_messages m) (max_history m).
Definition with_recent (m : t) r : t :=
  mk (active_connections m) (connection_groups m) (connection_metadata m) r (max_history m).

Definition _add_to_history (message : WebSocketMessage) (m : t) : t :=
  let r := (recent_messages m ++ [message])%list in
  if bool_decide (max_history m < length r)%nat
  then with_recent m (py_last (max_history m) r)
  else with_recent m r.

(** [send_personal_message], [disconnect] and [broadcast_to_group] call
    one another (a failed send disconnects, a disconnect tells the admin
    group).  [fuel] bounds the depth of these calls; [None] means that the
    bound was too small. *)
Fixpoint send_personal_message (fuel : nat) (message : WebSocketMessage)
    (connection_id : string) (m : t) (w : World) {struct fuel} : option (t * World) :=
  match fuel with
  | O => None
  | S fuel =>
      match active_connections m !! connection_id with
      | None => Some (m, w)
      | Some websocket =>
          match sockets w !! websocket with
          | None => disconnect fuel connection_id m w
          | Some k =>
              if decide (client_state k = CONNECTED) then
                match send_text websocket (to_json message) w with
                | (Ok _, w) =>
                    match connection_metadata m !! connection_id with
                    | Some md =>
                        let '(t, w) := now w in
                        Some (with_metadata m
                                (<[connection_id :=
                                     mkMeta (connected_at md) (groups md) t
                                            (S (message_count md))]>
                                   (connection_metadata m)), w)
                    | None => Some (m, w)
                    end
                | (Raise _, w) => disconnect fuel connection_id m w
                end
              else disconnect fuel connection_id m w
          end
      end
  end
with disconnect (fuel : nat) (connection_id : string) (m : t) (w : World)
    {struct fuel} : option (t * World) :=
  match fuel with
  | O => None
  | S fuel =>
      let m := with_groups m ((fun g => g ∖ {[connection_id]}) <$> connection_groups m) in
      let m := with_active m (delete connection_id (active_connections m)) in
      let '(m, w) :=
        match connection_metadata m !! connection_id with
        | Some _ =>
            (* the log line reads the clock for the duration *)
            let '(_, w) := now w in
            (with_metadata m (delete connection_id (connection_metadata m)), w)
        | None => (m, w)
        end in
      if bool_decide (0 < size (active_connections m))%nat then
        let '(goodbye_message, w) :=
          new_message SYSTEM_STATUS
            [("status", JStr "user_disconnected");
             ("connection_id", JStr connection_id);
             ("total_users", JInt (Z.of_nat (size (active_connections m))))]
            "low" None (Some 2) w in
        broadcast_to_group fuel "admin" goodbye_message [] m w
      else Some (m, w)
  end
with broadcast_to_group (fuel : nat) (group : string) (message : WebSocketMessage)
    (exclude : list string) (m : t) (w : World) {struct fuel} : option (t * World) :=
  match fuel with
  | O => None
  | S fuel =>
      match connection_groups m !! group with
      | None => Some (m, w)
      | Some members =>
          let connections_to_notify := members ∖ list_to_set exclude in
          if decide (connections_to_notify = ∅) then Some (m, w)
          else
            let m := _add_to_history message m in
            foldl (fun st connection_id =>
                     '(m, w) ← st; send_personal_message fuel message connection_id m w)
                  (Some (m, w)) (elements connections_to_notify)
      end
  end.

Definition broadcast_global (fuel : nat) (message : WebSocketMessage)
    (exclude : list string) (m : t) (w : World) : option (t * World) :=
  broadcast_to_group fuel "global" message exclude m w.

Definition _send_history_to_connection (fuel : nat) (connection_id : string)
    (m : t) (w : World) : option (t * World) :=
  match recent_messages m with
  | [] => Some (m, w)
  | _ =>
      let recent_history := py_last 10 (recent_messages m) in
      foldl (fun st message =>
               '(m, w) ← st;
               send_personal_message fuel (historical message) connection_id m w)
            (Some (m, w)) recent_history
  end.

(** [connect]: [Some (Raise _)] when [accept] raises (the handler logs
    and re-raises). *)
Definition connect (fuel : nat) (websocket : nat) (connection_id : string)
    (groups : list string) (m : t) (w : World)
    : option (result (string * t * World)) :=
  match accept websocket w with
  | Raise e => Some (Raise e)
  | Ok w =>
      let m := with_active m (<[connection_id := websocket]> (active_connections m)) in
      let groups := match groups with [] => ["global"] | _ => groups end in
      let m :=
        with_groups m
          (foldl (fun g group =>
                    <[group := {[connection_id]} ∪ default ∅ (g !! group)]> g)
                 (connection_groups m) groups) in
      let '(t1, w) := now w in
      let '(t2, w) := now w in
      let m := with_metadata m
                 (<[connection_id := mkMeta t1 groups t2 0]> (connection_metadata m)) in
      '(m, w) ← _send_history_to_connection fuel connection_id m w;
      let '(welcome_message, w) :=
        new_message SYSTEM_STATUS
          [("status", JStr "user_connected");
           ("connection_id", JStr connection_id);
           ("total_users", JInt (Z.of_nat (size (active_connections m))))]
          "normal" (Some "NEW USER") (Some 3) w in
      '(m, w) ← broadcast_to_group fuel "admin" welcome_message [connection_id] m w;
      Some (Ok (connection_id, m, w))
  end.

(** [get_stats]: the number of connections, the size of each group and
    of the history. *)
Definition get_stats (m : t) : nat * gmap string nat * nat :=
  (size (active_connections m), size <$> connection_groups m,
   length (recent_messages m)).

End ConnectionManager.

(** ** [ActivityFeedManager] of [activity_feed_manager.py] *)

(** [key.split(":")[-1]] *)
Fixpoint last_segment_aux (acc : list ascii) (s : list ascii) : list ascii :=
  match s with
  | [] => acc
  | c :: s' =>
      if Ascii.eqb c ":" then last_segment_aux [] s'
      else last_segment_aux (acc ++ [c])%list s'
  end.

Definition last_segment (key : string) : string :=
  string_of_list_ascii (last_segment_aux [] (list_ascii_of_string key)).

(** Truthiness of a value returned by [RedisClient.get]. *)
Definition payload_truthy (p : Redis.payload) : bool :=
  match p with
  | Redis.PActivity _ => true
  | Redis.PStats c l => negb (bool_decide (c = ∅)) || bool_decide (is_Some l)
  | Redis.PText s => negb (String.eqb s "")
  end.

(** Truthiness of an optional list argument ([None] and [[]] are false). *)
Definition given {A} (o : option (list A)) : bool :=
  match o with
  | Some (_ :: _) => true
  | _ => false
  end.

(** [d[k] = d.get(k, 0) + 1] on a dict in insertion order. *)
Fixpoint count_up (k : string) (d : list (string * nat)) : list (string * nat) :=
  match d with
  | [] => [(k, 1%nat)]
  | (k', n) :: d' =>
      if decide (k' = k) then (k', S n) :: d' else (k', n) :: count_up k d'
  end.

(** [max(d.items(), key=lambda x: x[1])[0]]: the first item with the
    greatest count. *)
Fixpoint max_item (best : string * nat) (d : list (string * nat)) : string * nat :=
  match d with
  | [] => best
  | x :: d' => max_item (if bool_decide (best.2 < x.2)%nat then x else best) d'
  end.

Module ActivityFeedManager.

Record t : Type := mk {
  redis : RedisClient.t;
  max_activities : nat;
  max_activities_redis : Z;
  activity_ttl : Z;
  (** The [ActivityItem] objects, by reference: [recent_activities] and
      [activity_cache] hold references and may share an object. *)
  objects : list ActivityItem;
  recent_activities : list nat;
  activity_cache : gmap string nat;
  websocket_manager : option WebSocketManager.t
}.

Definition __init__ (redis_client : RedisClient.t) : t :=
  mk redis_client 1000 5000 (30 * 86400) [] [] ∅ None.

Definition with_redis (m : t) r : t :=
  mk r (max_activities m) (max_activities_redis m) (activity_ttl m) (objects m)
     (recent_activities m) (activity_cache m) (websocket_manager m).
Definition with_objects (m : t) o : t :=
  mk (redis m) (max_activities m) (max_activities_redis m) (activity_ttl m) o
     (recent_activities m) (activity_cache m) (websocket_manager m).
Definition with_recent (m : t) r : t :=
  mk (redis m) (max_activities m) (max_activities_redis m) (activity_ttl m) (objects m)
     r (activity_cache m) (websocket_manager m).
Definition with_cache (m : t) c : t :=
  mk (redis m) (max_activities m) (max_activities_redis m) (activity_ttl m) (objects m)
     (recent_activities m) c (websocket_manager m).
Definition with_websocket_manager (m : t) x : t :=
  mk (redis m) (max_activities m) (max_activities_redis m) (activity_ttl m) (objects m)
     (recent_activities m) (activity_cache m) x.

(** A new object on the heap; its reference. *)
Definition alloc (a : ActivityItem) (m : t) : nat * t :=
  (length (objects m), with_objects m (objects m ++ [a])%list).

(** The objects behind a list of references, each with its reference. *)
Definition deref (m : t) (refs : list nat) : list (nat * ActivityItem) :=
  omap (fun r => (fun a => (r, a)) <$> objects m !! r) refs.

Definition _serialize_activity (activity : ActivityItem) : Redis.payload :=
  Redis.PActivity activity.

Definition _deserialize_activity (data : Redis.payload) : result ActivityItem :=
  match data with
  | Redis.PActivity a => Ok a
  | Redis.PStats _ _ => Raise TypeError
  | Redis.PText _ => Raise TypeError
  end.

Definition data_key (activity_id : string) : string := "activity:data:" +:+ activity_id.
Definition list_key : string := "activity:sorted:global".
Definition stats_key : string := "activity:stats:global".
Definition bookmark_key (user activity_id : string) : string :=
  "activity:bookmarks:" +:+ user +:+ ":" +:+ activity_id.

(** [int(activity.timestamp.timestamp() * 1000)] *)
Definition score_of (activity : ActivityItem) : Z := Z.quot (timestamp activity) 1000.

Definition _add_to_sorted_list (activity : ActivityItem) (m : t) : t :=
  match RedisClient.call (redis m)
          (Redis.zadd list_key (id activity) (score_of activity)) with
  | Raise _ => m
  | Ok (_, c) =>
      match RedisClient.call c
              (Redis.zremrangebyrank list_key 0 (- (max_activities_redis m + 1))) with
      | Raise _ => with_redis m c
      | Ok (_, c) =>
          match RedisClient.call c (Redis.expire list_key (activity_ttl m)) with
          | Raise _ => with_redis m c
          | Ok (_, c) => with_redis m c
          end
      end
  end.

Definition _save_activity_to_redis (activity : ActivityItem) (m : t) : t :=
  let activity_data := _serialize_activity activity in
  let '(_, c) := RedisClient.set (data_key (id activity)) activity_data
                   (Some (activity_ttl m)) (redis m) in
  _add_to_sorted_list activity (with_redis m c).

(** [_filter_activities].  The list holds objects; [view] reads the
    fields of one (the identity on values, the heap lookup on references). *)
Definition _filter_activities {A} (view : A → ActivityItem) (activities : list A)
    (activity_types : option (list ActivityType))
    (priorities : option (list ActivityPriority))
    (sources : option (list ActivitySource))
    (user : option string)
    (areas : option (list string))
    (since : option Z)
    (include_system : bool) : list A :=
  let filtered := activities in
  let filtered :=
    match since with
    | Some s => filter (fun a => s ≤ timestamp (view a)) filtered
    | None => filtered
    end in
  let filtered :=
    if given activity_types
    then filter (fun a => type (view a) ∈ default [] activity_types) filtered
    else filtered in
  let filtered :=
    if given priorities
    then filter (fun a => priority (view a) ∈ default [] priorities) filtered
    else filtered in
  let filtered :=
    if given sources
    then filter (fun a => source (view a) ∈ default [] sources) filtered
    else filtered in
  let filtered :=
    if truthy user
    then filter (fun a => user_id (view a) = user ∨ user_id (view a) = None) filtered
    else filtered in
  let filtered :=
    if given areas
    then filter (fun a => Exists (fun area => area ∈ tech_areas (view a))
                                 (default [] areas)) filtered
    else filtered in
  let filtered :=
    if negb include_system
    then filter (fun a => source (view a) ≠ SYSTEM) filtered
    else filtered in
  filtered.

Definition _get_user_bookmarked_ids (user : string) (m : t) : gset string :=
  let pattern := "activity:bookmarks:" +:+ user +:+ ":*" in
  match RedisClient.call (redis m) (Redis.keys pattern) with
  | Ok (keys, _) => list_to_set (last_segment <$> keys)
  | Raise _ => ∅
  end.

(** The loop of [_load_activities_from_redis] over the ids of the index. *)
Fixpoint load_each (activity_ids : list string) (m : t) : result (list ActivityItem) :=
  match activity_ids with
  | [] => Ok []
  | activity_id :: rest =>
      match RedisClient.get (data_key activity_id) (redis m) with
      | Some activity_data =>
          if payload_truthy activity_data then
            activity ← _deserialize_activity activity_data;
            activities ← load_each rest m;
            Ok (activity :: activities)
          else load_each rest m
      | None => load_each rest m
      end
  end.

Definition _load_activities_from_redis (limit : nat)
    (activity_types : option (list ActivityType))
    (priorities : option (list ActivityPriority))
    (sources : option (list ActivitySource))
    (user : option string)
    (areas : option (list string))
    (since : option Z)
    (include_system : bool) (m : t) : list ActivityItem :=
  match RedisClient.call (redis m)
          (Redis.zrevrange list_key 0 (Z.of_nat limit * 2)) with
  | Raise _ => []
  | Ok (activity_ids, _) =>
      match activity_ids with
      | [] => []
      | _ =>
          match load_each activity_ids m with
          | Raise _ => []
          | Ok activities =>
              take limit
                (_filter_activities (fun a => a) activities activity_types priorities
                   sources user areas since include_system)
          end
      end
  end.

(** [for act in activities: act.bookmarked = act.id in bookmarked_ids] on
    objects of the heap. *)
Definition mark_bookmarked (bookmarked_ids : gset string) (refs : list nat) (m : t) : t :=
  foldl (fun m r =>
           match objects m !! r with
           | Some act =>
               with_objects m
                 (<[r := set_bookmarked (bool_decide (id act ∈ bookmarked_ids)) act]>
                    (objects m))
           | None => m
           end) m refs.

(** [get_activities]: the objects returned, as they are when the call
    returns, and the manager. *)
Definition get_activities (limit offset : nat)
    (activity_types : option (list ActivityType))
    (priorities : option (list ActivityPriority))
    (sources : option (list ActivitySource))
    (user : option string)
    (areas : option (list string))
    (since : option Z)
    (include_system : bool) (m : t) : list ActivityItem * t :=
  if bool_decide (offset = 0%nat) && bool_decide (limit ≤ length (recent_activities m))%nat
  then
    let activities :=
      (_filter_activities snd (deref m (recent_activities m)) activity_types
         priorities sources user areas since include_system).*1 in
    let m :=
      match user with
      | Some u =>
          if truthy user
          then mark_bookmarked (_get_user_bookmarked_ids u m) activities m
          else m
      | None => m
      end in
    (take limit (deref m activities).*2, m)
  else
    let activities :=
      _load_activities_from_redis (limit + offset) activity_types priorities sources
        user areas since include_system m in
    let activities :=
      match user with
      | Some u =>
          if truthy user
          then (fun act =>
                  set_bookmarked (bool_decide (id act ∈ _get_user_bookmarked_ids u m)) act)
                 <$> activities
          else activities
      | None => activities
      end in
    (take limit (drop offset activities), m).

(** [get_activity_by_id]: a reference to the cached object, or to a new
    object read from Redis. *)
Definition get_activity_by_id (activity_id : string) (m : t) : option nat * t :=
  match activity_cache m !! activity_id with
  | Some r => (Some r, m)
  | None =>
      match RedisClient.get (data_key activity_id) (redis m) with
      | Some activity_data =>
          if payload_truthy activity_data then
            match _deserialize_activity activity_data with
            | Ok a => let '(r, m) := alloc a m in (Some r, m)
            | Raise _ => (None, m)
            end
          else (None, m)
      | None => (None, m)
      end
  end.

Definition mark_activity_read (activity_id : string) (user : string) (m : t)
    : bool * t :=
  let '(o, m) := get_activity_by_id activity_id m in
  match o with
  | None => (false, m)
  | Some r =>
      match objects m !! r with
      | None => (false, m)
      | Some activity =>
          let activity := set_read true activity in
          let m := with_objects m (<[r := activity]> (objects m)) in
          let m := with_cache m (<[activity_id := r]> (activity_cache m)) in
          let m := _save_activity_to_redis activity m in
          (true, m)
      end
  end.

Definition bookmark_activity (activity_id : string) (user : string) (m : t)
    : bool * t :=
  let '(o, m) := get_activity_by_id activity_id m in
  match o with
  | None => (false, m)
  | Some r =>
      match objects m !! r with
      | None => (false, m)
      | Some activity =>
          let key := bookmark_key user activity_id in
          let is_bookmarked := RedisClient.exists_ key (redis m) in
          let '(m, activity) :=
            if is_bookmarked then
              let '(_, c) := RedisClient.delete key (redis m) in
              (with_redis m c, set_bookmarked false activity)
            else
              let '(_, c) := RedisClient.set key (Redis.PText (pretty (timestamp activity)))
                               (Some (activity_ttl m)) (redis m) in
              (with_redis m c, set_bookmarked true activity) in
          let m := with_objects m (<[r := activity]> (objects m)) in
          let m := with_cache m (<[activity_id := r]> (activity_cache m)) in
          (true, m)
      end
  end.

Definition empty_stats : ActivityStats := mkStats 0 0 [] [] 0%Qc "" None.

Definition get_activity_stats (since : option Z) (m : t) (w : World)
    : ActivityStats * t * World :=
  let '(since, w) :=
    match since with
    | Some s => (s, w)
    | None => let '(t, w) := now w in (t - 7 * 86400 * 1000000, w)
    end in
  let '(activities, m) :=
    get_activities (max_activities m) 0 None None None None None (Some since) true m in
  match activities with
  | [] => (empty_stats, m, w)
  | first :: _ =>
      let '(t, w) := now w in
      let last_24h := t - 24 * 3600 * 1000000 in
      let activities_24h :=
        length (filter (fun a => last_24h < timestamp a) activities) in
      let types_count :=
        foldl (fun d a => count_up (type_value (type a)) d) [] activities in
      let priorities_count :=
        foldl (fun d a => count_up (priority_value (priority a)) d) [] activities in
      let sources_count :=
        foldl (fun d a => count_up (source_value (source a)) d) [] activities in
      let most_active_source :=
        match sources_count with
        | [] => ""
        | x :: d => (max_item x d).1
        end in
      let impact_scores :=
        impact_score <$> filter (fun a => (0 < impact_score a)%Qc) activities in
      let avg_impact_score :=
        match impact_scores with
        | [] => 0%Qc
        | _ => (foldl Qcplus 0 impact_scores
                / Qc_of_Z (Z.of_nat (length impact_scores)))%Qc
        end in
      (mkStats (length activities) activities_24h types_count priorities_count
         avg_impact_score most_active_source (Some (timestamp first)), m, w)
  end.

(** The [data] of both messages of [_broadcast_activity]. *)
Definition activity_data (activity : ActivityItem) : dict :=
  [("id", JStr (id activity));
   ("type", JStr (type_value (type activity)));
   ("priority", JStr (priority_value (priority activity)));
   ("source", JStr (source_value (source activity)));
   ("title", JStr (title activity));
   ("description", JStr (description activity));
   ("timestamp", JInt (timestamp activity));
   ("tech_areas", JArr (JStr <$> tech_areas activity));
   ("impact_score", JNum (impact_score activity));
   ("url", opt_str (url activity))].

(** [_broadcast_activity].  [cm] is the module-level [connection_manager]
    of [api.routes.websocket]; [None] stands for a failed import. *)
Definition _broadcast_activity (fuel : nat) (activity : ActivityItem) (m : t)
    (cm : option ConnectionManager.t) (w : World)
    : option (t * option ConnectionManager.t * World) :=
  let '(m, w) :=
    match websocket_manager m with
    | Some wsm =>
        let message := [("type", JStr "new_activity");
                        ("data", JObj (activity_data activity))] in
        let '(_, wsm, w) :=
          WebSocketManager.broadcast_to_topic "activity_feed" message wsm w in
        (with_websocket_manager m (Some wsm), w)
    | None => (m, w)
    end in
  match cm with
  | None => Some (m, None, w)
  | Some c =>
      let '(ws_msg, w) :=
        ConnectionManager.new_message ConnectionManager.USER_ACTION
          [("event", JStr "new_activity"); ("activity", JObj (activity_data activity))]
          "low" (Some "NEW") None w in
      '(c, w) ← ConnectionManager.broadcast_to_group fuel "dashboard" ws_msg [] c w;
      '(c, w) ← ConnectionManager.broadcast_to_group fuel "notifications" ws_msg [] c w;
      Some (m, Some c, w)
  end.

Definition _update_activity_stats (activity : ActivityItem) (m : t) : t :=
  let current_stats :=
    match RedisClient.get stats_key (redis m) with
    | Some p => if payload_truthy p then p else Redis.PStats ∅ None
    | None => Redis.PStats ∅ None
    end in
  match current_stats with
  | Redis.PStats counters _ =>
      let bump k (c : gmap string Z) := <[k := default 0 (c !! k) + 1]> c in
      let counters := bump "total_count" counters in
      let counters := bump ("type_" +:+ type_value (type activity)) counters in
      let counters := bump ("priority_" +:+ priority_value (priority activity)) counters in
      let '(_, c) := RedisClient.set stats_key
                       (Redis.PStats counters (Some (timestamp activity)))
                       (Some (activity_ttl m)) (redis m) in
      with_redis m c
  | _ => m
  end.

(** [add_activity].  The result is [None] only when [fuel] is too small
    for the calls inside [ConnectionManager]. *)
Definition add_activity (fuel : nat)
    (activity_type : ActivityType) (title description : string)
    (details : option (list (string * string)))
    (priority : ActivityPriority) (source : ActivitySource)
    (user source_name url : option string)
    (tags tech_areas : option (list string)) (impact_score : Qc)
    (m : t) (cm : option ConnectionManager.t) (w : World)
    : option (result string * t * option ConnectionManager.t * World) :=
  let '(ms, w) := time_ms w in
  let '(u, w) := uuid4 w in
  let '(ts, w) := now w in
  let activity :=
    mkActivity ("activity_" +:+ pretty ms +:+ "_" +:+ String.substring 0 8 u)
      activity_type priority source title description (default [] details) ts
      user source_name url (default [] tags) (default [] tech_areas) impact_score
      false false in
  let '(r, m) := alloc activity m in
  let m := with_recent m (r :: recent_activities m) in
  let m := with_cache m (<[id activity := r]> (activity_cache m)) in
  let m :=
    if bool_decide (max_activities m < length (recent_activities m))%nat then
      match list.last (recent_activities m) with
      | Some removed =>
          let m := with_recent m (removelast (recent_activities m)) in
          match objects m !! removed with
          | Some old => with_cache m (delete (id old) (activity_cache m))
          | None => m
          end
      | None => m
      end
    else m in
  let m := _save_activity_to_redis activity m in
  '(m, cm, w) ← _broadcast_activity fuel activity m cm w;
  let m := _update_activity_stats activity m in
  Some (Ok (id activity), m, cm, w).

Definition _load_recent_activities (m : t) : t :=
  let recent_activities :=
    _load_activities_from_redis (max_activities m) None None None None None None true m in
  let first := length (objects m) in
  let m := with_objects m (objects m ++ recent_activities)%list in
  let refs := seq first (length recent_activities) in
  let m := with_recent m refs in
  with_cache m (foldl (fun c ra => <[id ra.2 := ra.1]> c) ∅ (zip refs recent_activities)).

(** [cleanup] *)
Definition cleanup (m : t) : t := with_cache (with_recent m []) ∅.

(** [activities.sort(key=lambda a: a.timestamp, reverse=True)]: a stable
    sort, greatest timestamp first. *)
Fixpoint insert_desc (a : ActivityItem) (l : list ActivityItem) : list ActivityItem :=
  match l with
  | [] => [a]
  | b :: l' =>
      if bool_decide (timestamp b ≤ timestamp a) then a :: b :: l'
      else b :: insert_desc a l'
  end.

Definition sort_desc (l : list ActivityItem) : list ActivityItem :=
  foldr insert_desc [] l.

(** The loop of [get_bookmarked_activities]: each bookmarked id that is
    found is marked bookmarked (on the object) and collected. *)
Definition collect_bookmarked (activity_ids : list string) (m : t) : list nat * t :=
  foldl (fun st activity_id =>
           let '(acc, m) := st in
           let '(o, m) := get_activity_by_id activity_id m in
           match o with
           | Some r =>
               match objects m !! r with
               | Some activity =>
                   ((acc ++ [r])%list,
                    with_objects m (<[r := set_bookmarked true activity]> (objects m)))
               | None => (acc, m)
               end
           | None => (acc, m)
           end)
        ([], m) activity_ids.

Definition get_bookmarked_activities (user : string) (limit offset : nat) (m : t)
    : list ActivityItem * t :=
  let bookmarked_ids := _get_user_bookmarked_ids user m in
  if decide (bookmarked_ids = ∅) then ([], m)
  else
    let '(refs, m) := collect_bookmarked (elements bookmarked_ids) m in
    let activities := sort_desc (deref m refs).*2 in
    (take limit (drop offset activities), m).

End ActivityFeedManager.

(** * Specification-side definitions *)

(** ** Filtering: the specification's reading of a filter *)

(** One dimension with its values OR'd; a dimension without values (absent
    or empty) constrains nothing. *)
Definition dimension {A} (values : option (list A)) (x : A) : Prop :=
  match values with
  | Some (v :: vs) => x ∈ v :: vs
  | _ => True
  end.

Definition areas_intersect (areas : option (list string)) (a : ActivityItem) : Prop :=
  match areas with
  | Some (v :: vs) => Exists (fun area => area ∈ tech_areas a) (v :: vs)
  | _ => True
  end.

Definition since_ok (since : option Z) (a : ActivityItem) : Prop :=
  match since with
  | Some s => s ≤ timestamp a
  | None => True
  end.

Definition system_ok (include_system : bool) (a : ActivityItem) : Prop :=
  include_system = false → source a ≠ SYSTEM.

(** The dimensions AND'ed. *)
Definition matches_filters
    (activity_types : option (list ActivityType))
    (priorities : option (list ActivityPriority))
    (sources : option (list ActivitySource))
    (areas : option (list string)) (since : option Z) (include_system : bool)
    (a : ActivityItem) : Prop :=
  dimension activity_types (type a) ∧ dimension priorities (priority a) ∧
  dimension sources (source a) ∧ areas_intersect areas a ∧
  since_ok since a ∧ system_ok include_system a.

(** What the [user_id] argument adds. *)
Definition user_ok (user : option string) (a : ActivityItem) : Prop :=
  truthy user = true → user_id a = user ∨ user_id a = None.

#[global] Instance dimension_dec {A} `{EqDecision A} (values : option (list A)) (x : A) :
  Decision (dimension values x).
Proof. destruct values as [[|v vs]|]; simpl; apply _. Defined.

#[global] Instance areas_intersect_dec areas a : Decision (areas_intersect areas a).
Proof. destruct areas as [[|v vs]|]; simpl; apply _. Defined.

#[global] Instance since_ok_dec since a : Decision (since_ok since a).
Proof. destruct since; simpl; apply _. Defined.

#[global] Instance system_ok_dec inc a : Decision (system_ok inc a).
Proof. unfold system_ok. apply _. Defined.

#[global] Instance matches_filters_dec T P S Ar since inc a :
  Decision (matches_filters T P S Ar since inc a).
Proof. unfold matches_filters. apply _. Defined.

#[global] Instance user_ok_dec user a : Decision (user_ok user a).
Proof. unfold user_ok. apply _. Defined.


(** ** Statistics: the mean impact of a window *)

(** The events that [get_activity_stats] computes over. *)
Definition stats_window (since : option Z) (m : ActivityFeedManager.t) (w : World)
    : list ActivityItem :=
  let s := match since with
           | Some s => s
           | None => (now w).1 - 7 * 86400 * 1000000
           end in
  (ActivityFeedManager.get_activities (ActivityFeedManager.max_activities m) 0
     None None None None None (Some s) true m).1.



(** ** The store seen from the manager *)

(** The Redis server answers. *)
Definition store_reachable (m : ActivityFeedManager.t) : Prop :=
  ∃ s, RedisClient.redis (ActivityFeedManager.redis m) = Some s ∧ Redis.reachable s = true.

(** Every store command fails: no client, or the server does not answer. *)
Definition store_unreachable (m : ActivityFeedManager.t) : Prop :=
  match RedisClient.redis (ActivityFeedManager.redis m) with
  | None => True
  | Some s => Redis.reachable s = false
  end.

(** The keyspace of the store ([∅] without a client). *)
Definition keyspace (m : ActivityFeedManager.t) : gmap string Redis.entry :=
  match RedisClient.redis (ActivityFeedManager.redis m) with
  | Some s => Redis.db s
  | None => ∅
  end.

(** The event [event] exists for the manager: [get_activity_by_id] returns
    an object. *)
Definition event_exists (event : string) (m : ActivityFeedManager.t) : Prop :=
  ∃ r a, (ActivityFeedManager.get_activity_by_id event m).1 = Some r ∧
         ActivityFeedManager.objects (ActivityFeedManager.get_activity_by_id event m).2 !! r
         = Some a.

(** The bookmark state of [user] for [event]: whether the user's key for
    the event exists. *)
Definition is_bookmarked (user event : string) (m : ActivityFeedManager.t) : bool :=
  RedisClient.exists_ (ActivityFeedManager.bookmark_key user event)
    (ActivityFeedManager.redis m).

(** ** Connections of the [ConnectionManager] *)

(** Number of active connections: it bounds the depth of the calls between
    [send_personal_message], [disconnect] and [broadcast_to_group]. *)
Definition active_count (m : ConnectionManager.t) : nat :=
  size (ConnectionManager.active_connections m).

(** ** The global sorted index *)

(** Rank order of the index, as a relation. *)
Definition zorder (x y : Z * string) : Prop := Redis.zlt x y = true.

(** A well-formed sorted set: strictly ascending in rank order. *)
Definition zsorted (z : list (Z * string)) : Prop := StronglySorted zorder z.

(** The (score, id) pairs of the index of the store, lowest rank first. *)
Definition index (m : ActivityFeedManager.t) : list (Z * string) :=
  match keyspace m !! ActivityFeedManager.list_key with
  | Some e => match Redis.value e with Redis.RZSet z => z | Redis.RString _ => [] end
  | None => []
  end.

(** The index is a sorted set and not a string key. *)
Definition index_ok (m : ActivityFeedManager.t) : Prop :=
  match keyspace m !! ActivityFeedManager.list_key with
  | Some e => match Redis.value e with Redis.RZSet z => zsorted z | Redis.RString _ => False end
  | None => True
  end.

(** The event stored under an id, if any. *)
Definition stored (m : ActivityFeedManager.t) (activity_id : string) : option ActivityItem :=
  match keyspace m !! ActivityFeedManager.data_key activity_id with
  | Some e =>
      match Redis.value e with
      | Redis.RString (Redis.PActivity a) => Some a
      | _ => None
      end
  | None => None
  end.

(** [(score, id)] lexicographic order, [id] breaking ties on equal score. *)
Definition key_le (x y : Z * string) : Prop :=
  x.1 < y.1 ∨ (x.1 = y.1 ∧ String_as_OT.compare x.2 y.2 ≠ Gt).

(** [range(0, N)]: the ids of the index, most recent first. *)
Definition range (N : Z) (m : ActivityFeedManager.t) : result (list string) :=
  '(ids, _) ← RedisClient.call (ActivityFeedManager.redis m)
                (Redis.zrevrange ActivityFeedManager.list_key 0 N);
  Ok ids.

(** ** Sequences of appends *)

(** The arguments of one call of [add_activity]. *)
Record append_call : Type := mkCall {
  call_type : ActivityType;
  call_title : string;
  call_description : string;
  call_details : option (list (string * string));
  call_priority : ActivityPriority;
  call_source : ActivitySource;
  call_user : option string;
  call_source_name : option string;
  call_url : option string;
  call_tags : option (list string);
  call_tech_areas : option (list string);
  call_impact_score : Qc
}.

Definition feed_state : Type :=
  (ActivityFeedManager.t * option ConnectionManager.t * World)%type.

Definition append (fuel : nat) (c : append_call) (st : feed_state) : option feed_state :=
  let '(m, cm, w) := st in
  '(_, m, cm, w) ←
    ActivityFeedManager.add_activity fuel (call_type c) (call_title c) (call_description c)
      (call_details c) (call_priority c) (call_source c) (call_user c)
      (call_source_name c) (call_url c) (call_tags c) (call_tech_areas c)
      (call_impact_score c) m cm w;
  Some (m, cm, w).

Definition appends (fuel : nat) (calls : list append_call) (st : feed_state)
    : option feed_state :=
  foldl (fun st c => st ≫= append fuel c) (Some st) calls.

(** Every indexed id whose event is stored has the score of that event:
    its timestamp in whole milliseconds. *)
Definition scores_match (m : ActivityFeedManager.t) : Prop :=
  ∀ sc i a, (sc, i) ∈ index m → stored m i = Some a →
            sc = Z.quot (timestamp a) 1000.

(** The order of the specification: [(created_at, id)], [id] breaking ties
    on equal [created_at]. *)
Definition created_le (a b : ActivityItem) : Prop :=
  timestamp a < timestamp b
  ∨ (timestamp a = timestamp b ∧ String_as_OT.compare (id a) (id b) ≠ Gt).

(** The invariant of the store that appends keep. *)
Definition store_inv (m : ActivityFeedManager.t) : Prop :=
  store_reachable m ∧ index_ok m ∧ scores_match m
  ∧ 0 < ActivityFeedManager.max_activities_redis m.

(** What the trim of [_add_to_sorted_list] keeps of an index: its last [n]
    ranks. *)
Definition trimmed (n : Z) (z : list (Z * string)) : list (Z * string) :=
  drop (length z - Z.to_nat n) z.

(** ** Transports and broadcasts *)

(** A transport on which [send_text] succeeds. *)
Definition healthy (w : World) (ws : nat) : Prop :=
  ∃ k, sockets w !! ws = Some k ∧ broken k = false ∧ accepted k = true.

(** A transport on which [send_text] raises. *)
Definition send_fails (w : World) (ws : nat) : Prop :=
  ∃ k, sockets w !! ws = Some k ∧ broken k = true.

(** Between [w] and [w'] the transport received exactly the frame [f], in
    one call of [send_text]. *)
Definition delivered_once (w w' : World) (ws : nat) (f : json) : Prop :=
  ∃ k, sockets w !! ws = Some k
       ∧ sockets w' !! ws
         = Some (mkWebSocket (client_state k) (accepted k) (broken k)
                   (outbox k ++ [f]) (S (attempts k))).

(** Between [w] and [w'] one call of [send_text] was made on the transport
    and nothing reached the peer. *)
Definition failed_once (w w' : World) (ws : nat) : Prop :=
  ∃ k, sockets w !! ws = Some k
       ∧ sockets w' !! ws
         = Some (mkWebSocket (client_state k) (accepted k) (broken k)
                   (outbox k) (S (attempts k))).

(** The frame that [_send_to_connection] writes for a message. *)
Definition frame_for (message : dict) (t : Z) (connection_id : string) : json :=
  JObj (dict_set "connection_id" (JStr connection_id)
          (dict_set "timestamp" (JInt t) message)).

(** Bookkeeping invariant of [WebSocketManager]: a member of a topic is a
    live connection that records the topic; a connection listed for a user
    is a live connection of that user; two connections do not share a
    transport. *)
Definition registry_ok (m : WebSocketManager.t) : Prop :=
  (∀ topic ids c,
     WebSocketManager.subscriptions m !! topic = Some ids → c ∈ ids →
     ∃ conn, WebSocketManager.connections m !! c = Some conn
             ∧ topic ∈ WebSocketManager.conn_subscriptions conn)
  ∧ (∀ u ids c,
       WebSocketManager.user_connections m !! u = Some ids → c ∈ ids →
       ∃ conn, WebSocketManager.connections m !! c = Some conn
               ∧ WebSocketManager.user_id conn = Some u ∧ u ≠ "")
  ∧ (∀ c1 c2 k1 k2,
       WebSocketManager.connections m !! c1 = Some k1 →
       WebSocketManager.connections m !! c2 = Some k2 →
       WebSocketManager.websocket k1 = WebSocketManager.websocket k2 → c1 = c2).

(** What [set.discard] followed by the removal of an emptied set leaves
    under a key. *)
Definition purge (member : string) (o : option (gset string)) : option (gset string) :=
  match o with
  | Some s => if decide (s ∖ {[member]} = ∅) then None else Some (s ∖ {[member]})
  | None => None
  end.

(** With enough fuel for the active connections, each of the three mutually
    recursive methods returns and does not add a connection. *)
Definition send_total (f : nat) : Prop :=
  ∀ msg cid m w, (3 * active_count m + 1 ≤ f)%nat →
    ∃ m' w', ConnectionManager.send_personal_message f msg cid m w = Some (m', w')
             ∧ (active_count m' ≤ active_count m)%nat.

Definition disconnect_total (f : nat) : Prop :=
  ∀ cid m w,
    (1 ≤ f)%nat →
    ((if decide (is_Some (ConnectionManager.active_connections m !! cid))
      then 3 * active_count m else 3 * active_count m + 3) ≤ f)%nat →
    ∃ m' w', ConnectionManager.disconnect f cid m w = Some (m', w')
             ∧ (active_count m' ≤ active_count m)%nat.

Definition broadcast_total (f : nat) : Prop :=
  ∀ g msg ex m w, (3 * active_count m + 2 ≤ f)%nat →
    ∃ m' w', ConnectionManager.broadcast_to_group f g msg ex m w = Some (m', w')
             ∧ (active_count m' ≤ active_count m)%nat.

(** ** Connections of the [ConnectionManager] and their transports *)

(** Every active connection has a connected, healthy transport of its own. *)
Definition connections_healthy (m : ConnectionManager.t) (w : World) : Prop :=
  (∀ c ws, ConnectionManager.active_connections m !! c = Some ws →
     ∃ k, sockets w !! ws = Some k ∧ client_state k = CONNECTED
          ∧ broken k = false ∧ accepted k = true)
  ∧ (∀ c1 c2 ws, ConnectionManager.active_connections m !! c1 = Some ws →
                 ConnectionManager.active_connections m !! c2 = Some ws → c1 = c2).

(** What reached the peer of a transport. *)
Definition received (w : World) (ws : nat) : list json :=
  match sockets w !! ws with
  | Some k => outbox k
  | None => []
  end.

(** The connections a broadcast to [group] sends to. *)
Definition targets (group : string) (exclude : list string) (m : ConnectionManager.t)
    : gset string :=
  match ConnectionManager.connection_groups m !! group with
  | Some members => members ∖ list_to_set exclude
  | None => ∅
  end.

(** The frame of a replayed message: the message with both flags cleared. *)
Definition historical_frame (message : ConnectionManager.WebSocketMessage) : json :=
  ConnectionManager.to_json (ConnectionManager.historical message).

(** The groups a connection joins: [["global"]] when none is given. *)
Definition joined (groups : list string) : list string :=
  match groups with
  | [] => ["global"]
  | _ => groups
  end.

(** ** Concrete scenarios *)

(** A transport that has not been accepted yet. *)
Definition ex_socket : WebSocket := mkWebSocket CONNECTING false false [] 0.

(** A transport, accepted, on which [send_text] succeeds. *)
Definition ex_open_socket : WebSocket := mkWebSocket CONNECTED true false [] 0.

(** A transport, accepted, on which [send_text] raises. *)
Definition ex_broken_socket : WebSocket := mkWebSocket CONNECTED true true [] 0.

(** A world whose clock advances by 100 microseconds per reading, so that
    consecutive appends fall within one millisecond. *)
Definition ex_world : World :=
  mkWorld (fun n => 1700000000000000 + 100 * Z.of_nat n) 0
          (fun n => match n with
                    | O => "ffffffff0a0a0a0a"
                    | 1%nat => "000000001b1b1b1b"
                    | _ => "abcdef" +:+ pretty n +:+ "00000000"
                    end) 0
          (<[1%nat := ex_socket]> ∅).

(** A manager whose store answers and is empty. *)
Definition ex_feed_up : ActivityFeedManager.t :=
  ActivityFeedManager.__init__ (RedisClient.mk (Some (Redis.mkServer true ∅)) true).

(** A manager whose store does not answer. *)
Definition ex_feed_down : ActivityFeedManager.t :=
  ActivityFeedManager.__init__ (RedisClient.mk (Some (Redis.mkServer false ∅)) true).

Definition ex_call (title : string) : append_call :=
  mkCall INSIGHT_DISCOVERED title "found" None NORMAL MCP None None None None
         (Some ["rust"]) (Qc_of_Z 1).

Definition ex_id_1 : string := "activity_1700000000000_ffffffff".
Definition ex_id_2 : string := "activity_1700000000000_00000000".

(** The state after one append, then after a second one in the same
    millisecond. *)
Definition ex_one_append : feed_state :=
  default (ex_feed_up, None, ex_world)
          (appends 2 [ex_call "e1"] (ex_feed_up, None, ex_world)).

Definition ex_two_appends : feed_state :=
  default (ex_feed_up, None, ex_world)
          (appends 2 [ex_call "e1"; ex_call "e2"] (ex_feed_up, None, ex_world)).

(** Three connections subscribed to one topic; the transport of ["b"]
    raises on send. *)
Definition ex_conn (c : string) (ws : nat) : WebSocketManager.WebSocketConnection :=
  WebSocketManager.mkConn ws None c 0 0 {["activity_feed"]}.

Definition ex_registry : WebSocketManager.t :=
  WebSocketManager.mk
    (<["a" := ex_conn "a" 1]> (<["b" := ex_conn "b" 2]> (<["c" := ex_conn "c" 3]> ∅)))
    ∅
    (<["activity_feed" := {["a"; "b"; "c"]}]> ∅)
    30 120 true.

Definition ex_registry_world : World :=
  mkWorld (wall ex_world) 0 (uuids ex_world) 0
          (<[1%nat := ex_open_socket]> (<[2%nat := ex_broken_socket]>
             (<[3%nat := ex_open_socket]> ∅))).


(** Two stored events, one without a user and one of the user ["bob"]. *)
Definition ex_event (i : string) (u : option string) (t : Z) : ActivityItem :=
  mkActivity i INSIGHT_DISCOVERED NORMAL MCP "t" "d" [] t u None None [] [] 0%Qc false false.
(** * Further specification-side definitions *)

(** [d] is the histogram of [key] over [l]: every key that occurs in [l] is
    listed once, with the number of its occurrences, and no other key is
    listed. *)
Definition histogram {A} (key : A → string) (l : list A) (d : list (string * nat)) : Prop :=
  NoDup d.*1
  ∧ ∀ k n, (k, n) ∈ d ↔ (0 < n)%nat ∧ n = length (filter (fun a => key a = k) l).

(** Number of the events of a window that come from a source. *)
Definition source_count (acts : list ActivityItem) (k : string) : nat :=
  length (filter (fun a => source_value (source a) = k) acts).

(** The client cannot reach a server: there is none, or it does not
    answer. *)
Definition client_unreachable (c : RedisClient.t) : Prop :=
  match RedisClient.redis c with
  | None => True
  | Some s => Redis.reachable s = false
  end.

(** Most recent first. *)
Definition newest_first (l : list ActivityItem) : Prop :=
  StronglySorted (fun a b => timestamp b ≤ timestamp a) l.

(** A byte that a KEYS pattern matches literally. *)
Definition glob_literal (c : ascii) : Prop :=
  c ≠ "*"%char ∧ c ≠ "?"%char ∧ c ≠ "\"%char ∧ c ≠ "["%char.

(** A user id without pattern metacharacters. *)
Definition plain_user (user : string) : Prop :=
  Forall glob_literal (list_ascii_of_string user).

(** An id without a colon, as the ids that [add_activity] makes. *)
Definition no_colon (activity_id : string) : Prop :=
  ":"%char ∉ list_ascii_of_string activity_id.

(** The message that [shutdown] broadcasts. *)
Definition shutdown_message : dict :=
  [("type", JStr "server_shutdown");
   ("data", JObj [("message", JStr "Serveur en cours d'arrêt")])].

(** The world of [ex_registry] with the three transports healthy. *)
Definition ex_open_world : World :=
  mkWorld (wall ex_world) 0 (uuids ex_world) 0
          (<[1%nat := ex_open_socket]> (<[2%nat := ex_open_socket]>
             (<[3%nat := ex_open_socket]> ∅))).

(** One turn of the closing loop of [shutdown]: the transport of the
    connection is closed, an error being ignored, and the connection is
    disconnected. *)
Definition shutdown_step (st : WebSocketManager.t * World) (connection_id : string)
    : WebSocketManager.t * World :=
  let '(m, w) := st in
  let w := match WebSocketManager.connections m !! connection_id with
           | Some connection => (close (WebSocketManager.websocket connection) w).2
           | None => w
           end in
  (WebSocketManager.disconnect connection_id m, w).

(** The acknowledgement that [WebSocketManager.connect] sends. *)
Definition connection_established (connection_id : string) (user : option string) (t : Z)
    : dict :=
  [("type", JStr "connection_established");
   ("data", JObj [("connection_id", JStr connection_id);
                  ("user_id", opt_str user);
                  ("server_time", JInt t)])].

(** The [ConnectionManager] knows nothing of a connection: it is not
    active, has no metadata and is a member of no group. *)
Definition forgotten (c : string) (m : ConnectionManager.t) : Prop :=
  ConnectionManager.active_connections m !! c = None
  ∧ ConnectionManager.connection_metadata m !! c = None
  ∧ ∀ g members, ConnectionManager.connection_groups m !! g = Some members → c ∉ members.

(** The history holds at most [max_history] messages, [max_history] being
    [n]. *)
Definition history_bounded (n : nat) (m : ConnectionManager.t) : Prop :=
  ConnectionManager.max_history m = n
  ∧ (length (ConnectionManager.recent_messages m) ≤ n)%nat.

(** A manager with two connections; the transport of ["x"] raises. *)
Definition ex_cm : ConnectionManager.t :=
  ConnectionManager.mk
    (<["x" := 2%nat]> (<["y" := 1%nat]> ∅))
    (<["admin" := {["y"]}]> (<["global" := {["x"; "y"]}]> ∅))
    (<["x" := ConnectionManager.mkMeta 0 ["global"] 0 0]>
       (<["y" := ConnectionManager.mkMeta 0 ["admin"; "global"] 0 0]> ∅))
    [] 50.

(** The counters kept under the statistics key (none when the key is
    absent). *)
Definition stored_counters (m : ActivityFeedManager.t) : gmap string Z :=
  match keyspace m !! ActivityFeedManager.stats_key with
  | Some e =>
      match Redis.value e with
      | Redis.RString (Redis.PStats c _) => c
      | _ => ∅
      end
  | None => ∅
  end.

(** One counter, 0 when it is absent. *)
Definition counter (m : ActivityFeedManager.t) (k : string) : Z :=
  default 0 (stored_counters m !! k).

(** The statistics key is absent or holds counters. *)
Definition stats_ok (m : ActivityFeedManager.t) : Prop :=
  match keyspace m !! ActivityFeedManager.stats_key with
  | Some e =>
      match Redis.value e with
      | Redis.RString (Redis.PStats _ _) => True
      | _ => False
      end
  | None => True
  end.


(** * Properties *)

Section filter_facts.
Context {A : Type}.

Lemma filter_all (P : A → Prop) `{∀ x, Decision (P x)} (l : list A) :
  (∀ x, x ∈ l → P x) → filter P l = l.
Proof.
  induction l as [|x l IH]; intros Hall; [done|].
  rewrite filter_cons_True by (apply Hall; left).
  f_equal. apply IH. intros y Hy. apply Hall. by right.
Qed.

Lemma filter_if (b : bool) (P : A → Prop) `{∀ x, Decision (P x)} (l : list A) :
  (if b then filter P l else l) = filter (fun a => b = true → P a) l.
Proof.
  destruct b.
  - apply list_filter_iff. naive_solver.
  - symmetry. apply filter_all. done.
Qed.
End filter_facts.

Lemma given_dimension {A} (values : option (list A)) (x : A) :
  (given values = true → x ∈ default [] values) ↔ dimension values x.
Proof. destruct values as [[|v vs]|]; simpl; naive_solver. Qed.

Lemma given_areas areas a :
  (given areas = true → Exists (fun area => area ∈ tech_areas a) (default [] areas))
  ↔ areas_intersect areas a.
Proof. destruct areas as [[|v vs]|]; simpl; naive_solver. Qed.

(** [_filter_activities] is one filter by the conjunction of its tests. *)
Lemma _filter_activities_filter {A} (view : A → ActivityItem) (l : list A)
    T P S u Ar since inc :
  ActivityFeedManager._filter_activities view l T P S u Ar since inc =
  filter (fun x => matches_filters T P S Ar since inc (view x) ∧ user_ok u (view x)) l.
Proof.
  unfold ActivityFeedManager._filter_activities.
  rewrite !filter_if.
  replace (match since with
           | Some s => filter (fun a => s ≤ timestamp (view a)) l
           | None => l
           end) with (filter (fun a => since_ok since (view a)) l).
  2:{ destruct since; simpl; [done|]. apply filter_all. done. }
  rewrite !list_filter_filter.
  apply list_filter_iff. intros x.
  unfold matches_filters, user_ok, system_ok.
  rewrite <- !given_dimension, <- given_areas.
  destruct inc; simpl; naive_solver.
Qed.


(** C9.  With a (non-empty) [user_id] filter the result is the result
    without it, restricted to the events whose [user_id] is that user or is
    [None]: events without a user pass, only events of another user are
    removed. *)
Theorem C9_user_filter_keeps_events_without_user
    (acts : list ActivityItem) T P S (u : string) Ar since inc :
  u ≠ "" →
  ActivityFeedManager._filter_activities (fun a => a) acts T P S (Some u) Ar since inc
  = filter (fun a => user_id a = None ∨ user_id a = Some u)
      (ActivityFeedManager._filter_activities (fun a => a) acts T P S None Ar since inc)
  ∧ (∀ a, a ∈ ActivityFeedManager._filter_activities (fun a => a) acts T P S None Ar since inc →
          (user_id a = None →
           a ∈ ActivityFeedManager._filter_activities (fun a => a) acts T P S (Some u) Ar since inc)
          ∧ (∀ v, user_id a = Some v → v ≠ u →
             a ∉ ActivityFeedManager._filter_activities (fun a => a) acts T P S (Some u) Ar since inc)).
Proof.
  intros Hu.
  assert (Ht : truthy (Some u) = true).
  { simpl. apply negb_true_iff, String.eqb_neq. done. }
  assert (Heq : ActivityFeedManager._filter_activities (fun a => a) acts T P S (Some u) Ar since inc
    = filter (fun a => user_id a = None ∨ user_id a = Some u)
        (ActivityFeedManager._filter_activities (fun a => a) acts T P S None Ar since inc)).
  { rewrite !_filter_activities_filter, list_filter_filter.
    apply list_filter_iff. intros a. unfold user_ok. rewrite Ht. simpl. naive_solver. }
  split; [exact Heq|]. rewrite Heq. intros a Ha. split.
  - intros Hn. apply list_elem_of_filter. auto.
  - intros v Hv Hne. rewrite list_elem_of_filter. naive_solver.
Qed.

(** ** Statistics *)





(** ** The client over a server that answers *)

Section reachable_client.
Variables (s : Redis.server) (b : bool).
Hypothesis Hup : Redis.reachable s = true.

Lemma exists_reachable key :
  RedisClient.exists_ key (RedisClient.mk (Some s) b)
  = bool_decide (is_Some (Redis.db s !! key)).
Proof.
  unfold RedisClient.exists_, RedisClient.call, Redis.exists_, Redis.guard. simpl.
  rewrite Hup. simpl. destruct (Redis.db s !! key) eqn:E; simpl;
    first [ done
          | symmetry; apply bool_decide_eq_false_2; by intros [? ?]
          | symmetry; apply bool_decide_eq_true_2; eauto ].
Qed.

Lemma set_reachable key v ex :
  RedisClient.set key v ex (RedisClient.mk (Some s) b)
  = (true, RedisClient.mk
             (Some (Redis.with_db s (<[key := Redis.mkEntry (Redis.RString v) ex]> (Redis.db s))))
             b).
Proof.
  unfold RedisClient.set, RedisClient.call, Redis.set, Redis.guard. simpl.
  rewrite Hup. done.
Qed.

Lemma delete_reachable key :
  (RedisClient.delete key (RedisClient.mk (Some s) b)).2
  = RedisClient.mk (Some (Redis.with_db s (delete key (Redis.db s)))) b.
Proof.
  unfold RedisClient.delete, RedisClient.call, Redis.delete, Redis.guard. simpl.
  rewrite Hup. destruct (Redis.db s !! key) eqn:E; simpl; [done|].
  rewrite delete_id by done. by destruct s.
Qed.

Lemma get_reachable key :
  RedisClient.get key (RedisClient.mk (Some s) b)
  = match Redis.db s !! key with
    | Some (Redis.mkEntry (Redis.RString p) _) => Some p
    | _ => None
    end.
Proof.
  unfold RedisClient.get, RedisClient.call, Redis.get, Redis.guard. simpl.
  rewrite Hup. destruct (Redis.db s !! key) as [[[p|z] t]|]; done.
Qed.
End reachable_client.

(** ** Bookmarks *)

Import ActivityFeedManager.

Lemma bookmark_activity_flips (event user : string) (m : t) :
  store_reachable m → event_exists event m →
  ∃ m', bookmark_activity event user m = (true, m') ∧
        is_bookmarked user event m' = negb (is_bookmarked user event m) ∧
        store_reachable m' ∧ event_exists event m'.
Proof.
  intros (s & Hs & Hup) (r & a & Hget & Hobj).
  unfold bookmark_activity.
  destruct (get_activity_by_id event m) as [o m1] eqn:Hg. simpl in Hget, Hobj. subst o.
  rewrite Hobj.
  assert (Hr1 : redis m1 = redis m).
  { unfold get_activity_by_id in Hg.
    repeat case_match; simplify_eq; try done; unfold alloc in *; by simplify_eq. }
  unfold is_bookmarked. rewrite Hr1.
  destruct (redis m) as [o b] eqn:Hrm. simpl in Hs. subst o.
  rewrite !(exists_reachable s b Hup).
  assert (Hlen : (r < length (objects m1))%nat) by (eapply lookup_lt_Some; eauto).
  destruct (bool_decide (is_Some (Redis.db s !! bookmark_key user event))) eqn:Hex.
  - pose proof (delete_reachable s b Hup (bookmark_key user event)) as Hd.
    destruct (RedisClient.delete (bookmark_key user event) (RedisClient.mk (Some s) b))
      as [x c] eqn:Hdel. simpl in Hd. subst c.
    eexists. split; [reflexivity|]. simpl.
    rewrite (exists_reachable _ b) by done. simpl.
    split; [|split].
    + rewrite lookup_delete_eq. apply bool_decide_eq_false_2. by intros [? ?].
    + eexists. simpl. split; [reflexivity|done].
    + exists r, (set_bookmarked false a). unfold get_activity_by_id. simpl.
      rewrite lookup_insert_eq. simpl. split; [done|].
      by apply list_lookup_insert_eq.
  - rewrite (set_reachable s b Hup).
    eexists. split; [reflexivity|]. simpl.
    rewrite (exists_reachable _ b) by done. simpl.
    split; [|split].
    + rewrite lookup_insert_eq. apply bool_decide_eq_true_2. eauto.
    + eexists. simpl. split; [reflexivity|done].
    + exists r, (set_bookmarked true a). unfold get_activity_by_id. simpl.
      rewrite lookup_insert_eq. simpl. split; [done|].
      by apply list_lookup_insert_eq.
Qed.

(** C7.  For every user and every existing event, with the store answering:
    [bookmark_activity] succeeds and flips the existence of the user's
    bookmark key for the event, and applying it twice brings that state back
    to its original value. *)
Theorem C7_toggle_bookmark_twice_is_identity (event user : string) (m : t) :
  store_reachable m → event_exists event m →
  let once := bookmark_activity event user m in
  let twice := bookmark_activity event user once.2 in
  once.1 = true ∧ twice.1 = true ∧
  is_bookmarked user event once.2 = negb (is_bookmarked user event m) ∧
  is_bookmarked user event twice.2 = is_bookmarked user event m.
Proof.
  intros Hup Hex.
  destruct (bookmark_activity_flips event user m Hup Hex) as (m1 & E1 & F1 & Hup1 & Hex1).
  destruct (bookmark_activity_flips event user m1 Hup1 Hex1) as (m2 & E2 & F2 & _ & _).
  simpl. rewrite E1. simpl. rewrite E2. simpl.
  rewrite F2, F1, negb_involutive. done.
Qed.

(** ** [ConnectionManager]: enough fuel always gives a result *)

Module CMFacts.
Import ConnectionManager.

(** A loop that threads the state through a step that may run out of
    fuel. *)
Lemma foldl_steps {X} (step : X → t → World → option (t * World)) (k : nat)
    (l : list X) (m : t) (w : World) :
  (∀ x m w, active_count m ≤ k →
     ∃ m' w', step x m w = Some (m', w') ∧ active_count m' ≤ active_count m)%nat →
  (active_count m ≤ k)%nat →
  ∃ m' w', foldl (fun st x => '(m, w) ← st; step x m w) (Some (m, w)) l = Some (m', w')
           ∧ (active_count m' ≤ k)%nat.
Proof.
  intros Hstep. revert m w. induction l as [|x l IH]; intros m w Hk; simpl.
  - eauto.
  - destruct (Hstep x m w Hk) as (m' & w' & -> & Hle).
    apply IH. lia.
Qed.

Lemma active_count_delete cid (m : t) :
  active_count (with_active m (delete cid (active_connections m)))
  = (if decide (is_Some (active_connections m !! cid))
     then pred (active_count m) else active_count m).
Proof.
  unfold active_count. simpl. destruct (active_connections m !! cid) eqn:E.
  - rewrite decide_True by eauto. rewrite map_size_delete_Some by eauto. done.
  - rewrite decide_False by (by intros [? ?]). by rewrite delete_id.
Qed.

Lemma active_count_pos cid ws (m : t) :
  active_connections m !! cid = Some ws → (1 ≤ active_count m)%nat.
Proof.
  intros E. unfold active_count.
  destruct (decide (size (active_connections m) = 0%nat)) as [Hz|]; [|lia].
  apply map_size_empty_iff in Hz. rewrite Hz in E. done.
Qed.

Lemma total (f : nat) : send_total f ∧ disconnect_total f ∧ broadcast_total f.
Proof.
  induction f as [|f (IHs & IHd & IHb)].
  { split; [|split]; intros ?; intros; lia. }
  split; [|split].
  - intros msg cid m w Hf. simpl.
    destruct (active_connections m !! cid) as [ws|] eqn:Ea; [|eauto].
    pose proof (active_count_pos _ _ _ Ea) as Hpos.
    assert (Hd : ∀ w, ∃ m' w', disconnect f cid m w = Some (m', w')
                               ∧ (active_count m' ≤ active_count m)%nat).
    { intros w0. apply IHd; [lia|]. rewrite decide_True by eauto. lia. }
    destruct (sockets w !! ws) as [k|]; [|apply Hd].
    destruct (decide (client_state k = CONNECTED)); [|apply Hd].
    destruct (send_text ws (to_json msg) w) as [[[]|err] w1]; [|apply Hd].
    destruct (connection_metadata m !! cid); [|eauto].
    destruct (now w1). eauto.
  - intros cid m w H1 Hf. simpl.
    set (m1 := with_active (with_groups m _) _).
    assert (Hn1 : active_count m1
                  = if decide (is_Some (active_connections m !! cid))
                    then pred (active_count m) else active_count m).
    { subst m1. apply (active_count_delete cid (with_groups m _)). }
    assert (Hdec : ∀ k : nat,
              (k ≤ if decide (is_Some (active_connections m !! cid))
                   then pred (active_count m) else active_count m)%nat →
              (k ≤ active_count m)%nat ∧ (3 * k + 2 ≤ f ∨ k = 0)%nat).
    { intros k. destruct (decide (is_Some (active_connections m !! cid))); lia. }
    destruct (connection_metadata m !! cid); cbn beta iota;
      lazymatch goal with
      | |- ∃ _ _, (if bool_decide (0 < size (active_connections ?m0))%nat
                   then broadcast_to_group _ _ ?gm _ _ ?w3 else _) = _ ∧ _ =>
          assert (Hn2 : active_count m0 = active_count m1) by reflexivity;
          destruct (bool_decide (0 < size (active_connections m0))%nat) eqn:Hpos;
          [ apply bool_decide_eq_true_1 in Hpos;
            change (size (active_connections m0)) with (active_count m0) in Hpos;
            destruct (IHb "admin" gm [] m0 w3) as (m' & w' & E & Hle);
            [ destruct (Hdec (active_count m0)) as [_ [?|?]]; [lia|lia|lia]
            | exists m', w'; split; [exact E|];
              destruct (Hdec (active_count m0)) as [? _]; [lia|lia] ]
          | eexists _, _; split; [reflexivity|];
            destruct (Hdec (active_count m0)) as [? _]; [lia|lia] ]
      end.
  - intros g msg ex m w Hf. simpl.
    destruct (connection_groups m !! g) as [members|]; [|eauto].
    destruct (decide (members ∖ list_to_set ex = ∅)); [eauto|].
    assert (Hh : active_count (_add_to_history msg m) = active_count m).
    { unfold _add_to_history. by destruct (bool_decide _). }
    destruct (foldl_steps (send_personal_message f msg) (active_count m)
                (elements (members ∖ list_to_set ex)) (_add_to_history msg m) w)
      as (m' & w' & E & Hle).
    + intros x m0 w0 Hk. apply IHs. lia.
    + lia.
    + exists m', w'. split; [exact E|lia].
Qed.

Lemma broadcast_to_group_total f g msg ex m w :
  (3 * active_count m + 2 ≤ f)%nat →
  ∃ m' w', broadcast_to_group f g msg ex m w = Some (m', w')
           ∧ (active_count m' ≤ active_count m)%nat.
Proof. apply total. Qed.

End CMFacts.

(** ** Appending while the store does not answer *)

Lemma _save_activity_to_redis_unreachable (a : ActivityItem) (m : t) :
  store_unreachable m → _save_activity_to_redis a m = m.
Proof.
  unfold store_unreachable, _save_activity_to_redis, _add_to_sorted_list,
    RedisClient.set, RedisClient.call, Redis.set, Redis.zadd, Redis.guard.
  destruct m as [[o b] ? ? ? ? ? ? ?]. simpl.
  destruct o as [[up d]|]; simpl; [intros ->|]; simpl; done.
Qed.

Lemma _update_activity_stats_unreachable (a : ActivityItem) (m : t) :
  store_unreachable m → _update_activity_stats a m = m.
Proof.
  unfold store_unreachable, _update_activity_stats,
    RedisClient.get, RedisClient.set, RedisClient.call, Redis.get, Redis.set, Redis.guard.
  destruct m as [[o b] ? ? ? ? ? ? ?]. simpl.
  destruct o as [[up d]|]; simpl; [intros ->|]; simpl; done.
Qed.

(** [_broadcast_activity] returns, given fuel for the active connections,
    and touches only the [websocket_manager] field of the manager. *)
Lemma _broadcast_activity_total fuel (a : ActivityItem) (m : t)
    (cm : option ConnectionManager.t) (w : World) :
  (3 * from_option active_count 0%nat cm + 2 ≤ fuel)%nat →
  ∃ wsm' cm' w',
    _broadcast_activity fuel a m cm w = Some (with_websocket_manager m wsm', cm', w')
    ∧ (from_option active_count 0%nat cm' ≤ from_option active_count 0%nat cm)%nat.
Proof.
  intros Hf. unfold _broadcast_activity.
  set (st := match websocket_manager m with Some _ => _ | None => _ end).
  assert (Hst : ∃ x w1, st = (with_websocket_manager m x, w1)).
  { subst st. destruct (websocket_manager m) as [wsm|] eqn:E.
    - destruct (WebSocketManager.broadcast_to_topic _ _ _ _) as [[n wsm'] w1]. eauto.
    - exists None, w. f_equal. destruct m; simpl in *; by subst. }
  destruct Hst as (x & w1 & ->).
  destruct cm as [c|]; [|eauto]. simpl in Hf.
  destruct (ConnectionManager.new_message _ _ _ _ _ w1) as [msg w2].
  destruct (CMFacts.broadcast_to_group_total fuel "dashboard" msg [] c w2 Hf)
    as (c1 & w3 & -> & Hle).
  destruct (CMFacts.broadcast_to_group_total fuel "notifications" msg [] c1 w3)
    as (c2 & w4 & E & Hle2); [lia|].
  simpl. rewrite E. simpl. eexists _, _, _. split; [reflexivity|]. simpl. lia.
Qed.

(** C1 (as the code has it).  When the store does not answer, [add_activity]
    does not fail: the failed writes are caught and logged below it, nothing
    reaches the store, the event is kept at the head of the in-memory list
    and its fresh id is returned to the producer. *)
Theorem C1_append_returns_id_although_store_unreachable
    fuel a_type a_title a_description a_details a_priority a_source a_user a_source_name
    a_url a_tags a_areas a_score (m : t) (cm : option ConnectionManager.t) (w : World) :
  store_unreachable m →
  (0 < max_activities m)%nat →
  (3 * from_option active_count 0%nat cm + 2 ≤ fuel)%nat →
  ∃ new r m' cm' w',
    add_activity fuel a_type a_title a_description a_details a_priority a_source a_user
      a_source_name a_url a_tags a_areas a_score m cm w = Some (Ok (id new), m', cm', w')
    ∧ redis m' = redis m
    ∧ head (recent_activities m') = Some r
    ∧ objects m' !! r = Some new
    ∧ type new = a_type ∧ title new = a_title ∧ description new = a_description.
Proof.
  intros Hdown Hmax Hf. unfold add_activity.
  destruct (time_ms w) as [ms w1]. destruct (uuid4 w1) as [u w2].
  destruct (now w2) as [ts w3].
  set (new := mkActivity _ _ _ _ _ _ _ _ _ _ _ _ _ _ _ _).
  unfold alloc. cbn beta iota.
  set (m1 := with_cache _ _).
  set (m2 := if bool_decide _ then _ else m1).
  assert (H2 : redis m2 = redis m ∧ objects m2 = (objects m ++ [new])%list
               ∧ head (recent_activities m2) = Some (length (objects m))).
  { subst m2. destruct (bool_decide _) eqn:Hb; [|done].
    apply bool_decide_eq_true_1 in Hb.
    assert (Hrec : recent_activities m1 = length (objects m) :: recent_activities m) by done.
    rewrite Hrec in *. simpl in Hb.
    destruct (recent_activities m) as [|x l] eqn:Hl; [simpl in Hb; lia|].
    destruct (list.last (length (objects m) :: x :: l)) as [removed|]; [|done].
    destruct (objects _ !! removed); done. }
  destruct H2 as (Hr2 & Ho2 & Hh2).
  assert (Hdown2 : store_unreachable m2).
  { unfold store_unreachable. rewrite Hr2. exact Hdown. }
  rewrite (_save_activity_to_redis_unreachable new m2 Hdown2).
  destruct (_broadcast_activity_total fuel new m2 cm w3 Hf) as (x & cm' & w' & -> & _).
  unfold mbind, option_bind. cbn beta iota.
  rewrite _update_activity_stats_unreachable by exact Hdown2.
  exists new, (length (objects m)), (with_websocket_manager m2 x), cm', w'.
  split; [done|]. split; [done|]. split; [done|]. split; [|done].
  simpl. rewrite Ho2. by apply list_lookup_middle.
Qed.

(** ** Sorted sets *)

Module ZSetFacts.
Import Redis.

Lemma zlt_spec (x y : Z * string) :
  zlt x y = true ↔ x.1 < y.1 ∨ (x.1 = y.1 ∧ String_as_OT.lt x.2 y.2).
Proof.
  unfold zlt, String_as_OT.lt.
  rewrite orb_true_iff, andb_true_iff, Z.ltb_lt, Z.eqb_eq.
  destruct (String_as_OT.compare x.2 y.2); naive_solver.
Qed.

#[global] Instance zorder_trans : Transitive zorder.
Proof.
  intros x y z. unfold zorder. rewrite !zlt_spec.
  intros [H1|[H1 L1]] [H2|[H2 L2]]; try (left; lia).
  right. split; [lia|]. by etrans.
Qed.

#[global] Instance zorder_irrefl : Irreflexive zorder.
Proof.
  intros x H. apply zlt_spec in H as [H|[_ H]]; [lia|].
  by apply (irreflexivity String_as_OT.lt) in H.
Qed.

Lemma zlt_total (x y : Z * string) :
  zlt x y = false → x = y ∨ zorder y x.
Proof.
  intros Hf. unfold zorder. rewrite zlt_spec.
  assert (Hn : ¬ (x.1 < y.1 ∨ x.1 = y.1 ∧ String_as_OT.lt x.2 y.2)).
  { rewrite <- zlt_spec. by rewrite Hf. }
  destruct (Z.lt_trichotomy x.1 y.1) as [?|[He|?]]; [naive_solver| |naive_solver].
  destruct (String_as_OT.compare_spec y.2 x.2) as [E|L|L].
  - left. destruct x, y; simpl in *. unfold String_as_OT.eq in E. by subst.
  - right. right. split; [lia|exact L].
  - exfalso. apply Hn. right. split; [lia|exact L].
Qed.

Lemma zorder_key_le (x y : Z * string) : zorder x y → key_le x y.
Proof.
  unfold zorder, key_le. rewrite zlt_spec. unfold String_as_OT.lt.
  intros [?|[? L]]; [by left|]. right. split; [done|]. by rewrite L.
Qed.

Lemma elem_of_zinsert (x y : Z * string) (l : list (Z * string)) :
  y ∈ zinsert x l ↔ y = x ∨ y ∈ l.
Proof.
  induction l as [|z l IH]; simpl.
  - rewrite list_elem_of_singleton. set_solver.
  - destruct (zlt x z); [set_solver|].
    rewrite !elem_of_cons, IH. naive_solver.
Qed.

Lemma length_zinsert (x : Z * string) (l : list (Z * string)) :
  length (zinsert x l) = S (length l).
Proof. induction l as [|z l IH]; simpl; [done|]. destruct (zlt x z); simpl; lia. Qed.

Lemma zinsert_sorted (x : Z * string) (l : list (Z * string)) :
  zsorted l → x.2 ∉ l.*2 → zsorted (zinsert x l).
Proof.
  unfold zsorted. induction l as [|z l IH]; intros Hs Hx; simpl.
  - repeat constructor.
  - apply StronglySorted_cons in Hs as [Hz Hs].
    rewrite fmap_cons, not_elem_of_cons in Hx. destruct Hx as [Hne Hx].
    destruct (zlt x z) eqn:E.
    + apply StronglySorted_cons. split.
      * constructor; [exact E|].
        eapply Forall_impl; [exact Hz|]. intros y Hy. by trans z.
      * by apply StronglySorted_cons.
    + apply StronglySorted_cons. split; [|by apply IH].
      apply Forall_forall. intros y [->|Hy]%elem_of_zinsert.
      * destruct (zlt_total _ _ E) as [->|?]; [done|done].
      * rewrite Forall_forall in Hz. by apply Hz.
Qed.

Lemma zremove_sorted (member : string) (l : list (Z * string)) :
  zsorted l → zsorted (zremove member l).
Proof.
  unfold zsorted, zremove. induction l as [|z l IH]; intros Hs; [constructor|].
  apply StronglySorted_cons in Hs as [Hz Hs].
  rewrite filter_cons. destruct (decide (z.2 ≠ member)); [|by apply IH].
  apply StronglySorted_cons. split; [|by apply IH].
  apply Forall_forall. intros y [_ Hy]%list_elem_of_filter.
  rewrite Forall_forall in Hz. by apply Hz.
Qed.

Lemma zremove_not_elem (member : string) (l : list (Z * string)) :
  member ∉ (zremove member l).*2.
Proof.
  unfold zremove. intros ([sc i] & -> & [Hne _]%list_elem_of_filter)%list_elem_of_fmap.
  done.
Qed.

Lemma zadd_sorted (member : string) (score : Z) (l : list (Z * string)) :
  zsorted l → zsorted (zinsert (score, member) (zremove member l)).
Proof.
  intros Hs. apply zinsert_sorted; [by apply zremove_sorted|].
  apply zremove_not_elem.
Qed.

Lemma zsorted_drop (n : nat) (l : list (Z * string)) : zsorted l → zsorted (drop n l).
Proof.
  unfold zsorted. rewrite <- (take_drop n l) at 1. apply StronglySorted_app_1_r.
Qed.


Lemma zsorted_reverse (l : list (Z * string)) :
  zsorted l → StronglySorted (flip zorder) (reverse l).
Proof.
  unfold zsorted. induction l as [|x l IH]; intros Hs; [constructor|].
  apply StronglySorted_cons in Hs as [Hx Hs].
  rewrite reverse_cons. apply StronglySorted_app_2; [|by apply IH|repeat constructor].
  intros y z Hy ->%list_elem_of_singleton.
  rewrite elem_of_reverse in Hy. rewrite Forall_forall in Hx. by apply Hx.
Qed.

(** The range that [_add_to_sorted_list] removes: everything but the last
    [n] ranks. *)
Lemma norm_range_trim (len n : Z) :
  0 ≤ len → 0 ≤ n →
  norm_range len 0 (- (n + 1))
  = if decide (len ≤ n) then None else Some (0, len - n).
Proof.
  intros Hl Hn. unfold norm_range. simpl.
  destruct (- (n + 1) <? 0) eqn:E1; [|apply Z.ltb_ge in E1; lia].
  destruct (decide (len ≤ n)).
  - destruct (len + - (n + 1) <? 0) eqn:E2; [done|]. apply Z.ltb_ge in E2; lia.
  - destruct (len + - (n + 1) <? 0) eqn:E2; [apply Z.ltb_lt in E2; lia|].
    destruct (len <=? 0) eqn:E3; [apply Z.leb_le in E3; lia|]. simpl.
    destruct (len <=? len + - (n + 1)) eqn:E4; [apply Z.leb_le in E4; lia|].
    f_equal. f_equal. lia.
Qed.

End ZSetFacts.

(** ** Keys of the store *)

Lemma data_key_inj (i j : string) : data_key i = data_key j → i = j.
Proof. unfold data_key. cbv [String.append]. congruence. Qed.

Lemma data_key_not_list_key (i : string) : data_key i ≠ list_key.
Proof. unfold data_key, list_key. cbv [String.append]. congruence. Qed.

Lemma data_key_not_stats_key (i : string) : data_key i ≠ stats_key.
Proof. unfold data_key, stats_key. cbv [String.append]. congruence. Qed.

Lemma list_key_not_stats_key : list_key ≠ stats_key.
Proof. unfold list_key, stats_key. congruence. Qed.

(** ** Appending to a store that answers *)

Lemma zinsert_not_nil (x : Z * string) (l : list (Z * string)) : Redis.zinsert x l ≠ [].
Proof. destruct l as [|y l]; simpl; [done|]. by destruct (Redis.zlt x y). Qed.

Lemma put_zset_cons (s : Redis.server) (key : string) (z : list (Z * string)) :
  z ≠ [] →
  Redis.put_zset s key z
  = Redis.with_db s
      (<[key := Redis.mkEntry (Redis.RZSet z)
                  match Redis.db s !! key with Some e => Redis.ttl e | None => None end]>
         (Redis.db s)).
Proof. by destruct z. Qed.


Lemma trimmed_not_nil (n : Z) (z : list (Z * string)) :
  0 < n → z ≠ [] → trimmed n z ≠ [].
Proof.
  intros Hn Hz. unfold trimmed. intros E%(f_equal length).
  rewrite length_drop in E. simpl in E.
  destruct z as [|x z]; [done|]. simpl in E. lia.
Qed.

Lemma _add_to_sorted_list_reachable (a : ActivityItem) (m : t)
    (s : Redis.server) (b : bool) (z : list (Z * string)) :
  redis m = RedisClient.mk (Some s) b →
  Redis.reachable s = true →
  Redis.zset_at s list_key = Ok z →
  0 < max_activities_redis m →
  _add_to_sorted_list a m
  = with_redis m
      (RedisClient.mk
         (Some (Redis.with_db s
                  (<[list_key :=
                       Redis.mkEntry
                         (Redis.RZSet (trimmed (max_activities_redis m)
                                         (Redis.zinsert (score_of a, id a)
                                            (Redis.zremove (id a) z))))
                         (Some (activity_ttl m))]> (Redis.db s))))
         b).
Proof.
  intros Hr Hup Hz Hn.
  set (z1 := Redis.zinsert (score_of a, id a) (Redis.zremove (id a) z)).
  assert (Hz1 : z1 ≠ []) by apply zinsert_not_nil.
  unfold _add_to_sorted_list. rewrite Hr.
  unfold RedisClient.call at 1. simpl.
  unfold Redis.zadd, Redis.guard. rewrite Hup, Hz. simpl.
  fold z1. rewrite (put_zset_cons s list_key z1 Hz1).
  set (t0 := match Redis.db s !! list_key with Some e => Redis.ttl e | None => None end).
  set (s1 := Redis.with_db s _).
  assert (Hz1' : Redis.zset_at s1 list_key = Ok z1).
  { unfold Redis.zset_at. subst s1. simpl. by rewrite lookup_insert_eq. }
  unfold RedisClient.call at 1. simpl.
  unfold Redis.zremrangebyrank, Redis.guard.
  replace (Redis.reachable s1) with true by (subst s1; by rewrite <- Hup).
  rewrite Hz1'. simpl.
  rewrite ZSetFacts.norm_range_trim by lia.
  destruct (decide (Z.of_nat (length z1) ≤ max_activities_redis m)) as [Hle|Hgt].
  - assert (Ht : trimmed (max_activities_redis m) z1 = z1).
    { unfold trimmed. replace (length z1 - Z.to_nat _)%nat with 0%nat by lia. done. }
    unfold RedisClient.call. simpl. unfold Redis.expire, Redis.guard.
    replace (Redis.reachable s1) with true by (subst s1; by rewrite <- Hup).
    replace (Redis.db s1 !! list_key) with (Some (Redis.mkEntry (Redis.RZSet z1) t0))
      by (subst s1; simpl; by rewrite lookup_insert_eq).
    simpl. rewrite Ht in *.
    rewrite insert_insert_eq. subst s1. done.
  - simpl.
    assert (Ht : drop (Z.to_nat (0 + (Z.of_nat (length z1) - max_activities_redis m))) z1
                 = trimmed (max_activities_redis m) z1).
    { unfold trimmed. f_equal. lia. }
    rewrite Ht.
    rewrite (put_zset_cons s1 list_key _ (trimmed_not_nil _ _ Hn Hz1)).
    unfold RedisClient.call. simpl. unfold Redis.expire, Redis.guard. simpl.
    rewrite Hup. rewrite lookup_insert_eq. simpl.
    rewrite !insert_insert_eq. subst s1. done.
Qed.

Lemma _save_activity_to_redis_reachable (a : ActivityItem) (m : t)
    (s : Redis.server) (b : bool) (z : list (Z * string)) :
  redis m = RedisClient.mk (Some s) b →
  Redis.reachable s = true →
  Redis.zset_at s list_key = Ok z →
  0 < max_activities_redis m →
  _save_activity_to_redis a m
  = with_redis m
      (RedisClient.mk
         (Some (Redis.with_db s
                  (<[list_key :=
                       Redis.mkEntry
                         (Redis.RZSet (trimmed (max_activities_redis m)
                                         (Redis.zinsert (score_of a, id a)
                                            (Redis.zremove (id a) z))))
                         (Some (activity_ttl m))]>
                     (<[data_key (id a) :=
                          Redis.mkEntry (Redis.RString (Redis.PActivity a))
                            (Some (activity_ttl m))]> (Redis.db s)))))
         b).
Proof.
  intros Hr Hup Hz Hn. unfold _save_activity_to_redis, _serialize_activity.
  rewrite Hr, (set_reachable s b Hup).
  set (s1 := Redis.with_db s _).
  rewrite (_add_to_sorted_list_reachable a (with_redis m (RedisClient.mk (Some s1) b))
             s1 b z); [done|done|done| |done].
  unfold Redis.zset_at in *. subst s1. simpl.
  rewrite lookup_insert_ne by apply data_key_not_list_key. exact Hz.
Qed.

Lemma _update_activity_stats_keyspace (a : ActivityItem) (m : t) (k : string) :
  k ≠ stats_key →
  keyspace (_update_activity_stats a m) !! k = keyspace m !! k.
Proof.
  intros Hk. unfold _update_activity_stats.
  destruct (match RedisClient.get stats_key (redis m) with
            | Some p => if payload_truthy p then p else Redis.PStats ∅ None
            | None => Redis.PStats ∅ None
            end); try done.
  unfold RedisClient.set, RedisClient.call, Redis.set, Redis.guard, keyspace.
  destruct (redis m) as [[s|] b]; simpl; [|done].
  destruct (Redis.reachable s); simpl; [|done].
  by rewrite lookup_insert_ne.
Qed.

Lemma _update_activity_stats_fields (a : ActivityItem) (m : t) :
  max_activities_redis (_update_activity_stats a m) = max_activities_redis m
  ∧ max_activities (_update_activity_stats a m) = max_activities m
  ∧ (store_reachable m → store_reachable (_update_activity_stats a m)).
Proof.
  unfold _update_activity_stats.
  destruct (match RedisClient.get stats_key (redis m) with
            | Some p => if payload_truthy p then p else Redis.PStats ∅ None
            | None => Redis.PStats ∅ None
            end); try done.
  split; [|split].
  - by destruct (RedisClient.set _ _ _ _).
  - by destruct (RedisClient.set _ _ _ _).
  - intros (s & Hs & Hup). destruct (redis m) as [o b] eqn:E. simpl in Hs. subst o.
    rewrite (set_reachable s b Hup). eexists. simpl. split; [reflexivity|done].
Qed.

(** How [add_activity] is made of its steps. *)
Lemma add_activity_steps fuel a_type a_title a_description a_details a_priority a_source
    a_user a_source_name a_url a_tags a_areas a_score
    (m : t) (cm : option ConnectionManager.t) (w : World) r m' cm' w' :
  add_activity fuel a_type a_title a_description a_details a_priority a_source a_user
    a_source_name a_url a_tags a_areas a_score m cm w = Some (r, m', cm', w') →
  ∃ new m2 x,
    r = Ok (id new)
    ∧ redis m2 = redis m
    ∧ max_activities_redis m2 = max_activities_redis m
    ∧ max_activities m2 = max_activities m
    ∧ activity_ttl m2 = activity_ttl m
    ∧ m' = _update_activity_stats new
             (with_websocket_manager (_save_activity_to_redis new m2) x).
Proof.
  unfold add_activity.
  destruct (time_ms w) as [ms w1]. destruct (uuid4 w1) as [u w2].
  destruct (now w2) as [ts w3].
  set (new := mkActivity _ _ _ _ _ _ _ _ _ _ _ _ _ _ _ _).
  unfold alloc. cbn beta iota.
  set (m1 := with_cache _ _).
  set (m2 := if bool_decide _ then _ else m1).
  assert (H2 : redis m2 = redis m ∧ max_activities_redis m2 = max_activities_redis m
               ∧ max_activities m2 = max_activities m ∧ activity_ttl m2 = activity_ttl m).
  { subst m2. destruct (bool_decide _); [|done].
    destruct (list.last _); [|done]. by destruct (objects _ !! _). }
  destruct (_broadcast_activity fuel new (_save_activity_to_redis new m2) cm w3)
    as [[[mb cmb] wb]|] eqn:Eb; [|done].
  unfold mbind, option_bind. cbn beta iota. intros [= <- <- <- <-].
  assert (Hx : ∃ x, mb = with_websocket_manager (_save_activity_to_redis new m2) x).
  { unfold _broadcast_activity in Eb.
    set (st := match websocket_manager _ with Some _ => _ | None => _ end) in Eb.
    assert (Hst : ∃ x w1, st = (with_websocket_manager (_save_activity_to_redis new m2) x, w1)).
    { subst st. destruct (websocket_manager _) as [wsm|] eqn:E.
      - destruct (WebSocketManager.broadcast_to_topic _ _ _ _) as [[n wsm'] w0]. eauto.
      - exists None, w3. f_equal. destruct (_save_activity_to_redis new m2); simpl in *.
        by subst. }
    destruct Hst as (x & w0 & Hst). rewrite Hst in Eb. exists x.
    destruct cm as [c|]; [|by simplify_eq].
    destruct (ConnectionManager.new_message _ _ _ _ _ w0) as [msg w4].
    destruct (ConnectionManager.broadcast_to_group fuel "dashboard" msg [] c w4)
      as [[c1 w5]|]; [|done].
    simpl in Eb.
    destruct (ConnectionManager.broadcast_to_group fuel "notifications" msg [] c1 w5)
      as [[c2 w6]|]; [|done].
    simpl in Eb. by simplify_eq. }
  destruct Hx as [x ->].
  exists new, m2, x. destruct H2 as (? & ? & ? & ?). done.
Qed.

(** What an append leaves in a store that answers. *)
Lemma add_activity_store fuel a_type a_title a_description a_details a_priority a_source
    a_user a_source_name a_url a_tags a_areas a_score
    (m : t) (cm : option ConnectionManager.t) (w : World) r m' cm' w' :
  add_activity fuel a_type a_title a_description a_details a_priority a_source a_user
    a_source_name a_url a_tags a_areas a_score m cm w = Some (r, m', cm', w') →
  store_reachable m → index_ok m → 0 < max_activities_redis m →
  ∃ new,
    r = Ok (id new)
    ∧ store_reachable m'
    ∧ max_activities_redis m' = max_activities_redis m
    ∧ keyspace m' !! list_key
      = Some (Redis.mkEntry
                (Redis.RZSet
                   (trimmed (max_activities_redis m)
                      (Redis.zinsert (score_of new, id new)
                         (Redis.zremove (id new) (index m)))))
                (Some (activity_ttl m)))
    ∧ stored m' (id new) = Some new
    ∧ (∀ i, i ≠ id new → stored m' i = stored m i).
Proof.
  intros Hadd (s & Hs & Hup) Hok Hn.
  destruct (add_activity_steps _ _ _ _ _ _ _ _ _ _ _ _ _ _ _ _ _ _ _ _ Hadd)
    as (new & m2 & x & -> & Hr2 & Hn2 & _ & Httl & ->).
  rewrite <- Httl.
  exists new.
  destruct (redis m) as [o b] eqn:Hrm. simpl in Hs. subst o.
  assert (Hz : Redis.zset_at s list_key = Ok (index m)).
  { unfold index_ok, index, keyspace, Redis.zset_at in *. rewrite Hrm in *. simpl in *.
    destruct (Redis.db s !! list_key) as [[[p|z] t]|]; simpl in *; done. }
  pose proof (_save_activity_to_redis_reachable new m2 s b (index m) Hr2 Hup Hz) as Hsave.
  rewrite Hn2 in Hsave. specialize (Hsave Hn).
  pose proof (_update_activity_stats_fields new
                (with_websocket_manager (_save_activity_to_redis new m2) x))
    as (Hf1 & _ & Hf3).
  split; [done|]. split; [|split; [|split; [|split]]].
  - apply Hf3. rewrite Hsave. eexists. simpl. split; [reflexivity|done].
  - rewrite Hf1. rewrite Hsave. simpl. done.
  - rewrite _update_activity_stats_keyspace by apply list_key_not_stats_key.
    rewrite Hsave. unfold keyspace. simpl. rewrite lookup_insert_eq. done.
  - unfold stored. rewrite _update_activity_stats_keyspace by apply data_key_not_stats_key.
    rewrite Hsave. unfold keyspace. simpl.
    rewrite lookup_insert_ne by (apply not_eq_sym, data_key_not_list_key).
    rewrite lookup_insert_eq. done.
  - intros i Hi. unfold stored.
    rewrite _update_activity_stats_keyspace by apply data_key_not_stats_key.
    rewrite Hsave. unfold keyspace. simpl. rewrite Hrm. simpl.
    rewrite lookup_insert_ne by (apply not_eq_sym, data_key_not_list_key).
    rewrite lookup_insert_ne; [done|]. intros E. apply Hi. symmetry. by apply data_key_inj.
Qed.

Lemma index_ok_sorted (m : t) : index_ok m → zsorted (index m).
Proof.
  unfold index_ok, index. destruct (keyspace m !! list_key) as [[[p|z] ?]|]; simpl;
    [done|done|constructor].
Qed.

Lemma index_of_entry (m : t) z ttl :
  keyspace m !! list_key = Some (Redis.mkEntry (Redis.RZSet z) ttl) → index m = z.
Proof. unfold index. by intros ->. Qed.


(** ** The order of the index after any sequence of appends *)

Lemma add_activity_total fuel a_type a_title a_description a_details a_priority a_source
    a_user a_source_name a_url a_tags a_areas a_score
    (m : t) (cm : option ConnectionManager.t) (w : World) :
  (3 * from_option active_count 0%nat cm + 2 ≤ fuel)%nat →
  ∃ r m' cm' w',
    add_activity fuel a_type a_title a_description a_details a_priority a_source a_user
      a_source_name a_url a_tags a_areas a_score m cm w = Some (r, m', cm', w')
    ∧ (from_option active_count 0%nat cm' ≤ from_option active_count 0%nat cm)%nat.
Proof.
  intros Hf. unfold add_activity.
  destruct (time_ms w) as [ms w1]. destruct (uuid4 w1) as [u w2].
  destruct (now w2) as [ts w3].
  unfold alloc. cbn beta iota.
  match goal with
  | |- context [_broadcast_activity fuel ?a ?m cm w3] =>
      destruct (_broadcast_activity_total fuel a m cm w3 Hf) as (x & cm' & w' & -> & Hle)
  end.
  unfold mbind, option_bind. cbn beta iota. eauto 10.
Qed.

Lemma appends_total fuel (calls : list append_call) (m : t)
    (cm : option ConnectionManager.t) (w : World) :
  (3 * from_option active_count 0%nat cm + 2 ≤ fuel)%nat →
  ∃ m' cm' w', appends fuel calls (m, cm, w) = Some (m', cm', w').
Proof.
  unfold appends. revert m cm w. induction calls as [|c calls IH]; intros m cm w Hf.
  - simpl. eauto.
  - simpl.
    destruct (add_activity_total fuel (call_type c) (call_title c) (call_description c)
                (call_details c) (call_priority c) (call_source c) (call_user c)
                (call_source_name c) (call_url c) (call_tags c) (call_tech_areas c)
                (call_impact_score c) m cm w Hf) as (r & m1 & cm1 & w1 & E & Hle).
    rewrite E. simpl. apply IH. lia.
Qed.

Lemma add_activity_store_inv fuel a_type a_title a_description a_details a_priority
    a_source a_user a_source_name a_url a_tags a_areas a_score
    (m : t) (cm : option ConnectionManager.t) (w : World) r m' cm' w' :
  add_activity fuel a_type a_title a_description a_details a_priority a_source a_user
    a_source_name a_url a_tags a_areas a_score m cm w = Some (r, m', cm', w') →
  store_inv m → store_inv m'.
Proof.
  intros Hadd (Hup & Hok & Hsc & Hn).
  destruct (add_activity_store _ _ _ _ _ _ _ _ _ _ _ _ _ _ _ _ _ _ _ _ Hadd Hup Hok Hn)
    as (new & -> & Hup' & Hn' & Hidx & Hnew & Hold).
  pose proof (index_of_entry _ _ _ Hidx) as Hi.
  split; [done|]. split; [|split; [|lia]].
  - unfold index_ok. rewrite Hidx. simpl.
    apply ZSetFacts.zsorted_drop, ZSetFacts.zadd_sorted, index_ok_sorted, Hok.
  - intros sc i a Hin Hst. rewrite Hi in Hin.
    unfold trimmed in Hin.
    apply (λ H, elem_of_sublist _ _ _ H (sublist_drop _ _)) in Hin.
    apply ZSetFacts.elem_of_zinsert in Hin as [[= -> ->]|Hin].
    + rewrite Hnew in Hst. by simplify_eq.
    + unfold Redis.zremove in Hin. apply list_elem_of_filter in Hin as [Hne Hin].
      simpl in Hne. rewrite Hold in Hst by done. eapply Hsc; eauto.
Qed.

Lemma appends_store_inv fuel (calls : list append_call) (st st' : feed_state) :
  appends fuel calls st = Some st' → store_inv st.1.1 → store_inv st'.1.1.
Proof.
  unfold appends. revert st. induction calls as [|c calls IH]; intros [[m cm] w] E Hinv.
  - simpl in E. by simplify_eq.
  - simpl in E.
    destruct (add_activity fuel (call_type c) (call_title c) (call_description c)
                (call_details c) (call_priority c) (call_source c) (call_user c)
                (call_source_name c) (call_url c) (call_tags c) (call_tech_areas c)
                (call_impact_score c) m cm w) as [[[[r m1] cm1] w1]|] eqn:Ea.
    + simpl in E. apply (IH _ E). simpl. eapply add_activity_store_inv; eauto.
    + simpl in E. exfalso. clear -E. induction calls; simpl in E; [done|auto].
Qed.

(** What [range] reads from a store that answers. *)
Lemma range_reachable (N : Z) (m : t) :
  store_reachable m → index_ok m →
  ∃ n, range N m = Ok (take n (reverse (index m))).*2
       ∧ (0 ≤ N → n = Z.to_nat (N + 1)).
Proof.
  intros (s & Hs & Hup) Hok. unfold range, RedisClient.call. rewrite Hs.
  unfold Redis.zrevrange, Redis.guard. rewrite Hup.
  assert (Hz : Redis.zset_at s list_key = Ok (index m)).
  { unfold index_ok, index, keyspace, Redis.zset_at in *. rewrite Hs in *.
    destruct (Redis.db s !! list_key) as [[[p|z] t]|]; simpl in *; done. }
  rewrite Hz. simpl.
  set (len := Z.of_nat (length (index m))).
  assert (Hlen : length (reverse (index m)) = Z.to_nat len).
  { rewrite length_reverse. lia. }
  destruct (Redis.norm_range len 0 N) as [[i k]|] eqn:En; simpl.
  - unfold Redis.norm_range in En. simpl in En.
    destruct (N <? 0) eqn:E1.
    + destruct ((len + N <? 0) || (len <=? 0)) eqn:E2; [done|].
      apply orb_false_iff in E2 as [E2 E3].
      exists (Z.to_nat k). split; [|intros ?; apply Z.ltb_lt in E1; lia].
      simplify_eq.
      change (drop (Z.to_nat 0) (reverse (index m))) with (reverse (index m)). done.
    + destruct ((N <? 0) || (len <=? 0)) eqn:E2; [done|].
      apply orb_false_iff in E2 as [_ E3]. apply Z.ltb_ge in E1. apply Z.leb_gt in E3.
      exists (Z.to_nat (N + 1)). split; [|done].
      simplify_eq.
      change (drop (Z.to_nat 0) (reverse (index m))) with (reverse (index m)).
      destruct (len <=? N) eqn:E4.
      * apply Z.leb_le in E4. rewrite !take_ge by lia. done.
      * apply Z.leb_gt in E4. do 3 f_equal. lia.
  - exists (if decide (0 ≤ N) then Z.to_nat (N + 1) else 0%nat). split.
    + destruct (decide (0 ≤ N)); [|done].
      unfold Redis.norm_range in En. simpl in En.
      destruct (N <? 0) eqn:E1; [apply Z.ltb_lt in E1; lia|].
      rewrite E1 in En. simpl in En.
      destruct (len <=? 0) eqn:E3; [|done]. apply Z.leb_le in E3.
      destruct (reverse (index m)); [by rewrite take_nil|simpl in Hlen; lia].
    + intros HN. by rewrite decide_True.
Qed.

(** C3 (as the code has it).  After every sequence of appends to a store
    that answers, [range(0, N)] returns the ids of the index from the highest
    rank down: their (score, id) pairs are in strictly decreasing
    lexicographic order, the id breaking ties on equal score, where the score
    of a stored event is its timestamp cut to whole milliseconds.  Events
    created within the same millisecond are thus ordered by id. *)
Theorem C3_range_ordered_by_millisecond_score_then_id
    fuel (calls : list append_call) (m : t) (cm : option ConnectionManager.t) (w : World) :
  store_reachable m → index_ok m → scores_match m → 0 < max_activities_redis m →
  (3 * from_option active_count 0%nat cm + 2 ≤ fuel)%nat →
  ∃ m' cm' w',
    appends fuel calls (m, cm, w) = Some (m', cm', w')
    ∧ ∀ N, ∃ entries,
        range N m' = Ok entries.*2
        ∧ (0 ≤ N → entries = take (Z.to_nat (N + 1)) (reverse (index m')))
        ∧ StronglySorted (fun x y => key_le y x ∧ x ≠ y) entries
        ∧ (∀ sc i a, (sc, i) ∈ entries → stored m' i = Some a →
                     sc = Z.quot (timestamp a) 1000).
Proof.
  intros Hup Hok Hsc Hn Hf.
  destruct (appends_total fuel calls m cm w Hf) as (m' & cm' & w' & E).
  exists m', cm', w'. split; [exact E|]. intros N.
  destruct (appends_store_inv fuel calls _ _ E) as (Hup' & Hok' & Hsc' & _); [done|].
  simpl in *.
  destruct (range_reachable N m' Hup' Hok') as (n & Hr & HN).
  exists (take n (reverse (index m'))). split; [exact Hr|]. split; [|split].
  - intros H0. by rewrite (HN H0).
  - pose proof (ZSetFacts.zsorted_reverse _ (index_ok_sorted _ Hok')) as Hrev.
    rewrite <- (take_drop n (reverse (index m'))) in Hrev.
    apply StronglySorted_app in Hrev as (_ & Hrev & _).
    clear -Hrev. induction Hrev as [|x l Hs IH Hx]; [constructor|].
    constructor; [exact IH|]. eapply Forall_impl; [exact Hx|].
    intros y Hy. unfold flip in Hy. split; [by apply ZSetFacts.zorder_key_le|].
    intros ->. by apply (irreflexivity zorder y).
  - intros sc i a Hin Hst. eapply Hsc'; [|exact Hst].
    apply elem_of_reverse. eapply elem_of_sublist; [exact Hin|apply sublist_take].
Qed.

(** ** [WebSocketManager]: one failing member of a broadcast *)

Module WSFacts.
Import WebSocketManager.

Lemma lookup_discard_from (key member : string) (d : gmap string (gset string))
    (key' : string) :
  discard_from key member d !! key'
  = if decide (key = key') then purge member (d !! key') else d !! key'.
Proof.
  unfold discard_from, purge. destruct (decide (key = key')) as [<-|Hne].
  - destruct (d !! key) as [s|] eqn:E; [|done].
    destruct (decide (s ∖ {[member]} = ∅)).
    + by rewrite lookup_delete_eq.
    + by rewrite lookup_insert_eq.
  - destruct (d !! key) as [s|] eqn:E; [|done].
    destruct (decide (s ∖ {[member]} = ∅)).
    + by rewrite lookup_delete_ne.
    + by rewrite lookup_insert_ne.
Qed.

Lemma purge_idemp member o : purge member (purge member o) = purge member o.
Proof.
  unfold purge. destruct o as [s|]; [|done].
  destruct (decide (s ∖ {[member]} = ∅)) as [|Hne]; [done|].
  replace (s ∖ {[member]} ∖ {[member]}) with (s ∖ {[member]}) by set_solver.
  by rewrite decide_False.
Qed.

Lemma lookup_foldl_discard (member : string) (topics : list string)
    (d : gmap string (gset string)) (key : string) :
  foldl (fun d topic => discard_from topic member d) d topics !! key
  = if decide (key ∈ topics) then purge member (d !! key) else d !! key.
Proof.
  revert d. induction topics as [|t topics IH]; intros d; cbn [foldl].
  - destruct (decide (key ∈ [])); [set_solver|done].
  - rewrite IH, lookup_discard_from.
    destruct (decide (t = key)) as [->|Hne].
    + rewrite (decide_True (P := key ∈ key :: topics)) by set_solver.
      destruct (decide (key ∈ topics)); [apply purge_idemp|done].
    + destruct (decide (key ∈ topics)).
      * rewrite decide_True by set_solver. done.
      * rewrite decide_False by set_solver. done.
Qed.

Lemma purge_Some member o ids :
  purge member o = Some ids → ∃ s, o = Some s ∧ ids = s ∖ {[member]}.
Proof.
  unfold purge. destruct o as [s|]; [|done].
  destruct (decide (s ∖ {[member]} = ∅)); [done|]. intros [= <-]. eauto.
Qed.

(** [disconnect] of a live connection. *)
Lemma disconnect_live (k : string) (conn : WebSocketConnection) (m : t) :
  connections m !! k = Some conn →
  connections (disconnect k m) = delete k (connections m)
  ∧ (∀ key, subscriptions (disconnect k m) !! key
            = if decide (key ∈ elements (conn_subscriptions conn))
              then purge k (subscriptions m !! key) else subscriptions m !! key)
  ∧ (∀ u, user_connections (disconnect k m) !! u
          = if decide (user_id conn = Some u ∧ u ≠ "")
            then purge k (user_connections m !! u) else user_connections m !! u).
Proof.
  intros Hk. unfold disconnect. rewrite Hk.
  set (subs := foldl _ _ _).
  set (m1 := with_subscriptions m subs).
  set (m2 := match user_id conn with Some u => _ | None => m1 end).
  set (m3 := with_connections m2 _).
  assert (H2 : connections m2 = connections m ∧ subscriptions m2 = subs
               ∧ ∀ u, user_connections m2 !! u
                      = if decide (user_id conn = Some u ∧ u ≠ "")
                        then purge k (user_connections m !! u)
                        else user_connections m !! u).
  { subst m2. destruct (user_id conn) as [u0|] eqn:Eu.
    - simpl. destruct (String.eqb u0 "") eqn:Eq; simpl.
      + apply String.eqb_eq in Eq. subst u0. split; [done|]. split; [done|].
        intros u. rewrite decide_False; [done|]. intros [[= <-] ?]. done.
      + apply String.eqb_neq in Eq. split; [done|]. split; [done|].
        intros u. rewrite lookup_discard_from.
        destruct (decide (u0 = u)) as [->|Hne].
        * rewrite decide_True by done. done.
        * rewrite decide_False; [done|]. intros [[= ?] ?]. done.
    - split; [done|]. split; [done|]. intros u.
      rewrite decide_False; [done|]. intros [? ?]. done. }
  destruct H2 as (Hc2 & Hs2 & Hu2).
  assert (H3 : connections m3 = delete k (connections m) ∧ subscriptions m3 = subs
               ∧ user_connections m3 = user_connections m2).
  { subst m3. simpl. by rewrite Hc2, Hs2. }
  destruct H3 as (Hc3 & Hs3 & Hu3).
  assert (Hfin : ∀ mf, (mf = m3 ∨ mf = with_cleanup_task m3 false) →
            connections mf = delete k (connections m) ∧ subscriptions mf = subs
            ∧ user_connections mf = user_connections m2).
  { intros mf [->| ->]; simpl; done. }
  destruct (Hfin (if bool_decide (connections m3 = ∅) && _cleanup_task m3
                  then with_cleanup_task m3 false else m3)) as (Hc & Hs & Hu).
  { destruct (_ && _); auto. }
  split; [exact Hc|]. split.
  - intros key. rewrite Hs. subst subs. apply lookup_foldl_discard.
  - intros u. rewrite Hu. apply Hu2.
Qed.

Lemma disconnect_registry_ok (k : string) (m : t) :
  registry_ok m → registry_ok (disconnect k m).
Proof.
  intros (Hsub & Husr & Hinj).
  destruct (connections m !! k) as [conn|] eqn:Hk.
  2:{ unfold disconnect. rewrite Hk. done. }
  destruct (disconnect_live k conn m Hk) as (Hc & Hs & Hu).
  split; [|split].
  - intros topic ids c Hl Hin. rewrite Hs in Hl.
    assert (Hc' : ∃ s, subscriptions m !! topic = Some s ∧ c ∈ s ∧ c ≠ k).
    { destruct (decide _).
      - apply purge_Some in Hl as (s & Hl & ->). exists s. set_solver.
      - exists ids. split; [done|]. split; [done|]. intros ->.
        destruct (Hsub _ _ _ Hl Hin) as (conn' & Hk' & Ht). simplify_eq.
        rewrite elem_of_elements in n. done. }
    destruct Hc' as (s & Hl' & Hin' & Hne).
    destruct (Hsub _ _ _ Hl' Hin') as (conn' & Hk' & Ht).
    exists conn'. rewrite Hc, lookup_delete_ne by done. done.
  - intros u ids c Hl Hin. rewrite Hu in Hl.
    assert (Hc' : ∃ s, user_connections m !! u = Some s ∧ c ∈ s ∧ c ≠ k).
    { destruct (decide _) as [|Hn].
      - apply purge_Some in Hl as (s & Hl & ->). exists s. set_solver.
      - exists ids. split; [done|]. split; [done|]. intros ->.
        destruct (Husr _ _ _ Hl Hin) as (conn' & Hk' & Hu' & Hne). simplify_eq.
        apply Hn. done. }
    destruct Hc' as (s & Hl' & Hin' & Hne).
    destruct (Husr _ _ _ Hl' Hin') as (conn' & Hk' & Ht).
    exists conn'. rewrite Hc, lookup_delete_ne by done. done.
  - intros c1 c2 k1 k2. rewrite Hc. intros H1 H2.
    apply lookup_delete_Some in H1 as [_ H1]. apply lookup_delete_Some in H2 as [_ H2].
    eauto.
Qed.

(** After the disconnect of a live connection of a well-kept registry, no
    topic and no user lists it, and the other members stay where they
    were. *)
Lemma disconnect_prunes (k : string) (conn : WebSocketConnection) (m : t) :
  registry_ok m → connections m !! k = Some conn →
  (∀ topic ids, subscriptions (disconnect k m) !! topic = Some ids → k ∉ ids)
  ∧ (∀ u ids, user_connections (disconnect k m) !! u = Some ids → k ∉ ids)
  ∧ (∀ topic j, j ≠ k →
       (∃ ids, subscriptions (disconnect k m) !! topic = Some ids ∧ j ∈ ids)
       ↔ (∃ ids, subscriptions m !! topic = Some ids ∧ j ∈ ids)).
Proof.
  intros (Hsub & Husr & Hinj) Hk.
  destruct (disconnect_live k conn m Hk) as (Hc & Hs & Hu).
  split; [|split].
  - intros topic ids Hl. rewrite Hs in Hl. destruct (decide _) as [|Hn].
    + apply purge_Some in Hl as (s & _ & ->). set_solver.
    + intros Hin. destruct (Hsub _ _ _ Hl Hin) as (conn' & Hk' & Ht). simplify_eq.
      rewrite elem_of_elements in Hn. done.
  - intros u ids Hl. rewrite Hu in Hl. destruct (decide _) as [|Hn].
    + apply purge_Some in Hl as (s & _ & ->). set_solver.
    + intros Hin. destruct (Husr _ _ _ Hl Hin) as (conn' & Hk' & Hu' & Hne).
      simplify_eq. apply Hn. done.
  - intros topic j Hj. rewrite Hs. destruct (decide _); [|done]. split.
    + intros (ids & Hl & Hin). apply purge_Some in Hl as (s & Hl & ->).
      exists s. set_solver.
    + intros (ids & Hl & Hin). rewrite Hl. unfold purge.
      destruct (decide (ids ∖ {[k]} = ∅)) as [He|]; [set_solver|].
      eexists. split; [done|]. set_solver.
Qed.

(** The empty registry is well kept, and [subscribe] keeps it so. *)
Lemma init_registry_ok : registry_ok __init__.
Proof.
  split; [|split]; intros *; simpl; rewrite lookup_empty; done.
Qed.

Lemma subscribe_registry_ok (c topic : string) (m : t) :
  registry_ok m → registry_ok (subscribe c topic m).2.
Proof.
  intros (Hsub & Husr & Hinj). unfold subscribe.
  destruct (connections m !! c) as [conn|] eqn:Hc; [|done].
  simpl. split; [|split].
  - intros topic' ids c' Hl Hin. simpl in *.
    apply lookup_insert_Some in Hl as [[<- <-]|[Hne Hl]].
    + apply elem_of_union in Hin as [->%elem_of_singleton|Hin].
      * rewrite lookup_insert_eq. eexists. split; [done|]. simpl. set_solver.
      * destruct (subscriptions m !! topic) as [s|] eqn:Es; [|set_solver].
        simpl in Hin. destruct (Hsub _ _ _ Es Hin) as (conn' & Hc' & Ht).
        destruct (decide (c' = c)) as [->|Hcc].
        -- rewrite lookup_insert_eq. eexists. split; [done|]. simpl. set_solver.
        -- rewrite lookup_insert_ne by done. eauto.
    + destruct (Hsub _ _ _ Hl Hin) as (conn' & Hc' & Ht).
      destruct (decide (c' = c)) as [->|Hcc].
      * rewrite lookup_insert_eq. eexists. split; [done|]. simpl.
        assert (conn' = conn) by congruence. set_solver.
      * rewrite lookup_insert_ne by done. eauto.
  - intros u ids c' Hl Hin. simpl in *.
    destruct (Husr _ _ _ Hl Hin) as (conn' & Hc' & Hu & Hne).
    destruct (decide (c' = c)) as [->|Hcc].
    + rewrite lookup_insert_eq. eexists. split; [done|]. simpl.
      assert (conn' = conn) by congruence. by subst.
    + rewrite lookup_insert_ne by done. eauto.
  - intros c1 c2 k1 k2 H1 H2 Heq. simpl in *.
    apply lookup_insert_Some in H1 as [[<- <-]|[Hn1 H1]];
      apply lookup_insert_Some in H2 as [[<- <-]|[Hn2 H2]]; simpl in Heq; eauto.
Qed.

End WSFacts.

Module WSBroadcast.
Import WebSocketManager.

Lemma send_each_app (l1 l2 : list string) (message : dict) (n : nat) (m : t) (w : World) :
  send_each (l1 ++ l2) message n m w
  = let '(n1, m1, w1) := send_each l1 message n m w in send_each l2 message n1 m1 w1.
Proof.
  revert n m w. induction l1 as [|j l1 IH]; intros n m w; simpl.
  - by destruct (send_each l2 message n m w) as [[? ?] ?].
  - destruct (_send_to_connection j message m w) as [[ok m1] w1]. apply IH.
Qed.

(** A send on a healthy transport. *)
Lemma send_healthy (j : string) (conn : WebSocketConnection) (message : dict)
    (m : t) (w : World) :
  connections m !! j = Some conn → healthy w (websocket conn) →
  ∃ w', _send_to_connection j message m w = (true, m, w')
        ∧ delivered_once w w' (websocket conn) (frame_for message (wall w (ticks w)) j)
        ∧ ∀ ws, ws ≠ websocket conn → sockets w' !! ws = sockets w !! ws.
Proof.
  intros Hj (k & Hk & Hb & Ha). unfold _send_to_connection. rewrite Hj. simpl.
  unfold send_text. simpl. rewrite Hk, Hb, Ha. simpl.
  eexists. split; [reflexivity|]. split.
  - exists k. split; [done|]. simpl. rewrite lookup_insert_eq.
    rewrite Hb, Ha. done.
  - intros ws Hne. simpl. by rewrite lookup_insert_ne.
Qed.

(** A send on a transport that raises: the connection is disconnected. *)
Lemma send_broken (k : string) (conn : WebSocketConnection) (message : dict)
    (m : t) (w : World) :
  connections m !! k = Some conn → send_fails w (websocket conn) →
  ∃ w', _send_to_connection k message m w = (false, disconnect k m, w')
        ∧ failed_once w w' (websocket conn)
        ∧ ∀ ws, ws ≠ websocket conn → sockets w' !! ws = sockets w !! ws.
Proof.
  intros Hj (sk & Hk & Hb). unfold _send_to_connection. rewrite Hj. simpl.
  unfold send_text. simpl. rewrite Hk, Hb. simpl.
  eexists. split; [reflexivity|]. split.
  - exists sk. split; [done|]. simpl. rewrite lookup_insert_eq, ?Hb. done.
  - intros ws Hne. simpl. by rewrite lookup_insert_ne.
Qed.

(** The loop over members that are all live and healthy. *)
Lemma send_each_healthy (l : list string) (message : dict) (n : nat) (m : t) (w : World) :
  NoDup l →
  (∀ c1 c2 k1 k2, connections m !! c1 = Some k1 → connections m !! c2 = Some k2 →
                  websocket k1 = websocket k2 → c1 = c2) →
  (∀ j, j ∈ l → ∃ conn, connections m !! j = Some conn ∧ healthy w (websocket conn)) →
  ∃ w', send_each l message n m w = ((n + length l)%nat, m, w')
        ∧ (∀ j conn, j ∈ l → connections m !! j = Some conn →
             ∃ t, delivered_once w w' (websocket conn) (frame_for message t j))
        ∧ (∀ ws, (∀ j conn, j ∈ l → connections m !! j = Some conn →
                            websocket conn ≠ ws) →
                 sockets w' !! ws = sockets w !! ws).
Proof.
  intros Hnd Hinj. revert n w Hnd.
  induction l as [|j l IH]; intros n w Hnd Hall; simpl.
  - exists w. split; [f_equal; f_equal; lia|]. split; [set_solver|done].
  - apply NoDup_cons in Hnd as [Hj Hnd].
    destruct (Hall j) as (conn & Hc & Hh); [set_solver|].
    destruct (send_healthy j conn message m w Hc Hh) as (w1 & -> & Hd & Hoth).
    destruct (IH (S n) w1 Hnd) as (w' & E & Hdel & Hrest).
    { intros j' Hj'. destruct (Hall j') as (conn' & Hc' & k' & Hk' & Hb' & Ha');
        [set_solver|].
      exists conn'. split; [done|]. exists k'. split; [|done].
      rewrite Hoth; [done|]. intros Heq. assert (j' = j) by eauto. set_solver. }
    exists w'. split; [rewrite E; f_equal; f_equal; lia|]. split.
    + intros j' conn' Hin Hc'. apply elem_of_cons in Hin as [->|Hin].
      * simplify_eq. exists (wall w (ticks w)).
        destruct Hd as (k & Hk & Hk1). exists k. split; [done|].
        rewrite Hrest; [done|]. intros j2 c2 Hj2 Hc2 Heq.
        assert (j2 = j) by eauto. set_solver.
      * destruct (Hdel j' conn' Hin Hc') as (t & k & Hk & Hk').
        exists t, k. split; [|done]. rewrite <- Hk. symmetry. apply Hoth.
        intros Heq. assert (j' = j) by eauto. set_solver.
    + intros ws Hws. rewrite Hrest.
      * apply Hoth. intros ->. eapply (Hws j conn); [set_solver|done|done].
      * intros j2 c2 Hj2. apply Hws. set_solver.
Qed.

End WSBroadcast.

(** C4.  One broadcast to the [N] members of a topic of a well-kept
    registry, where the transport of exactly one member [k] raises on send
    and the others are healthy: the count of successes is [N - 1]; every other
    member stays connected and subscribed and receives the frame of the
    message exactly once, in one send; [k] is sent to once, receives nothing,
    and is the only connection removed, from the connections, from every
    topic and from every user's list. *)
Theorem C4_broadcast_isolates_the_failing_member
    (topic : string) (message : dict) (m : WebSocketManager.t) (w : World)
    (ids : gset string) (k : string) (connk : WebSocketManager.WebSocketConnection) :
  registry_ok m →
  WebSocketManager.subscriptions m !! topic = Some ids →
  k ∈ ids →
  WebSocketManager.connections m !! k = Some connk →
  send_fails w (WebSocketManager.websocket connk) →
  (∀ j conn, j ∈ ids → j ≠ k → WebSocketManager.connections m !! j = Some conn →
             healthy w (WebSocketManager.websocket conn)) →
  ∃ m' w',
    WebSocketManager.broadcast_to_topic topic message m w = ((size ids - 1)%nat, m', w')
    ∧ (∀ j conn, j ∈ ids → j ≠ k → WebSocketManager.connections m !! j = Some conn →
         WebSocketManager.connections m' !! j = Some conn
         ∧ (∃ ids', WebSocketManager.subscriptions m' !! topic = Some ids' ∧ j ∈ ids')
         ∧ ∃ t, delivered_once w w' (WebSocketManager.websocket conn)
                  (frame_for message t j))
    ∧ failed_once w w' (WebSocketManager.websocket connk)
    ∧ WebSocketManager.connections m' = delete k (WebSocketManager.connections m)
    ∧ (∀ topic' ids', WebSocketManager.subscriptions m' !! topic' = Some ids' → k ∉ ids')
    ∧ (∀ u ids', WebSocketManager.user_connections m' !! u = Some ids' → k ∉ ids').
Proof.
  intros Hok Hsub Hk Hck Hfail Hothers.
  pose proof Hok as (Hreg & _ & Hinj).
  unfold WebSocketManager.broadcast_to_topic. rewrite Hsub.
  assert (Hkl : k ∈ elements ids) by (by apply elem_of_elements).
  apply list_elem_of_split in Hkl as (l1 & l2 & Hl).
  pose proof (NoDup_elements ids) as Hnd. rewrite Hl in Hnd.
  apply NoDup_app in Hnd as (Hnd1 & Hk1 & Hnd2).
  apply NoDup_cons in Hnd2 as (Hk2 & Hnd2).
  assert (Hin : ∀ j, j ∈ l1 ∨ j ∈ l2 → j ∈ ids ∧ j ≠ k).
  { intros j Hj. split.
    - apply elem_of_elements. rewrite Hl. set_solver.
    - intros ->. destruct Hj as [Hj|Hj]; [|done]. apply (Hk1 k Hj). set_solver. }
  assert (Hlive : ∀ j, j ∈ l1 ∨ j ∈ l2 →
            ∃ conn, WebSocketManager.connections m !! j = Some conn
                    ∧ healthy w (WebSocketManager.websocket conn)).
  { intros j Hj. destruct (Hin j Hj) as [Hji Hjk].
    destruct (Hreg _ _ _ Hsub Hji) as (conn & Hc & _). eauto. }
  rewrite Hl, WSBroadcast.send_each_app.
  destruct (WSBroadcast.send_each_healthy l1 message 0 m w Hnd1 Hinj)
    as (w1 & -> & Hdel1 & Hrest1); [by auto|].
  cbn [WebSocketManager.send_each].
  assert (Hws1 : sockets w1 !! WebSocketManager.websocket connk
                 = sockets w !! WebSocketManager.websocket connk).
  { apply Hrest1. intros j conn Hj Hc Heq. destruct (Hin j (or_introl Hj)) as [_ Hne].
    apply Hne. eauto. }
  destruct (WSBroadcast.send_broken k connk message m w1 Hck) as (w2 & -> & Hf2 & Hoth2).
  { destruct Hfail as (sk & Hsk & Hb). exists sk. by rewrite Hws1. }
  set (m1 := WebSocketManager.disconnect k m).
  destruct (WSFacts.disconnect_live k connk m Hck) as (Hc1 & _ & _). fold m1 in Hc1.
  destruct (WSFacts.disconnect_prunes k connk m Hok Hck) as (Hp1 & Hp2 & Hp3).
  fold m1 in Hp1, Hp2, Hp3.
  assert (Hconn1 : ∀ j, j ≠ k →
            WebSocketManager.connections m1 !! j = WebSocketManager.connections m !! j).
  { intros j Hne. rewrite Hc1. by apply lookup_delete_ne. }
  destruct (WSBroadcast.send_each_healthy l2 message (0 + length l1) m1 w2 Hnd2)
    as (w3 & -> & Hdel3 & Hrest3).
  { pose proof (WSFacts.disconnect_registry_ok k m Hok) as (_ & _ & Hinj1). exact Hinj1. }
  { intros j Hj. destruct (Hin j (or_intror Hj)) as [_ Hne].
    destruct (Hlive j (or_intror Hj)) as (conn & Hc & sk & Hsk & Hb & Ha).
    exists conn. rewrite Hconn1 by done. split; [done|]. exists sk. split; [|done].
    rewrite Hoth2 by (intros Heq; apply Hne; eauto).
    rewrite Hrest1; [done|]. intros j' c' Hj' Hc' Heq.
    assert (j' = j) by eauto. subst j'. by apply (Hk1 j Hj'); right. }
  exists m1, w3. split; [|split; [|split; [|split; [|split]]]].
  - f_equal. f_equal. change (size ids) with (length (elements ids)).
    rewrite Hl, length_app. simpl. lia.
  - intros j conn Hji Hjk Hc.
    split; [by rewrite Hconn1|]. split; [apply Hp3; eauto|].
    assert (Hjl : j ∈ l1 ∨ j ∈ l2).
    { apply elem_of_elements in Hji. rewrite Hl in Hji. set_solver. }
    destruct Hjl as [Hj|Hj].
    + destruct (Hdel1 j conn Hj Hc) as (t & sk & Hsk & Hsk1).
      exists t, sk. split; [done|]. rewrite <- Hsk1.
      rewrite Hrest3.
      * apply Hoth2. intros Heq. apply Hjk. eauto.
      * intros j' c' Hj' Hc' Heq. rewrite Hconn1 in Hc' by (by apply Hin; right).
        assert (j' = j) by eauto. subst j'. by apply (Hk1 j Hj); right.
    + destruct (Hdel3 j conn Hj) as (t & sk & Hsk & Hsk3); [by rewrite Hconn1|].
      exists t, sk. split; [|done]. rewrite <- Hsk.
      rewrite Hoth2 by (intros Heq; apply Hjk; eauto).
      symmetry. apply Hrest1. intros j' c' Hj' Hc' Heq.
      assert (j' = j) by eauto. subst j'. by apply (Hk1 j Hj'); right.
  - destruct Hf2 as (sk & Hsk & Hsk2). exists sk. split; [by rewrite <- Hws1|].
    rewrite <- Hsk2. apply Hrest3. intros j c Hj Hc Heq.
    rewrite Hconn1 in Hc by (by apply Hin; right).
    destruct (Hin j (or_intror Hj)) as [_ Hne]. apply Hne. eauto.
  - done.
  - done.
  - done.
Qed.

(** ** [ConnectionManager] over healthy transports *)

Module CMHealthy.
Import ConnectionManager.

Lemma received_delivered w w' ws f :
  delivered_once w w' ws f → received w' ws = (received w ws ++ [f])%list.
Proof. intros (k & Hk & Hk'). unfold received. by rewrite Hk, Hk'. Qed.

(** One send to an active connection. *)
Lemma send_active fuel (msg : WebSocketMessage) (c : string) (ws : nat)
    (m : t) (w : World) :
  connections_healthy m w → active_connections m !! c = Some ws →
  ∃ m' w',
    send_personal_message (S fuel) msg c m w = Some (m', w')
    ∧ active_connections m' = active_connections m
    ∧ connection_groups m' = connection_groups m
    ∧ recent_messages m' = recent_messages m
    ∧ max_history m' = max_history m
    ∧ delivered_once w w' ws (to_json msg)
    ∧ (∀ ws', ws' ≠ ws → sockets w' !! ws' = sockets w !! ws').
Proof.
  intros [Hh Hinj] Hc. destruct (Hh c ws Hc) as (k & Hk & Hst & Hb & Ha).
  simpl. rewrite Hc, Hk. rewrite decide_True by done.
  unfold send_text. rewrite Hk, Hb, Ha. simpl.
  destruct (connection_metadata m !! c) as [md|]; simpl.
  - eexists _, _. split; [reflexivity|]. simpl.
    do 4 (split; [done|]). split.
    + exists k. split; [done|]. simpl. rewrite lookup_insert_eq, Hb, Ha. done.
    + intros ws' Hne. simpl. by rewrite lookup_insert_ne.
  - eexists _, _. split; [reflexivity|]. simpl.
    do 4 (split; [done|]). split.
    + exists k. split; [done|]. simpl. rewrite lookup_insert_eq, Hb, Ha. done.
    + intros ws' Hne. simpl. by rewrite lookup_insert_ne.
Qed.

Lemma healthy_after m m' w w' ws f :
  connections_healthy m w →
  active_connections m' = active_connections m →
  delivered_once w w' ws f →
  (∀ ws', ws' ≠ ws → sockets w' !! ws' = sockets w !! ws') →
  connections_healthy m' w'.
Proof.
  intros [Hh Hinj] Ha (k & Hk & Hk') Hoth. split.
  - intros c ws0 Hc. rewrite Ha in Hc. destruct (Hh c ws0 Hc) as (k0 & Hk0 & ? & ? & ?).
    destruct (decide (ws0 = ws)) as [->|Hne].
    + simplify_eq. eexists. split; [exact Hk'|]. done.
    + exists k0. rewrite Hoth by done. done.
  - intros c1 c2 ws0. rewrite Ha. apply Hinj.
Qed.

(** The loop of [broadcast_to_group]: every listed active connection
    receives the frame once, nothing else changes. *)
Lemma send_list fuel (msg : WebSocketMessage) (l : list string) (m : t) (w : World) :
  NoDup l → connections_healthy m w →
  ∃ m' w',
    foldl (fun st c => '(m, w) ← st; send_personal_message (S fuel) msg c m w)
          (Some (m, w)) l = Some (m', w')
    ∧ active_connections m' = active_connections m
    ∧ connection_groups m' = connection_groups m
    ∧ recent_messages m' = recent_messages m
    ∧ max_history m' = max_history m
    ∧ connections_healthy m' w'
    ∧ (∀ c ws, active_connections m !! c = Some ws →
         if decide (c ∈ l) then delivered_once w w' ws (to_json msg)
         else sockets w' !! ws = sockets w !! ws).
Proof.
  intros Hnd. revert m w. induction Hnd as [|c l Hc Hnd IH]; intros m w Hh.
  - exists m, w. do 5 (split; [done|]). split; [done|].
    intros c ws _. destruct (decide (c ∈ [])); [set_solver|done].
  - cbn [foldl]. cbn [mbind option_bind].
    destruct (active_connections m !! c) as [ws|] eqn:Ec.
    + destruct (send_active fuel msg c ws m w Hh Ec)
        as (m1 & w1 & E1 & Ha1 & Hg1 & Hr1 & Hx1 & Hd1 & Ho1).
      rewrite E1.
      pose proof (healthy_after _ _ _ _ _ _ Hh Ha1 Hd1 Ho1) as Hh1.
      destruct (IH m1 w1 Hh1) as (m' & w' & E & Ha & Hg & Hr & Hx & Hh' & Hall).
      exists m', w'. split; [exact E|].
      split; [congruence|]. split; [congruence|]. split; [congruence|].
      split; [congruence|]. split; [done|].
      intros c0 ws0 Hc0. destruct (decide (c0 = c)) as [->|Hne].
      * rewrite decide_True by set_solver.
        assert (ws0 = ws) by congruence. subst ws0.
        specialize (Hall c ws). rewrite Ha1 in Hall. specialize (Hall Ec).
        rewrite decide_False in Hall by done.
        destruct Hd1 as (k & Hk & Hk1). exists k. split; [done|]. by rewrite Hall.
      * specialize (Hall c0 ws0). rewrite Ha1 in Hall. specialize (Hall Hc0).
        assert (Hws : ws0 ≠ ws).
        { intros ->. apply Hne. destruct Hh as [_ Hinj]. eauto. }
        destruct (decide (c0 ∈ l)).
        -- rewrite decide_True by set_solver.
           destruct Hall as (k & Hk & Hk'). exists k. split; [|done].
           rewrite <- Hk. symmetry. by apply Ho1.
        -- rewrite decide_False by set_solver. rewrite Hall. by apply Ho1.
    + assert (E1 : send_personal_message (S fuel) msg c m w = Some (m, w)).
      { simpl. by rewrite Ec. }
      rewrite E1.
      destruct (IH m w Hh) as (m' & w' & E & Ha & Hg & Hr & Hx & Hh' & Hall).
      exists m', w'. split; [exact E|]. do 5 (split; [done|]).
      intros c0 ws0 Hc0. specialize (Hall c0 ws0 Hc0).
      destruct (decide (c0 = c)) as [->|Hne]; [congruence|].
      destruct (decide (c0 ∈ l)).
      * rewrite decide_True by set_solver. done.
      * rewrite decide_False by set_solver. done.
Qed.

(** A broadcast over healthy transports. *)
Lemma broadcast_healthy fuel (g : string) (msg : WebSocketMessage)
    (ex : list string) (m : t) (w : World) :
  connections_healthy m w →
  ∃ m' w',
    broadcast_to_group (S (S fuel)) g msg ex m w = Some (m', w')
    ∧ active_connections m' = active_connections m
    ∧ connection_groups m' = connection_groups m
    ∧ connections_healthy m' w'
    ∧ (∀ c ws, active_connections m !! c = Some ws →
         if decide (c ∈ targets g ex m) then delivered_once w w' ws (to_json msg)
         else sockets w' !! ws = sockets w !! ws).
Proof.
  intros Hh. unfold targets.
  change (broadcast_to_group (S (S fuel)) g msg ex m w)
    with (match connection_groups m !! g with
          | None => Some (m, w)
          | Some members =>
              let connections_to_notify := members ∖ list_to_set ex in
              if decide (connections_to_notify = ∅) then Some (m, w)
              else
                let m := _add_to_history msg m in
                foldl (fun st connection_id =>
                         '(m, w) ← st;
                         send_personal_message (S fuel) msg connection_id m w)
                      (Some (m, w)) (elements connections_to_notify)
          end).
  destruct (connection_groups m !! g) as [members|].
  2:{ exists m, w. do 4 (split; [done|]).
      intros c ws _. rewrite decide_False by set_solver. done. }
  cbn zeta. destruct (decide (members ∖ list_to_set ex = ∅)) as [He|Hne].
  { exists m, w. do 4 (split; [done|]).
    intros c ws _. rewrite He. rewrite decide_False by set_solver. done. }
  assert (Hh0 : connections_healthy (_add_to_history msg m) w).
  { unfold _add_to_history. destruct (bool_decide _); exact Hh. }
  destruct (send_list fuel msg (elements (members ∖ list_to_set ex))
              (_add_to_history msg m) w (NoDup_elements _) Hh0)
    as (m' & w' & E & Ha & Hg & _ & _ & Hh' & Hall).
  assert (Ha0 : active_connections (_add_to_history msg m) = active_connections m).
  { unfold _add_to_history. by destruct (bool_decide _). }
  assert (Hg0 : connection_groups (_add_to_history msg m) = connection_groups m).
  { unfold _add_to_history. by destruct (bool_decide _). }
  exists m', w'. split; [exact E|]. split; [congruence|]. split; [congruence|].
  split; [done|]. intros c ws Hc. rewrite <- Ha0 in Hc. specialize (Hall c ws Hc).
  destruct (decide (c ∈ elements (members ∖ list_to_set ex))) as [Hin|Hin].
  - rewrite decide_True by (by apply elem_of_elements). done.
  - rewrite decide_False by (by rewrite <- elem_of_elements). done.
Qed.

End CMHealthy.

Module CMReplay.
Import ConnectionManager CMHealthy.

(** The loop of [_send_history_to_connection]. *)
Lemma send_history_list fuel (c : string) (ws : nat) (l : list WebSocketMessage)
    (m : t) (w : World) :
  connections_healthy m w → active_connections m !! c = Some ws →
  ∃ m' w',
    foldl (fun st message =>
             '(m, w) ← st;
             send_personal_message (S fuel) (historical message) c m w)
          (Some (m, w)) l = Some (m', w')
    ∧ active_connections m' = active_connections m
    ∧ connection_groups m' = connection_groups m
    ∧ recent_messages m' = recent_messages m
    ∧ max_history m' = max_history m
    ∧ connections_healthy m' w'
    ∧ received w' ws = (received w ws ++ (historical_frame <$> l))%list.
Proof.
  revert m w. induction l as [|x l IH]; intros m w Hh Hc.
  - exists m, w. simpl. rewrite app_nil_r. done.
  - cbn [foldl]. cbn [mbind option_bind].
    destruct (send_active fuel (historical x) c ws m w Hh Hc)
      as (m1 & w1 & E1 & Ha1 & Hg1 & Hr1 & Hx1 & Hd1 & Ho1).
    rewrite E1.
    pose proof (healthy_after _ _ _ _ _ _ Hh Ha1 Hd1 Ho1) as Hh1.
    destruct (IH m1 w1 Hh1) as (m' & w' & E & Ha & Hg & Hr & Hx & Hh' & Hrec);
      [congruence|].
    exists m', w'. split; [exact E|].
    split; [congruence|]. split; [congruence|]. split; [congruence|].
    split; [congruence|]. split; [done|].
    rewrite Hrec, (received_delivered _ _ _ _ Hd1). rewrite fmap_cons.
    rewrite <- app_assoc. done.
Qed.

Lemma send_history fuel (c : string) (ws : nat) (m : t) (w : World) :
  connections_healthy m w → active_connections m !! c = Some ws →
  ∃ m' w',
    _send_history_to_connection (S fuel) c m w = Some (m', w')
    ∧ active_connections m' = active_connections m
    ∧ connection_groups m' = connection_groups m
    ∧ connections_healthy m' w'
    ∧ received w' ws
      = (received w ws ++ (historical_frame <$> py_last 10 (recent_messages m)))%list.
Proof.
  intros Hh Hc. unfold _send_history_to_connection.
  destruct (recent_messages m) as [|x l] eqn:Er.
  - exists m, w. simpl. rewrite app_nil_r. done.
  - destruct (send_history_list fuel c ws (py_last 10 (x :: l)) m w Hh Hc)
      as (m' & w' & E & Ha & Hg & _ & _ & Hh' & Hrec).
    exists m', w'. done.
Qed.

(** Joining groups: the connection is a member of every group joined. *)
Lemma join_groups (c : string) (groups : list string) (G : gmap string (gset string)) :
  ∀ g, (g ∈ groups ∨ ∃ members, G !! g = Some members ∧ c ∈ members) →
       ∃ members,
         foldl (fun g group => <[group := {[c]} ∪ default ∅ (g !! group)]> g) G groups
         !! g = Some members ∧ c ∈ members.
Proof.
  revert G. induction groups as [|x groups IH]; intros G g Hg; simpl.
  - destruct Hg as [Hg|Hg]; [set_solver|done].
  - apply IH. destruct (decide (g = x)) as [->|Hne].
    + right. rewrite lookup_insert_eq. eexists. split; [done|]. set_solver.
    + destruct Hg as [Hg|Hg]; [left; set_solver|].
      right. by rewrite lookup_insert_ne.
Qed.

End CMReplay.


(** * The properties on concrete scenarios *)

(** ** C1: an append while the store does not answer *)

(** C1, as stated, fails: with a store that does not answer, [add_activity]
    does not fail but returns a fresh id, and nothing was written. *)
Lemma C1_counterexample_id_returned_without_write :
  store_unreachable ex_feed_down
  ∧ ∃ m' cm' w',
      add_activity 2 INSIGHT_DISCOVERED "e1" "found" None NORMAL MCP None None None None
        (Some ["rust"]) (Qc_of_Z 1) ex_feed_down None ex_world
      = Some (Ok ex_id_1, m', cm', w')
      ∧ keyspace m' = ∅
      ∧ stored m' ex_id_1 = None.
Proof.
  split; [reflexivity|]. eexists _, _, _. split; [reflexivity|]. split; reflexivity.
Qed.

Lemma C1_witness :
  store_unreachable ex_feed_down
  ∧ ∃ new r m' cm' w',
      add_activity 2 INSIGHT_DISCOVERED "e1" "found" None NORMAL MCP None None None None
        (Some ["rust"]) (Qc_of_Z 1) ex_feed_down None ex_world
      = Some (Ok (id new), m', cm', w')
      ∧ redis m' = redis ex_feed_down
      ∧ head (recent_activities m') = Some r
      ∧ objects m' !! r = Some new
      ∧ type new = INSIGHT_DISCOVERED ∧ title new = "e1" ∧ description new = "found".
Proof.
  split; [reflexivity|].
  apply (C1_append_returns_id_although_store_unreachable 2 INSIGHT_DISCOVERED "e1" "found"
           None NORMAL MCP None None None None (Some ["rust"]) (Qc_of_Z 1)
           ex_feed_down None ex_world).
  - reflexivity.
  - simpl. lia.
  - simpl. lia.
Defined.

(** ** C2: marking an event read *)

(** C2 fails on the code.  [mark_activity_read] does not use its user: it
    sets [read] on the event object shared by the cache and the recent list
    and writes the event back to the store.  After ["alice"] marks the event,
    the listing of ["bob"] and the stored record show it read. *)
Theorem C2_mark_read_sets_the_shared_record :
  let m1 := ex_one_append.1.1 in
  let m2 := (mark_activity_read ex_id_1 "alice" m1).2 in
  (∀ activity_id user user' m,
     mark_activity_read activity_id user m = mark_activity_read activity_id user' m)
  ∧ (mark_activity_read ex_id_1 "alice" m1).1 = true
  ∧ read <$> stored m1 ex_id_1 = Some false
  ∧ read <$> stored m2 ex_id_1 = Some true
  ∧ read <$> (get_activities 1 0 None None None (Some "bob") None None true m1).1 = [false]
  ∧ read <$> (get_activities 1 0 None None None (Some "bob") None None true m2).1 = [true]
  ∧ read <$> (get_activities 5 0 None None None (Some "bob") None None true m2).1 = [true].
Proof.
  split; [reflexivity|]. vm_compute. repeat split; reflexivity.
Qed.

(** ** C3: two appends within one millisecond *)

(** C3, as stated, fails: two events appended within one millisecond have
    the same score, so the index orders them by id; here the event created
    first is returned first although its [created_at] is the smaller one. *)
Lemma C3_counterexample_same_millisecond :
  ∃ a1 a2,
    stored ex_two_appends.1.1 ex_id_1 = Some a1
    ∧ stored ex_two_appends.1.1 ex_id_2 = Some a2
    ∧ range 10 ex_two_appends.1.1 = Ok [id a1; id a2]
    ∧ Z.quot (timestamp a1) 1000 = Z.quot (timestamp a2) 1000
    ∧ timestamp a1 < timestamp a2
    ∧ ¬ created_le a2 a1.
Proof.
  remember (stored ex_two_appends.1.1 ex_id_1) as s1 eqn:H1. vm_compute in H1.
  remember (stored ex_two_appends.1.1 ex_id_2) as s2 eqn:H2. vm_compute in H2.
  remember (range 10 ex_two_appends.1.1) as r eqn:Hr. vm_compute in Hr.
  subst s1 s2 r.
  eexists _, _. split; [reflexivity|]. split; [reflexivity|].
  split; [reflexivity|]. split; [reflexivity|]. split; [reflexivity|].
  unfold created_le. cbn [timestamp]. intros [H|[H _]]; discriminate H.
Qed.

Lemma ex_feed_up_inv : store_inv ex_feed_up.
Proof.
  split; [|split; [|split]].
  - eexists. split; reflexivity.
  - exact I.
  - intros sc i a Hin. unfold index in Hin. simpl in Hin. by apply elem_of_nil in Hin.
  - reflexivity.
Defined.

Lemma C3_witness :
  store_reachable ex_feed_up
  ∧ ∃ m' cm' w',
      appends 2 [ex_call "e1"; ex_call "e2"] (ex_feed_up, None, ex_world) = Some (m', cm', w')
      ∧ ∀ N, ∃ entries,
          range N m' = Ok entries.*2
          ∧ (0 ≤ N → entries = take (Z.to_nat (N + 1)) (reverse (index m')))
          ∧ StronglySorted (fun x y => key_le y x ∧ x ≠ y) entries
          ∧ (∀ sc i a, (sc, i) ∈ entries → stored m' i = Some a →
                       sc = Z.quot (timestamp a) 1000).
Proof.
  destruct ex_feed_up_inv as (H1 & H2 & H3 & H4).
  split; [exact H1|].
  apply (C3_range_ordered_by_millisecond_score_then_id 2 [ex_call "e1"; ex_call "e2"]
           ex_feed_up None ex_world H1 H2 H3 H4).
  simpl. lia.
Defined.

(** ** C4: three subscribers, one failing *)

Lemma ex_registry_ok : registry_ok ex_registry.
Proof.
  split; [|split].
  - intros topic ids c Hl Hin. simpl in Hl.
    apply lookup_insert_Some in Hl as [[<- <-]|[_ Hl]]; [|by rewrite lookup_empty in Hl].
    apply elem_of_union in Hin as [Hin|Hin%elem_of_singleton];
      [apply elem_of_union in Hin as [Hin%elem_of_singleton|Hin%elem_of_singleton]|];
      subst c; eexists; (split; [reflexivity|]); simpl; set_solver.
  - intros u ids c Hl. simpl in Hl. by rewrite lookup_empty in Hl.
  - intros c1 c2 k1 k2 H1 H2 Heq. simpl in H1, H2.
    repeat (apply lookup_insert_Some in H1 as [[<- <-]|[? H1]]);
      try (by rewrite lookup_empty in H1);
      repeat (apply lookup_insert_Some in H2 as [[<- <-]|[? H2]]);
      try (by rewrite lookup_empty in H2); try done.
Defined.

Lemma C4_witness :
  registry_ok ex_registry
  ∧ send_fails ex_registry_world 2
  ∧ ∃ m' w',
      WebSocketManager.broadcast_to_topic "activity_feed" [("type", JStr "new_activity")]
        ex_registry ex_registry_world = (2%nat, m', w')
      ∧ failed_once ex_registry_world w' 2
      ∧ WebSocketManager.connections m'
        = delete "b" (WebSocketManager.connections ex_registry).
Proof.
  split; [exact ex_registry_ok|].
  assert (Hf : send_fails ex_registry_world 2).
  { eexists. split; reflexivity. }
  split; [exact Hf|].
  destruct (C4_broadcast_isolates_the_failing_member "activity_feed"
              [("type", JStr "new_activity")] ex_registry ex_registry_world
              {["a"; "b"; "c"]} "b" (ex_conn "b" 2))
    as (m' & w' & E & _ & Hfail & Hconn & _).
  - exact ex_registry_ok.
  - reflexivity.
  - set_solver.
  - reflexivity.
  - exact Hf.
  - intros j conn Hin Hne Hc.
    apply elem_of_union in Hin as [Hin|Hin%elem_of_singleton];
      [apply elem_of_union in Hin as [Hin%elem_of_singleton|Hin%elem_of_singleton]|];
      subst j; try done; vm_compute in Hc; injection Hc as <-;
      eexists; (split; [reflexivity|]); split; reflexivity.
  - exists m', w'. split; [exact E|]. split; [exact Hfail|exact Hconn].
Defined.

(** ** C5: replay after events nobody listened to *)



(** ** C6, C7, C9 on the scenarios *)


Lemma C7_witness :
  store_reachable ex_one_append.1.1
  ∧ event_exists ex_id_1 ex_one_append.1.1
  ∧ is_bookmarked "alice" ex_id_1 (bookmark_activity ex_id_1 "alice" ex_one_append.1.1).2
    = negb (is_bookmarked "alice" ex_id_1 ex_one_append.1.1)
  ∧ is_bookmarked "alice" ex_id_1
      (bookmark_activity ex_id_1 "alice"
         (bookmark_activity ex_id_1 "alice" ex_one_append.1.1).2).2
    = is_bookmarked "alice" ex_id_1 ex_one_append.1.1.
Proof.
  assert (H1 : store_reachable ex_one_append.1.1).
  { eexists. split; [vm_compute; reflexivity|reflexivity]. }
  assert (H2 : event_exists ex_id_1 ex_one_append.1.1).
  { eexists _, _. split; [vm_compute; reflexivity|vm_compute; reflexivity]. }
  split; [exact H1|]. split; [exact H2|].
  destruct (C7_toggle_bookmark_twice_is_identity ex_id_1 "alice" ex_one_append.1.1 H1 H2)
    as (_ & _ & Hflip & Hback).
  split; [exact Hflip|exact Hback].
Defined.

Lemma C9_witness :
  "alice" ≠ ""
  ∧ _filter_activities (fun a => a)
      [ex_event "e1" None 10; ex_event "e2" (Some "bob") 20; ex_event "e3" (Some "alice") 30]
      None None None (Some "alice") None None true
    = filter (fun a => user_id a = None ∨ user_id a = Some "alice")
        (_filter_activities (fun a => a)
           [ex_event "e1" None 10; ex_event "e2" (Some "bob") 20;
            ex_event "e3" (Some "alice") 30]
           None None None None None None true).
Proof.
  assert (H : "alice" ≠ "") by discriminate.
  split; [exact H|].
  apply (C9_user_filter_keeps_events_without_user
           [ex_event "e1" None 10; ex_event "e2" (Some "bob") 20;
            ex_event "e3" (Some "alice") 30]
           None None None "alice" None None true H).
Defined.

(** * Further properties of the code *)

Import ActivityFeedManager.

(** ** The in-memory lists of [ActivityFeedManager] *)

(** Store writes touch only the [redis] field of the manager. *)
Lemma _add_to_sorted_list_with_redis (a : ActivityItem) (m : t) :
  ∃ c, _add_to_sorted_list a m = with_redis m c.
Proof.
  unfold _add_to_sorted_list.
  destruct (RedisClient.call (redis m) _) as [[? c1]|]; [|exists (redis m); by destruct m].
  destruct (RedisClient.call c1 _) as [[? c2]|]; [|by eauto].
  destruct (RedisClient.call c2 _) as [[? c3]|]; eauto.
Qed.

Lemma _save_activity_to_redis_with_redis (a : ActivityItem) (m : t) :
  ∃ c, _save_activity_to_redis a m = with_redis m c.
Proof.
  unfold _save_activity_to_redis.
  destruct (RedisClient.set _ _ _ _) as [b c].
  destruct (_add_to_sorted_list_with_redis a (with_redis m c)) as [c' ->]. by exists c'.
Qed.

Lemma _update_activity_stats_with_redis (a : ActivityItem) (m : t) :
  ∃ c, _update_activity_stats a m = with_redis m c.
Proof.
  unfold _update_activity_stats.
  destruct (match RedisClient.get stats_key (redis m) with
            | Some p => if payload_truthy p then p else Redis.PStats ∅ None
            | None => Redis.PStats ∅ None
            end); try (exists (redis m); by destruct m).
  destruct (RedisClient.set _ _ _ _) as [b c]. by exists c.
Qed.

(** What [add_activity] does to the objects, the recent list and the
    cache, whatever the store and the broadcasts do. *)
Lemma add_activity_memory fuel a_type a_title a_description a_details a_priority a_source
    a_user a_source_name a_url a_tags a_areas a_score
    (m : t) (cm : option ConnectionManager.t) (w : World) r m' cm' w' :
  add_activity fuel a_type a_title a_description a_details a_priority a_source a_user
    a_source_name a_url a_tags a_areas a_score m cm w = Some (r, m', cm', w') →
  ∃ new,
    r = Ok (id new)
    ∧ new = mkActivity (id new) a_type a_priority a_source a_title a_description
              (default [] a_details) (timestamp new) a_user a_source_name a_url
              (default [] a_tags) (default [] a_areas) a_score false false
    ∧ objects m' = (objects m ++ [new])%list
    ∧ max_activities m' = max_activities m
    ∧ recent_activities m'
      = (if bool_decide (max_activities m < S (length (recent_activities m)))%nat
         then removelast (length (objects m) :: recent_activities m)
         else length (objects m) :: recent_activities m)
    ∧ (∀ r0, activity_cache m' !! id new = Some r0 → r0 = length (objects m))
    ∧ (∀ i r0, i ≠ id new → activity_cache m' !! i = Some r0 →
               activity_cache m !! i = Some r0)
    ∧ ∃ m2 x, redis m2 = redis m
              ∧ max_activities_redis m2 = max_activities_redis m
              ∧ m' = _update_activity_stats new
                       (with_websocket_manager (_save_activity_to_redis new m2) x).
Proof.
  unfold add_activity.
  destruct (time_ms w) as [ms w1]. destruct (uuid4 w1) as [u w2].
  destruct (now w2) as [ts w3].
  set (new := mkActivity _ _ _ _ _ _ _ _ _ _ _ _ _ _ _ _).
  unfold alloc. cbn beta iota.
  set (m1 := with_cache _ _).
  set (m2 := if bool_decide _ then _ else m1).
  assert (H1 : objects m1 = (objects m ++ [new])%list
               ∧ recent_activities m1 = length (objects m) :: recent_activities m
               ∧ activity_cache m1 = <[id new := length (objects m)]> (activity_cache m)
               ∧ redis m1 = redis m ∧ max_activities m1 = max_activities m) by done.
  destruct H1 as (Ho1 & Hr1 & Hc1 & Hd1 & Hm1).
  assert (H2 : (redis m2 = redis m ∧ max_activities_redis m2 = max_activities_redis m)
               ∧ objects m2 = (objects m ++ [new])%list
               ∧ max_activities m2 = max_activities m
               ∧ recent_activities m2
                 = (if bool_decide (max_activities m < S (length (recent_activities m)))%nat
                    then removelast (length (objects m) :: recent_activities m)
                    else length (objects m) :: recent_activities m)
               ∧ (activity_cache m2 = activity_cache m1
                  ∨ ∃ k, activity_cache m2 = delete k (activity_cache m1))).
  { subst m2. rewrite Hr1, Hm1. cbn [length].
    destruct (bool_decide (max_activities m < S (length (recent_activities m)))%nat).
    - destruct (list.last (length (objects m) :: recent_activities m)) as [removed|] eqn:El.
      + destruct (objects _ !! removed);
          (split; [done|]; split; [done|]; split; [done|]; split; [done|]).
        * right. eexists. reflexivity.
        * by left.
      + exfalso. by apply last_None in El.
    - split; [done|]. split; [done|]. split; [done|]. split; [done|]. by left. }
  destruct H2 as ((Hd2 & Hn2) & Ho2 & Hm2 & Hr2 & Hc2).
  destruct (_broadcast_activity fuel new (_save_activity_to_redis new m2) cm w3)
    as [[[mb cmb] wb]|] eqn:Eb; [|done].
  unfold mbind, option_bind. cbn beta iota. intros [= <- <- <- <-].
  assert (Hx : ∃ x, mb = with_websocket_manager (_save_activity_to_redis new m2) x).
  { unfold _broadcast_activity in Eb.
    set (st := match websocket_manager _ with Some _ => _ | None => _ end) in Eb.
    assert (Hst : ∃ x w1, st = (with_websocket_manager (_save_activity_to_redis new m2) x, w1)).
    { subst st. destruct (websocket_manager _) as [wsm|] eqn:E.
      - destruct (WebSocketManager.broadcast_to_topic _ _ _ _) as [[n wsm'] w0]. eauto.
      - exists None, w3. f_equal. destruct (_save_activity_to_redis new m2); simpl in *.
        by subst. }
    destruct Hst as (x & w0 & Hst). rewrite Hst in Eb. exists x.
    destruct cm as [c|]; [|by simplify_eq].
    destruct (ConnectionManager.new_message _ _ _ _ _ w0) as [msg w4].
    destruct (ConnectionManager.broadcast_to_group fuel "dashboard" msg [] c w4)
      as [[c1 w5]|]; [|done].
    simpl in Eb.
    destruct (ConnectionManager.broadcast_to_group fuel "notifications" msg [] c1 w5)
      as [[c2 w6]|]; [|done].
    simpl in Eb. by simplify_eq. }
  destruct Hx as [x ->].
  destruct (_save_activity_to_redis_with_redis new m2) as [c1 Hs].
  destruct (_update_activity_stats_with_redis new
              (with_websocket_manager (_save_activity_to_redis new m2) x)) as [c2 Hu].
  set (mf := _update_activity_stats new _) in *.
  assert (Hf : objects mf = objects m2 ∧ max_activities mf = max_activities m2
               ∧ recent_activities mf = recent_activities m2
               ∧ activity_cache mf = activity_cache m2).
  { rewrite Hu, Hs. done. }
  destruct Hf as (-> & -> & -> & Hcf).
  exists new. split; [done|]. split; [done|].
  split; [done|]. split; [done|]. split; [done|]. rewrite Hcf. split; [|split].
  - intros r0 Hl. destruct Hc2 as [Hc2|[k Hc2]]; rewrite Hc2, Hc1 in Hl.
    + rewrite lookup_insert_eq in Hl. congruence.
    + apply lookup_delete_Some in Hl as [_ Hl]. rewrite lookup_insert_eq in Hl. congruence.
  - intros i r0 Hi Hl. destruct Hc2 as [Hc2|[k Hc2]]; rewrite Hc2, Hc1 in Hl.
    + by rewrite lookup_insert_ne in Hl.
    + apply lookup_delete_Some in Hl as [_ Hl]. by rewrite lookup_insert_ne in Hl.
  - exists m2, x. done.
Qed.


(** Reading an event that is not cached from a store that answers. *)
Lemma get_activity_by_id_from_store (i : string) (a : ActivityItem) (m : t) :
  activity_cache m !! i = None → store_reachable m → stored m i = Some a →
  get_activity_by_id i m
  = (Some (length (objects m)), with_objects m (objects m ++ [a])%list).
Proof.
  intros Hc (s & Hs & Hup) Hst. unfold get_activity_by_id. rewrite Hc.
  destruct (redis m) as [o b] eqn:Hr. simpl in Hs. subst o.
  rewrite (get_reachable s b Hup).
  unfold stored, keyspace in Hst. rewrite Hr in Hst. simpl in Hst.
  destruct (Redis.db s !! data_key i) as [[[p|z] ttl]|]; simpl in Hst; try done.
  destruct p; simplify_eq. done.
Qed.

(** X2.  Round trip: after an append to a store that answers, fetching
    the returned id gives the event that was appended, with the fields
    given to the append and both flags false; the same holds after
    [cleanup], when the event is read back from the store. *)
Theorem X2_append_then_get_returns_the_event
    fuel a_type a_title a_description a_details a_priority a_source
    a_user a_source_name a_url a_tags a_areas a_score
    (m : t) (cm : option ConnectionManager.t) (w : World) i m' cm' w' :
  add_activity fuel a_type a_title a_description a_details a_priority a_source a_user
    a_source_name a_url a_tags a_areas a_score m cm w = Some (Ok i, m', cm', w') →
  store_reachable m → index_ok m → 0 < max_activities_redis m →
  ∀ mm, mm = m' ∨ mm = cleanup m' →
    ∃ r a,
      (get_activity_by_id i mm).1 = Some r
      ∧ objects (get_activity_by_id i mm).2 !! r = Some a
      ∧ a = mkActivity i a_type a_priority a_source a_title a_description
              (default [] a_details) (timestamp a) a_user a_source_name a_url
              (default [] a_tags) (default [] a_areas) a_score false false.
Proof.
  intros Hadd (s & Hs & Hup) Hok Hn mm Hmm.
  destruct (add_activity_memory _ _ _ _ _ _ _ _ _ _ _ _ _ _ _ _ _ _ _ _ Hadd)
    as (new & [= Hi] & Hnew & Ho & _ & _ & Hc & _ & m2 & x & Hr2 & Hn2 & Hm').
  rewrite <- Hi in Hc, Hnew.
  destruct (redis m) as [o b] eqn:Hrm. simpl in Hs. subst o.
  assert (Hz : Redis.zset_at s list_key = Ok (index m)).
  { unfold index_ok, index, keyspace, Redis.zset_at in *. rewrite Hrm in *. simpl in *.
    destruct (Redis.db s !! list_key) as [[[p|z] t]|]; simpl in *; done. }
  pose proof (_save_activity_to_redis_reachable new m2 s b (index m) Hr2 Hup Hz) as Hsave.
  rewrite Hn2 in Hsave. specialize (Hsave Hn).
  pose proof (_update_activity_stats_fields new
                (with_websocket_manager (_save_activity_to_redis new m2) x))
    as (_ & _ & Hf3).
  rewrite <- Hm' in Hf3.
  assert (Hup' : store_reachable m').
  { apply Hf3. rewrite Hsave. eexists. simpl. split; [reflexivity|done]. }
  assert (Hst : stored m' i = Some new).
  { rewrite Hm', Hi. unfold stored.
    rewrite _update_activity_stats_keyspace by apply data_key_not_stats_key.
    rewrite Hsave. unfold keyspace. simpl.
    rewrite lookup_insert_ne by (apply not_eq_sym, data_key_not_list_key).
    rewrite lookup_insert_eq. done. }
  assert (Hstore : ∀ m0, activity_cache m0 !! i = None → redis m0 = redis m' →
            ∃ r a, (get_activity_by_id i m0).1 = Some r
                   ∧ objects (get_activity_by_id i m0).2 !! r = Some a ∧ a = new).
  { intros m0 Hc0 Hr0.
    rewrite (get_activity_by_id_from_store i new m0 Hc0).
    - exists (length (objects m0)), new. split; [done|]. split; [|done]. simpl.
      by apply list_lookup_middle.
    - unfold store_reachable. by rewrite Hr0.
    - unfold stored, keyspace in *. by rewrite Hr0. }
  destruct Hmm as [-> | ->].
  - destruct (activity_cache m' !! i) as [r0|] eqn:Ec.
    + pose proof (Hc r0 eq_refl) as ->.
      exists (length (objects m)), new. unfold get_activity_by_id. rewrite Ec. simpl.
      split; [done|]. split; [|done]. rewrite Ho. by apply list_lookup_middle.
    + destruct (Hstore m' Ec eq_refl) as (r & a & H1 & H2 & ->). exists r, new. done.
  - destruct (Hstore (cleanup m')) as (r & a & H1 & H2 & ->); [done|done|].
    exists r, new. done.
Qed.


Lemma X2_witness :
  store_reachable ex_feed_up
  ∧ ∃ r a,
      (get_activity_by_id ex_id_1 (cleanup ex_one_append.1.1)).1 = Some r
      ∧ objects (get_activity_by_id ex_id_1 (cleanup ex_one_append.1.1)).2 !! r = Some a
      ∧ a = mkActivity ex_id_1 INSIGHT_DISCOVERED NORMAL MCP "e1" "found" []
              (timestamp a) None None None [] ["rust"] (Qc_of_Z 1) false false.
Proof.
  destruct ex_feed_up_inv as (H1 & H2 & _ & _).
  split; [exact H1|].
  apply (X2_append_then_get_returns_the_event 2 INSIGHT_DISCOVERED "e1" "found" None NORMAL
           MCP None None None None (Some ["rust"]) (Qc_of_Z 1)
           ex_feed_up None ex_world ex_id_1 ex_one_append.1.1 None ex_one_append.2).
  - reflexivity.
  - exact H1.
  - exact H2.
  - reflexivity.
  - right. reflexivity.
Defined.

(** ** Events that do not exist *)

(** X3.  For an id under which no event exists (neither cached nor
    readable from the store), [mark_activity_read] and [bookmark_activity]
    return false and leave the manager, its objects and the store as they
    were. *)
Theorem X3_unknown_event_is_refused_without_effect (i user : string) (m : t) :
  ¬ event_exists i m →
  mark_activity_read i user m = (false, m) ∧ bookmark_activity i user m = (false, m).
Proof.
  intros Hno. unfold mark_activity_read, bookmark_activity.
  assert (H : (get_activity_by_id i m).2 = m
              ∨ ∃ r, get_activity_by_id i m = (Some r, (get_activity_by_id i m).2)
                     ∧ is_Some (objects (get_activity_by_id i m).2 !! r)).
  { unfold get_activity_by_id.
    destruct (activity_cache m !! i); [by left|].
    destruct (RedisClient.get _ _) as [p|]; [|by left].
    destruct (payload_truthy p); [|by left].
    destruct (_deserialize_activity p); [|by left].
    right. eexists. split; [reflexivity|]. simpl. eexists. by apply list_lookup_middle. }
  destruct H as [H|(r & H & [a Ha])].
  - destruct (get_activity_by_id i m) as [[r|] m0] eqn:E; simpl in H; subst m0; [|done].
    destruct (objects m !! r) as [a|] eqn:Ea; [|done].
    exfalso. apply Hno. exists r, a. by rewrite E.
  - exfalso. apply Hno. exists r, a. rewrite H. done.
Qed.

Lemma X3_witness :
  ¬ event_exists "activity_0_none" ex_one_append.1.1
  ∧ mark_activity_read "activity_0_none" "alice" ex_one_append.1.1
    = (false, ex_one_append.1.1)
  ∧ bookmark_activity "activity_0_none" "alice" ex_one_append.1.1
    = (false, ex_one_append.1.1).
Proof.
  assert (H : ¬ event_exists "activity_0_none" ex_one_append.1.1).
  { intros (r & a & H & _). vm_compute in H. discriminate H. }
  split; [exact H|].
  exact (X3_unknown_event_is_refused_without_effect "activity_0_none" "alice"
           ex_one_append.1.1 H).
Defined.

(** ** [get_activities] *)

(** The six filters and the user test read none of the two flags. *)
Lemma matches_filters_set_bookmarked T P S Ar since inc u b a :
  (matches_filters T P S Ar since inc (set_bookmarked b a) ∧ user_ok u (set_bookmarked b a))
  ↔ (matches_filters T P S Ar since inc a ∧ user_ok u a).
Proof. by destruct a. Qed.

(** [mark_bookmarked] writes the [bookmarked] attribute of objects and
    nothing else. *)
Lemma mark_bookmarked_spec (ids : gset string) (refs : list nat) (m : t) :
  let m' := mark_bookmarked ids refs m in
  redis m' = redis m ∧ recent_activities m' = recent_activities m
  ∧ activity_cache m' = activity_cache m
  ∧ max_activities m' = max_activities m
  ∧ length (objects m') = length (objects m)
  ∧ ∀ r a', objects m' !! r = Some a' →
            ∃ a b, objects m !! r = Some a ∧ a' = set_bookmarked b a.
Proof.
  revert m. induction refs as [|r0 refs IH]; intros m; simpl.
  - do 5 (split; [done|]). intros r a' H. exists a', (bookmarked a'). split; [done|].
    by destruct a'.
  - set (m1 := match objects m !! r0 with Some _ => _ | None => m end).
    assert (H1 : redis m1 = redis m ∧ recent_activities m1 = recent_activities m
                 ∧ activity_cache m1 = activity_cache m
                 ∧ max_activities m1 = max_activities m
                 ∧ length (objects m1) = length (objects m)
                 ∧ ∀ r a', objects m1 !! r = Some a' →
                           ∃ a b, objects m !! r = Some a ∧ a' = set_bookmarked b a).
    { subst m1. destruct (objects m !! r0) as [act|] eqn:E.
      - do 4 (split; [done|]). split; [apply length_insert|].
        intros r a'. simpl. destruct (decide (r = r0)) as [->|Hne].
        + rewrite list_lookup_insert_eq by (by apply lookup_lt_Some in E).
          intros [= <-]. eauto.
        + rewrite list_lookup_insert_ne by done.
          intros H. exists a', (bookmarked a'). split; [done|]. by destruct a'.
      - do 5 (split; [done|]). intros r a' H. exists a', (bookmarked a'). split; [done|].
        by destruct a'. }
    destruct H1 as (R1 & R2 & R3 & R4 & R5 & R6).
    destruct (IH m1) as (I1 & I2 & I3 & I4 & I5 & I6).
    split; [congruence|]. split; [congruence|]. split; [congruence|].
    split; [congruence|]. split; [congruence|].
    intros r a' H. destruct (I6 r a' H) as (a1 & b1 & Ha1 & ->).
    destruct (R6 r a1 Ha1) as (a & b & Ha & ->).
    exists a, b1. split; [done|]. by destruct a.
Qed.

Lemma elem_of_deref (m : t) (refs : list nat) r a :
  (r, a) ∈ deref m refs ↔ r ∈ refs ∧ objects m !! r = Some a.
Proof.
  unfold deref. rewrite list_elem_of_omap. split.
  - intros (r' & Hin & H). destruct (objects m !! r') as [a'|] eqn:E; simplify_eq/=. done.
  - intros [Hin H]. exists r. rewrite H. done.
Qed.

(** X4.  [get_activities] returns at most [limit] events, each of which
    satisfies every filter given and the user test; it writes nothing to
    the store, and leaves the recent list, the cache and the number of
    objects as they were. *)
Theorem X4_get_activities_bounded_filtered_read_only
    (limit offset : nat) T P S (user : option string) Ar since inc (m : t) :
  let res := get_activities limit offset T P S user Ar since inc m in
  (length res.1 ≤ limit)%nat
  ∧ (∀ a, a ∈ res.1 → matches_filters T P S Ar since inc a ∧ user_ok user a)
  ∧ redis res.2 = redis m
  ∧ recent_activities res.2 = recent_activities m
  ∧ activity_cache res.2 = activity_cache m
  ∧ length (objects res.2) = length (objects m).
Proof.
  unfold get_activities.
  destruct (bool_decide (offset = 0%nat) && bool_decide (limit ≤ length (recent_activities m))%nat).
  - set (refs := (_filter_activities snd _ _ _ _ _ _ _ _).*1).
    set (m' := match user with Some u => _ | None => m end).
    assert (Hm' : redis m' = redis m ∧ recent_activities m' = recent_activities m
                  ∧ activity_cache m' = activity_cache m
                  ∧ length (objects m') = length (objects m)
                  ∧ ∀ r a', objects m' !! r = Some a' →
                            ∃ a b, objects m !! r = Some a ∧ a' = set_bookmarked b a).
    { assert (Hid : ∀ r a', objects m !! r = Some a' →
                            ∃ a b, objects m !! r = Some a ∧ a' = set_bookmarked b a).
      { intros r a' H. exists a', (bookmarked a'). split; [done|]. by destruct a'. }
      subst m'. destruct user as [u|]; [|done].
      destruct (truthy (Some u)); [|done].
      destruct (mark_bookmarked_spec (_get_user_bookmarked_ids u m) refs m)
        as (? & ? & ? & ? & ? & ?). done. }
    destruct Hm' as (E1 & E2 & E3 & E4 & E5). simpl.
    split; [rewrite length_take; lia|]. split; [|done].
    intros a Ha.
    apply (λ H, elem_of_sublist _ _ _ H (sublist_take _ _)) in Ha.
    apply list_elem_of_fmap in Ha as ([r a'] & -> & Ha). simpl.
    apply elem_of_deref in Ha as [Hr Ha].
    destruct (E5 r a' Ha) as (a0 & b & Ha0 & ->).
    apply matches_filters_set_bookmarked.
    subst refs. apply list_elem_of_fmap in Hr as ([r' a1] & Hr' & Hin). simpl in Hr'. subst r'.
    rewrite _filter_activities_filter in Hin.
    apply list_elem_of_filter in Hin as [Hok Hin]. simpl in Hok.
    apply elem_of_deref in Hin as [_ Hl]. congruence.
  - simpl. split; [rewrite length_take; lia|]. split; [|done].
    intros a Ha.
    apply (λ H, elem_of_sublist _ _ _ H (sublist_take _ _)) in Ha.
    apply (λ H, elem_of_sublist _ _ _ H (sublist_drop _ _)) in Ha.
    assert (Hload : ∀ x, x ∈ _load_activities_from_redis (limit + offset) T P S user Ar
                               since inc m →
                         matches_filters T P S Ar since inc x ∧ user_ok user x).
    { intros x. unfold _load_activities_from_redis.
      destruct (RedisClient.call _ _) as [[ids c]|]; [|by intros ?%elem_of_nil].
      destruct ids as [|i0 ids]; [by intros ?%elem_of_nil|].
      destruct (load_each _ _) as [acts|]; [|by intros ?%elem_of_nil].
      intros Hx. apply (λ H, elem_of_sublist _ _ _ H (sublist_take _ _)) in Hx.
      rewrite _filter_activities_filter in Hx.
      by apply list_elem_of_filter in Hx as [Hok _]. }
    destruct user as [u|]; [|by apply Hload].
    destruct (truthy (Some u)) eqn:Et; [|by apply Hload].
    apply list_elem_of_fmap in Ha as (a0 & -> & Ha0).
    apply matches_filters_set_bookmarked. by apply Hload.
Qed.

(** ** [get_activity_stats]: the counters *)

Lemma elem_of_count_up (k : string) (d : list (string * nat)) k' n' :
  NoDup d.*1 →
  (k', n') ∈ count_up k d
  ↔ (k' ≠ k ∧ (k', n') ∈ d)
    ∨ (k' = k ∧ ((∃ n, (k, n) ∈ d ∧ n' = S n) ∨ ((k ∉ d.*1) ∧ n' = 1%nat))).
Proof.
  induction d as [|[k0 n0] d IH]; intros Hnd; simpl.
  - rewrite list_elem_of_singleton. split.
    + intros [= -> ->]. right. split; [done|]. right. split; [apply not_elem_of_nil|done].
    + intros [[_ H%elem_of_nil]|[-> [(n & H%elem_of_nil & _)|[_ ->]]]]; done.
  - apply NoDup_cons in Hnd as [Hk0 Hnd]. simpl in Hk0.
    assert (Hfresh : ∀ n, (k0, n) ∉ d).
    { intros n Hin. apply Hk0. apply list_elem_of_fmap. by exists (k0, n). }
    destruct (decide (k0 = k)) as [->|Hne].
    + repeat setoid_rewrite elem_of_cons. simpl. split.
      * intros [[= -> ->]|Hin].
        -- right. split; [done|]. left. exists n0. split; [by left|done].
        -- left. split; [|by right]. intros ->. by apply (Hfresh n').
      * intros [[Hk [[= -> ->]|Hin]]|[-> [(n & [[= ->]|Hin] & ->)|[Hnot ->]]]].
        -- done.
        -- by right.
        -- by left.
        -- by apply Hfresh in Hin.
        -- exfalso. apply Hnot. by left.
    + rewrite elem_of_cons, (IH Hnd). repeat setoid_rewrite elem_of_cons. simpl. split.
      * intros [[= -> ->]|[[Hk Hin]|[-> [(n & Hin & ->)|[Hnot ->]]]]].
        -- left. split; [done|by left].
        -- left. split; [done|by right].
        -- right. split; [done|]. left. exists n. split; [by right|done].
        -- right. split; [done|]. right. split; [|done]. naive_solver.
      * intros [[Hk [[= -> ->]|Hin]]|[-> [(n & [[= -> ->]|Hin] & ->)|[Hnot ->]]]].
        -- by left.
        -- right. left. done.
        -- done.
        -- right. right. split; [done|]. left. by exists n.
        -- right. right. split; [done|]. right. split; [|done]. naive_solver.
Qed.

Lemma count_up_keys (k : string) (d : list (string * nat)) :
  NoDup d.*1 → NoDup (count_up k d).*1 ∧ (∀ k', k' ∈ (count_up k d).*1 ↔ k' = k ∨ k' ∈ d.*1).
Proof.
  induction d as [|[k0 n0] d IH]; intros Hnd; simpl.
  - split; [apply NoDup_singleton|]. intros k'. rewrite list_elem_of_singleton.
    split; [by left|]. intros [H|H%elem_of_nil]; done.
  - apply NoDup_cons in Hnd as [Hk0 Hnd]. simpl in Hk0.
    destruct (decide (k0 = k)) as [->|Hne]; simpl.
    + split; [by apply NoDup_cons|]. intros k'. rewrite elem_of_cons. naive_solver.
    + destruct (IH Hnd) as [I1 I2]. split.
      * apply NoDup_cons. split; [|done]. rewrite I2. naive_solver.
      * intros k'. rewrite !elem_of_cons, I2. naive_solver.
Qed.

Lemma foldl_count_up_histogram {A} (key : A → string) (l : list A) :
  histogram key l (foldl (fun d a => count_up (key a) d) [] l).
Proof.
  induction l as [|a l IH] using rev_ind.
  - split; [constructor|]. intros k n. simpl. split; [by intros ?%elem_of_nil|]. lia.
  - rewrite foldl_app. simpl. destruct IH as [Hnd IH].
    set (d := foldl _ _ l) in *.
    split; [by apply count_up_keys|].
    intros k n. rewrite (elem_of_count_up _ _ _ _ Hnd), filter_app, length_app.
    destruct (decide (key a = k)) as [Hk|Hk].
    + subst k. rewrite filter_cons_True, filter_nil by done. simpl.
      set (k := key a) in *.
      set (c := length (filter (λ a0, key a0 = k) l)) in *.
      assert (Hc : ∀ n0, (k, n0) ∈ d ↔ (0 < n0)%nat ∧ n0 = c) by (intros n0; apply IH).
      split.
      * intros [[Hne _]|[_ [(n0 & Hin & ->)|[Hnot ->]]]]; [done| |].
        -- apply Hc in Hin as [_ <-]. lia.
        -- split; [lia|].
           destruct c as [|c]; [done|].
           exfalso. apply Hnot. apply list_elem_of_fmap. exists (k, S c). split; [done|].
           apply Hc. lia.
      * intros [Hpos ->]. right. split; [done|].
        destruct c as [|c].
        -- right. split; [|done]. intros ((k1 & n1) & Hk1 & Hin)%list_elem_of_fmap.
           simpl in Hk1. subst k1. apply Hc in Hin. lia.
        -- left. exists (S c). split; [|lia]. apply Hc. lia.
    + rewrite filter_cons_False, filter_nil by done. simpl. rewrite Nat.add_0_r. split.
      * intros [[_ Hin]|[Heq _]]; [by apply IH|done].
      * intros H. left. split; [done|]. by apply IH.
Qed.

(** The record that [get_activity_stats] builds over its window. *)
Lemma get_activity_stats_window (since : option Z) (m : t) (w : World) :
  let acts := stats_window since m w in
  ∃ t avg,
    (get_activity_stats since m w).1.1
    = match acts with
      | [] => empty_stats
      | first :: _ =>
          mkStats (length acts)
            (length (filter (fun a => t - 24 * 3600 * 1000000 < timestamp a) acts))
            (foldl (fun d a => count_up (type_value (type a)) d) [] acts)
            (foldl (fun d a => count_up (priority_value (priority a)) d) [] acts)
            avg
            match foldl (fun d a => count_up (source_value (source a)) d) [] acts with
            | [] => ""
            | x :: d => (max_item x d).1
            end
            (Some (timestamp first))
      end.
Proof.
  intros acts. subst acts. unfold stats_window, get_activity_stats.
  set (s := match since with Some s => s | None => _ end).
  assert (Hs : ∃ w', (match since with
                      | Some s0 => (s0, w)
                      | None => let '(t, w0) := now w in (t - 7 * 86400 * 1000000, w0)
                      end) = (s, w')).
  { subst s. destruct since; simpl; eauto. }
  destruct Hs as [w' ->].
  destruct (get_activities _ _ _ _ _ _ _ _ _ _) as [acts m'].
  destruct acts as [|a acts]; [by exists 0, 0%Qc|].
  cbn [fst snd]. destruct (now w') as [t w'']. cbn [fst snd]. eauto.
Qed.

(** X5.  The counters of [get_activity_stats]: the total is the size of
    the window, the 24-hour count does not exceed it, and the counts by
    type and by priority are histograms of the window, so each of them
    adds up to the total. *)
Theorem X5_stats_counts_are_histograms_of_the_window
    (since : option Z) (m : t) (w : World) :
  let acts := stats_window since m w in
  let stats := (get_activity_stats since m w).1.1 in
  total_activities stats = length acts
  ∧ (activities_24h stats ≤ total_activities stats)%nat
  ∧ histogram (fun a => type_value (type a)) acts (activities_by_type stats)
  ∧ histogram (fun a => priority_value (priority a)) acts (activities_by_priority stats)
  ∧ last_activity stats = timestamp <$> head acts.
Proof.
  intros acts stats. subst stats.
  destruct (get_activity_stats_window since m w) as (t & avg & ->). fold acts.
  clearbody acts. destruct acts as [|a l].
  - simpl. do 2 (split; [done|]).
    split; [apply (foldl_count_up_histogram _ [])|].
    split; [apply (foldl_count_up_histogram _ [])|done].
  - cbn [total_activities activities_24h activities_by_type activities_by_priority
         last_activity].
    split; [done|]. split; [apply length_filter|].
    split; [apply foldl_count_up_histogram|]. split; [apply foldl_count_up_histogram|done].
Qed.

Lemma max_item_spec (best : string * nat) (d : list (string * nat)) :
  max_item best d ∈ best :: d ∧ ∀ y, y ∈ best :: d → (y.2 ≤ (max_item best d).2)%nat.
Proof.
  revert best. induction d as [|x d IH]; intros best; simpl.
  - split; [by left|]. intros y ->%list_elem_of_singleton. done.
  - destruct (IH (if bool_decide (best.2 < x.2)%nat then x else best)) as [I1 I2].
    split.
    + apply elem_of_cons in I1 as [->|I1]; [|by do 2 right].
      destruct (bool_decide _); [right; by left|by left].
    + intros y Hy.
      assert (Hb : ((if bool_decide (best.2 < x.2)%nat then x else best).2
                    ≤ (max_item (if bool_decide (best.2 < x.2)%nat then x else best) d).2)%nat)
        by (apply I2; by left).
      apply elem_of_cons in Hy as [->|Hy].
      * destruct (bool_decide (best.2 < x.2)%nat) eqn:Eb; [|done].
        apply bool_decide_eq_true_1 in Eb. lia.
      * apply elem_of_cons in Hy as [->|Hy]; [|apply I2; by right].
        destruct (bool_decide (best.2 < x.2)%nat) eqn:Eb; [done|].
        apply bool_decide_eq_false_1 in Eb. lia.
Qed.

(** X6.  [most_active_source] of [get_activity_stats] is the source of an
    event of the window, and no source has more events in the window; it
    is the empty string exactly when the window is empty. *)
Theorem X6_most_active_source_has_the_greatest_count
    (since : option Z) (m : t) (w : World) :
  let acts := stats_window since m w in
  let stats := (get_activity_stats since m w).1.1 in
  (acts = [] → stats = empty_stats)
  ∧ (acts ≠ [] →
     (∃ a, a ∈ acts ∧ most_active_source stats = source_value (source a))
     ∧ ∀ b, b ∈ acts →
            (source_count acts (source_value (source b))
             ≤ source_count acts (most_active_source stats))%nat).
Proof.
  intros acts stats. subst stats.
  destruct (get_activity_stats_window since m w) as (t & avg & ->). fold acts.
  clearbody acts. destruct acts as [|a0 l]; [done|]. cbv match.
  split; [done|]. intros _. cbn [most_active_source].
  remember (a0 :: l) as acts eqn:E.
  destruct (foldl_count_up_histogram (fun a => source_value (source a)) acts) as [Hnd Hh].
  destruct (foldl (fun d a => count_up (source_value (source a)) d) [] acts) as [|x d] eqn:Ed.
  - exfalso. assert (Hin : (source_value (source a0), source_count acts (source_value (source a0)))
                           ∈ ([] : list (string * nat))).
    { apply Hh. split; [|done]. unfold source_count. rewrite E.
      rewrite filter_cons_True by done. simpl. lia. }
    by apply elem_of_nil in Hin.
  - destruct (max_item_spec x d) as [Hin Hmax].
    destruct (max_item x d) as [k n] eqn:Em. simpl.
    apply Hh in Hin as [Hpos Hn]. split.
    + destruct (filter (λ a, source_value (source a) = k) acts) as [|a l'] eqn:Ef;
        [simpl in Hn; lia|].
      assert (Ha : a ∈ filter (λ a, source_value (source a) = k) acts)
        by (rewrite Ef; by left).
      apply list_elem_of_filter in Ha as [Hk Ha]. exists a. done.
    + intros b Hb. fold (source_count acts k) in Hn. rewrite <- Hn.
      apply (Hmax (source_value (source b), source_count acts (source_value (source b)))).
      apply Hh. split; [|done].
      unfold source_count.
      assert (Hbf : b ∈ filter (λ a, source_value (source a) = source_value (source b)) acts)
        by (by apply list_elem_of_filter).
      destruct (filter _ acts); [by apply elem_of_nil in Hbf|simpl; lia].
Qed.

Lemma X6_witness :
  let acts := stats_window (Some 0) ex_two_appends.1.1 ex_world in
  let stats := (get_activity_stats (Some 0) ex_two_appends.1.1 ex_world).1.1 in
  (acts = [] → stats = empty_stats)
  ∧ (acts ≠ [] →
     (∃ a, a ∈ acts ∧ most_active_source stats = source_value (source a))
     ∧ ∀ b, b ∈ acts →
            (source_count acts (source_value (source b))
             ≤ source_count acts (most_active_source stats))%nat).
Proof.
  exact (X6_most_active_source_has_the_greatest_count (Some 0) ex_two_appends.1.1 ex_world).
Defined.

(** ** Reading events back from the store *)

Lemma get_Some (key : string) (c : RedisClient.t) (p : Redis.payload) :
  RedisClient.get key c = Some p →
  ∃ s ttl, RedisClient.redis c = Some s
           ∧ Redis.db s !! key = Some (Redis.mkEntry (Redis.RString p) ttl).
Proof.
  unfold RedisClient.get, RedisClient.call, Redis.get, Redis.guard.
  destruct (RedisClient.redis c) as [s|]; [|done].
  destruct (Redis.reachable s); [|done].
  destruct (Redis.db s !! key) as [[[q|z] ttl]|] eqn:E; simpl; [|done|done].
  intros [= ->]. eauto.
Qed.

Lemma load_each_stored (ids : list string) (m : t) (acts : list ActivityItem) :
  load_each ids m = Ok acts →
  ∀ a, a ∈ acts → ∃ i, i ∈ ids ∧ stored m i = Some a.
Proof.
  revert acts. induction ids as [|i ids IH]; intros acts; simpl.
  - intros [= <-] a Ha. by apply elem_of_nil in Ha.
  - assert (Hrest : load_each ids m = Ok acts →
                    ∀ a, a ∈ acts → ∃ i0, i0 ∈ i :: ids ∧ stored m i0 = Some a).
    { intros H a Ha. destruct (IH acts H a Ha) as (i0 & Hi0 & Hs). exists i0.
      split; [by right|done]. }
    destruct (RedisClient.get (data_key i) (redis m)) as [p|] eqn:Eg; [|done].
    destruct (payload_truthy p); [|done].
    destruct p as [a0| |]; simpl; [|done|done].
    destruct (load_each ids m) as [rest|]; simpl; [|done].
    intros [= <-] a [->|Ha]%elem_of_cons.
    + exists i. split; [by left|].
      apply get_Some in Eg as (s & ttl & Hs & Hk).
      unfold stored, keyspace. rewrite Hs, Hk. done.
    + destruct (IH rest eq_refl a Ha) as (i0 & Hi0 & Hs). exists i0.
      split; [by right|done].
Qed.

Lemma zrevrange_index (start stop : Z) (m : t) ids c :
  RedisClient.call (redis m) (Redis.zrevrange list_key start stop) = Ok (ids, c) →
  ∀ i, i ∈ ids → ∃ sc, (sc, i) ∈ index m.
Proof.
  unfold RedisClient.call, Redis.zrevrange, Redis.guard, index, keyspace, Redis.zset_at.
  destruct (RedisClient.redis (redis m)) as [s|]; [|done].
  destruct (Redis.reachable s); [|done].
  destruct (Redis.db s !! list_key) as [[[p|z] ttl]|]; simpl; [done| |].
  - destruct (Redis.norm_range _ _ _) as [[k n]|]; simpl.
    + intros [= <- _] i ([sc i'] & -> & Hin)%list_elem_of_fmap. exists sc. simpl.
      apply (λ H, elem_of_sublist _ _ _ H (sublist_take _ _)) in Hin.
      apply (λ H, elem_of_sublist _ _ _ H (sublist_drop _ _)) in Hin.
      by apply elem_of_reverse.
    + intros [= <- _] i Hi. by apply elem_of_nil in Hi.
  - destruct (Redis.norm_range _ _ _) as [[k n]|]; simpl.
    + intros [= <- _] i Hi. exfalso. revert Hi.
      destruct (Z.to_nat k), (Z.to_nat n); simpl; apply not_elem_of_nil.
    + intros [= <- _] i Hi. by apply elem_of_nil in Hi.
Qed.

(** X7.  [_load_activities_from_redis] makes nothing up: it returns at
    most [limit] events, each one the payload stored under an id of the
    index and passing every filter; when the store cannot be reached it
    returns the empty list. *)
Theorem X7_load_returns_only_stored_events
    (limit : nat) T P S (user : option string) Ar since inc (m : t) :
  let res := _load_activities_from_redis limit T P S user Ar since inc m in
  (length res ≤ limit)%nat
  ∧ (∀ a, a ∈ res →
          (∃ sc i, (sc, i) ∈ index m ∧ stored m i = Some a)
          ∧ matches_filters T P S Ar since inc a ∧ user_ok user a)
  ∧ (store_unreachable m → res = []).
Proof.
  unfold _load_activities_from_redis. split; [|split].
  - destruct (RedisClient.call _ _) as [[ids c]|]; [|simpl; lia].
    destruct ids as [|i0 ids]; [simpl; lia|].
    destruct (load_each _ _) as [acts|]; [|simpl; lia].
    rewrite length_take. lia.
  - intros a.
    destruct (RedisClient.call _ _) as [[ids c]|] eqn:Ec; [|by intros ?%elem_of_nil].
    destruct ids as [|i0 ids]; [by intros ?%elem_of_nil|].
    destruct (load_each _ _) as [acts|] eqn:El; [|by intros ?%elem_of_nil].
    intros Ha. apply (λ H, elem_of_sublist _ _ _ H (sublist_take _ _)) in Ha.
    rewrite _filter_activities_filter in Ha.
    apply list_elem_of_filter in Ha as [Hok Ha]. split; [|done].
    destruct (load_each_stored _ _ _ El a Ha) as (i & Hi & Hs).
    destruct (zrevrange_index _ _ _ _ _ Ec i Hi) as [sc Hsc]. eauto.
  - unfold store_unreachable, RedisClient.call, Redis.zrevrange, Redis.guard.
    destruct (RedisClient.redis (redis m)) as [s|]; [|done].
    by intros ->.
Qed.

(** ** [RedisClient]: errors are swallowed *)

(** X8.  When the server cannot be reached, no method of [RedisClient]
    raises: [set], [delete] and [expire] return False, [get] returns None,
    [exists] returns False, and the client is left as it was.  [get] also
    returns None for a key that holds a sorted set. *)
Theorem X8_redis_client_swallows_errors
    (c : RedisClient.t) (key : string) (v : Redis.payload) (ex : option Z) (seconds : Z) :
  (client_unreachable c →
   RedisClient.set key v ex c = (false, c)
   ∧ RedisClient.get key c = None
   ∧ RedisClient.delete key c = (false, c)
   ∧ RedisClient.exists_ key c = false
   ∧ RedisClient.expire key seconds c = (false, c))
  ∧ (∀ s z ttl, RedisClient.redis c = Some s →
       Redis.db s !! key = Some (Redis.mkEntry (Redis.RZSet z) ttl) →
       RedisClient.get key c = None).
Proof.
  unfold client_unreachable, RedisClient.set, RedisClient.get, RedisClient.delete,
    RedisClient.exists_, RedisClient.expire, RedisClient.call,
    Redis.set, Redis.get, Redis.delete, Redis.exists_, Redis.expire, Redis.guard.
  split.
  - destruct (RedisClient.redis c) as [s|]; [|done]. by intros ->.
  - intros s z ttl -> Hk. destruct (Redis.reachable s); [|done]. by rewrite Hk.
Qed.

Lemma X8_witness :
  client_unreachable (redis ex_feed_down)
  ∧ RedisClient.set "k" (Redis.PText "v") None (redis ex_feed_down)
    = (false, redis ex_feed_down)
  ∧ RedisClient.get "k" (redis ex_feed_down) = None
  ∧ RedisClient.delete "k" (redis ex_feed_down) = (false, redis ex_feed_down)
  ∧ RedisClient.exists_ "k" (redis ex_feed_down) = false
  ∧ RedisClient.expire "k" 60 (redis ex_feed_down) = (false, redis ex_feed_down).
Proof.
  split; [reflexivity|].
  apply (proj1 (X8_redis_client_swallows_errors (redis ex_feed_down) "k" (Redis.PText "v")
                  None 60)).
  reflexivity.
Defined.

(** ** The bookmarked events of a user *)

Lemma insert_desc_elem_of (a : ActivityItem) (l : list ActivityItem) x :
  x ∈ insert_desc a l ↔ x = a ∨ x ∈ l.
Proof.
  induction l as [|b l IH]; simpl.
  - rewrite list_elem_of_singleton. split; [by left|]. by intros [H|H%elem_of_nil].
  - destruct (bool_decide _).
    + by rewrite elem_of_cons.
    + rewrite !elem_of_cons, IH. naive_solver.
Qed.

Lemma insert_desc_sorted (a : ActivityItem) (l : list ActivityItem) :
  newest_first l → newest_first (insert_desc a l).
Proof.
  unfold newest_first. induction 1 as [|b l Hl IH Hb]; simpl.
  - repeat constructor.
  - destruct (bool_decide (timestamp b ≤ timestamp a)) eqn:E.
    + apply bool_decide_eq_true_1 in E. constructor; [by constructor|].
      apply Forall_cons. split; [done|].
      eapply Forall_impl; [exact Hb|]. simpl. intros. lia.
    + apply bool_decide_eq_false_1 in E. constructor; [done|].
      apply Forall_forall. intros x [->|Hx]%insert_desc_elem_of; [lia|].
      rewrite Forall_forall in Hb. by apply Hb.
Qed.

Lemma sort_desc_sorted (l : list ActivityItem) : newest_first (sort_desc l).
Proof.
  unfold sort_desc. induction l as [|a l IH]; simpl; [constructor|].
  by apply insert_desc_sorted.
Qed.

Lemma sort_desc_elem_of (l : list ActivityItem) x : x ∈ sort_desc l ↔ x ∈ l.
Proof.
  unfold sort_desc. induction l as [|a l IH]; simpl; [done|].
  rewrite insert_desc_elem_of, elem_of_cons, IH. done.
Qed.

(** [get_activity_by_id] keeps the store and the objects there are, and
    adds at most one object. *)
Lemma get_activity_by_id_keeps (i : string) (m : t) :
  redis (get_activity_by_id i m).2 = redis m
  ∧ ∃ extra, objects (get_activity_by_id i m).2 = (objects m ++ extra)%list.
Proof.
  unfold get_activity_by_id.
  assert (Hid : redis m = redis m ∧ ∃ extra, objects m = (objects m ++ extra)%list).
  { split; [done|]. exists []. by rewrite app_nil_r. }
  destruct (activity_cache m !! i); [done|].
  destruct (RedisClient.get _ _) as [p|]; [|done].
  destruct (payload_truthy p); [|done].
  destruct (_deserialize_activity p); [|done].
  simpl. split; [done|]. eauto.
Qed.

Lemma collect_bookmarked_spec (ids : list string) (m : t) :
  redis (collect_bookmarked ids m).2 = redis m
  ∧ ∀ r, r ∈ (collect_bookmarked ids m).1 →
         ∃ a, objects (collect_bookmarked ids m).2 !! r = Some a ∧ bookmarked a = true.
Proof.
  unfold collect_bookmarked.
  set (step := fun (st : list nat * t) (activity_id : string) => _).
  assert (H : ∀ ids acc m0,
            redis m0 = redis m →
            (∀ r, r ∈ acc → ∃ a, objects m0 !! r = Some a ∧ bookmarked a = true) →
            redis (foldl step (acc, m0) ids).2 = redis m
            ∧ ∀ r, r ∈ (foldl step (acc, m0) ids).1 →
                   ∃ a, objects (foldl step (acc, m0) ids).2 !! r = Some a
                        ∧ bookmarked a = true).
  { clear ids. induction ids as [|i ids IH]; intros acc m0 Hr Hacc; [done|].
    cbn [foldl].
    assert (Hstep : redis (step (acc, m0) i).2 = redis m
                    ∧ ∀ r, r ∈ (step (acc, m0) i).1 →
                           ∃ a, objects (step (acc, m0) i).2 !! r = Some a
                                ∧ bookmarked a = true).
    { subst step. cbn beta iota.
      destruct (get_activity_by_id_keeps i m0) as (Hr1 & extra & Ho1).
      destruct (get_activity_by_id i m0) as [o m1]. simpl in Hr1, Ho1.
      assert (Hkeep : ∀ r, r ∈ acc → ∃ a, objects m1 !! r = Some a ∧ bookmarked a = true).
      { intros r Hin. destruct (Hacc r Hin) as (a & Ha & Hb). exists a. split; [|done].
        rewrite Ho1. by apply lookup_app_l_Some. }
      destruct o as [r0|]; [|simpl; split; [congruence|done]].
      destruct (objects m1 !! r0) as [act|] eqn:E; [|simpl; split; [congruence|done]].
      simpl. split; [congruence|].
      intros r Hin. destruct (decide (r = r0)) as [->|Hne].
      - exists (set_bookmarked true act). split; [|done].
        apply list_lookup_insert_eq. by apply lookup_lt_Some in E.
      - rewrite list_lookup_insert_ne by done. apply Hkeep.
        apply elem_of_app in Hin as [Hin|Hin%list_elem_of_singleton]; done. }
    destruct (step (acc, m0) i) as [acc1 m1]. simpl in Hstep.
    destruct Hstep as [H1 H2]. by apply IH. }
  apply H; [done|]. intros r Hin. by apply elem_of_nil in Hin.
Qed.

(** X9.  [get_bookmarked_activities] returns at most [limit] events, most
    recent first, each one marked as bookmarked; it writes nothing to the
    store, and returns the empty list when the user has no bookmark key. *)
Theorem X9_bookmarked_events_newest_first
    (user : string) (limit offset : nat) (m : t) :
  let res := get_bookmarked_activities user limit offset m in
  (length res.1 ≤ limit)%nat
  ∧ newest_first res.1
  ∧ (∀ a, a ∈ res.1 → bookmarked a = true)
  ∧ redis res.2 = redis m
  ∧ (_get_user_bookmarked_ids user m = ∅ → res = ([], m)).
Proof.
  unfold get_bookmarked_activities.
  destruct (decide (_get_user_bookmarked_ids user m = ∅)) as [He|Hne].
  - simpl. split; [lia|]. split; [constructor|].
    split; [by intros a Ha%elem_of_nil|done].
  - destruct (collect_bookmarked_spec (elements (_get_user_bookmarked_ids user m)) m)
      as [Hr Hb].
    destruct (collect_bookmarked _ m) as [refs m']. simpl in *.
    split; [rewrite length_take; lia|].
    pose proof (sort_desc_sorted (deref m' refs).*2) as Hs.
    split; [|split; [|done]].
    + unfold newest_first in *.
      rewrite <- (take_drop offset (sort_desc _)) in Hs.
      apply StronglySorted_app_1_r in Hs.
      rewrite <- (take_drop limit (drop offset _)) in Hs.
      by apply StronglySorted_app_1_l in Hs.
    + intros a Ha.
      apply (λ H, elem_of_sublist _ _ _ H (sublist_take _ _)) in Ha.
      apply (λ H, elem_of_sublist _ _ _ H (sublist_drop _ _)) in Ha.
      apply (proj1 (sort_desc_elem_of _ _)) in Ha.
      apply list_elem_of_fmap in Ha as ([r a'] & -> & Ha). simpl.
      apply elem_of_deref in Ha as [Hin Hl].
      destruct (Hb r Hin) as (a & Ha & Hbk). congruence.
Qed.

(** ** Bookmark keys and the pattern that lists them *)

Lemma list_ascii_of_string_append (a b : string) :
  list_ascii_of_string (a +:+ b) = (list_ascii_of_string a ++ list_ascii_of_string b)%list.
Proof. induction a as [|c a IH]; simpl; [done|]. by rewrite IH. Qed.

Lemma glob_star (s : list ascii) : Redis.glob ["*"%char] s = true.
Proof. induction s as [|c s IH]; [done|]. simpl in *. exact IH. Qed.

Lemma glob_literal_prefix (p q s : list ascii) :
  Forall glob_literal p → Redis.glob (p ++ q) (p ++ s) = Redis.glob q s.
Proof.
  induction 1 as [|c p (H1 & H2 & H3 & _) _ IH]; [done|].
  cbn [app Redis.glob].
  apply Ascii.eqb_neq in H1, H2, H3. rewrite H1, H2, H3, Ascii.eqb_refl. exact IH.
Qed.

Lemma last_segment_aux_plain (s acc : list ascii) :
  ":"%char ∉ s → last_segment_aux acc s = (acc ++ s)%list.
Proof.
  revert acc. induction s as [|c s IH]; intros acc Hs; simpl.
  - by rewrite app_nil_r.
  - apply not_elem_of_cons in Hs as [Hc Hs].
    destruct (Ascii.eqb c ":") eqn:E; [by apply Ascii.eqb_eq in E|].
    rewrite IH by done. by rewrite <- app_assoc.
Qed.

Lemma last_segment_aux_colon (s1 s2 acc : list ascii) :
  last_segment_aux acc (s1 ++ ":"%char :: s2) = last_segment_aux [] s2.
Proof.
  revert acc. induction s1 as [|c s1 IH]; intros acc; simpl; [done|].
  destruct (Ascii.eqb c ":"); apply IH.
Qed.

Lemma bookmark_key_chars (user i : string) :
  list_ascii_of_string (bookmark_key user i)
  = ((list_ascii_of_string "activity:bookmarks:" ++ list_ascii_of_string user)
     ++ ":"%char :: list_ascii_of_string i)%list.
Proof.
  unfold bookmark_key. rewrite !list_ascii_of_string_append, <- app_assoc. done.
Qed.

Lemma last_segment_bookmark_key (user i : string) :
  no_colon i → last_segment (bookmark_key user i) = i.
Proof.
  intros Hi. unfold last_segment. rewrite bookmark_key_chars.
  rewrite last_segment_aux_colon, last_segment_aux_plain by done.
  apply string_of_list_ascii_of_string.
Qed.

Lemma glob_bookmark_key (user i : string) :
  plain_user user →
  Redis.glob (list_ascii_of_string ("activity:bookmarks:" +:+ user +:+ ":*"))
             (list_ascii_of_string (bookmark_key user i)) = true.
Proof.
  intros Hu. rewrite bookmark_key_chars.
  assert (E : list_ascii_of_string ("activity:bookmarks:" +:+ user +:+ ":*")
              = ((list_ascii_of_string "activity:bookmarks:" ++ list_ascii_of_string user)
                 ++ [":"%char; "*"%char])%list).
  { rewrite !list_ascii_of_string_append, <- app_assoc. done. }
  rewrite E, glob_literal_prefix.
  - change (Redis.glob ([":"%char] ++ ["*"%char]) ([":"%char] ++ list_ascii_of_string i)
            = true).
    rewrite glob_literal_prefix; [apply glob_star|]. repeat constructor; done.
  - apply Forall_app. split; [|done]. repeat constructor; done.
Qed.

(** X10.  A bookmark that exists is listed: for a user id without pattern
    metacharacters and an event id without a colon, if the user's bookmark
    key for the event exists then [_get_user_bookmarked_ids] contains the
    event id. *)
Theorem X10_existing_bookmark_is_listed (user i : string) (m : t) :
  plain_user user → no_colon i →
  is_bookmarked user i m = true →
  i ∈ _get_user_bookmarked_ids user m.
Proof.
  intros Hu Hi. unfold is_bookmarked, _get_user_bookmarked_ids,
    RedisClient.exists_, RedisClient.call, Redis.exists_, Redis.keys, Redis.guard.
  destruct (RedisClient.redis (redis m)) as [s|]; [|done].
  destruct (Redis.reachable s); [|done]. simpl.
  destruct (Redis.db s !! bookmark_key user i) as [e|] eqn:E; [|done].
  intros _. apply elem_of_list_to_set, list_elem_of_fmap.
  exists (bookmark_key user i). split; [by rewrite last_segment_bookmark_key|].
  apply list_elem_of_filter. split; [by apply glob_bookmark_key|].
  apply list_elem_of_fmap. exists (bookmark_key user i, e). split; [done|].
  by apply elem_of_map_to_list.
Qed.

Lemma X10_witness :
  plain_user "alice"
  ∧ no_colon ex_id_1
  ∧ ex_id_1 ∈ _get_user_bookmarked_ids "alice"
                (bookmark_activity ex_id_1 "alice" ex_one_append.1.1).2.
Proof.
  assert (H1 : plain_user "alice") by (repeat constructor; discriminate).
  assert (H2 : no_colon ex_id_1) by (apply (bool_decide_unpack _); vm_compute; exact I).
  split; [exact H1|]. split; [exact H2|].
  apply (X10_existing_bookmark_is_listed "alice" ex_id_1 _ H1 H2).
  vm_compute. reflexivity.
Defined.

(** ** Marking an event read *)

(** [get_activity_by_id] changes the manager only by adding objects. *)
Lemma get_activity_by_id_with_objects (i : string) (m : t) :
  ∃ extra, (get_activity_by_id i m).2 = with_objects m (objects m ++ extra)%list.
Proof.
  unfold get_activity_by_id.
  assert (Hid : m = with_objects m (objects m ++ [])%list)
    by (rewrite app_nil_r; by destruct m).
  destruct (activity_cache m !! i); [by exists []|].
  destruct (RedisClient.get _ _) as [p|]; [|by exists []].
  destruct (payload_truthy p); [|by exists []].
  destruct (_deserialize_activity p) as [a|]; [|by exists []].
  by exists [a].
Qed.

(** X11.  Marking an existing event read, with the store answering:
    the call returns true, the object of the event has [read] set, the
    cache maps the id to that object, and the record stored under the id
    of the event is the event with [read] set, so that the mark survives
    the loss of the in-memory lists. *)
Theorem X11_mark_read_is_written_through (i user : string) (m : t) :
  store_reachable m → index_ok m → 0 < max_activities_redis m →
  event_exists i m →
  ∃ r a,
    (get_activity_by_id i m).1 = Some r
    ∧ objects (get_activity_by_id i m).2 !! r = Some a
    ∧ (mark_activity_read i user m).1 = true
    ∧ objects (mark_activity_read i user m).2 !! r = Some (set_read true a)
    ∧ activity_cache (mark_activity_read i user m).2 !! i = Some r
    ∧ stored (mark_activity_read i user m).2 (id a) = Some (set_read true a)
    ∧ stored (cleanup (mark_activity_read i user m).2) (id a) = Some (set_read true a).
Proof.
  intros (s & Hs & Hup) Hok Hn (r & a & Hr & Ha).
  exists r, a. split; [done|]. split; [done|].
  unfold mark_activity_read.
  destruct (get_activity_by_id_with_objects i m) as [extra Hm1].
  destruct (get_activity_by_id i m) as [o m1]. simpl in Hr, Ha, Hm1. subst o.
  rewrite Ha.
  destruct (redis m) as [o b] eqn:Hrm. simpl in Hs. subst o.
  assert (Hz : Redis.zset_at s list_key = Ok (index m)).
  { unfold index_ok, index, keyspace, Redis.zset_at in *. rewrite Hrm in *. simpl in *.
    destruct (Redis.db s !! list_key) as [[[p|z] t]|]; simpl in *; done. }
  set (m2 := with_cache _ _).
  assert (H2 : redis m2 = RedisClient.mk (Some s) b
               ∧ max_activities_redis m2 = max_activities_redis m
               ∧ objects m2 = <[r := set_read true a]> (objects m1)
               ∧ activity_cache m2 = <[i := r]> (activity_cache m1)).
  { subst m2. rewrite Hm1. simpl. done. }
  destruct H2 as (R1 & R2 & R3 & R4). clearbody m2.
  pose proof (_save_activity_to_redis_reachable (set_read true a) m2 s b (index m) R1 Hup Hz)
    as Hsave.
  rewrite R2 in Hsave. specialize (Hsave Hn).
  cbn [fst snd]. rewrite Hsave.
  split; [done|]. split; [|split; [|split]].
  - simpl. rewrite R3. apply list_lookup_insert_eq. by apply lookup_lt_Some in Ha.
  - simpl. rewrite R4. by rewrite lookup_insert_eq.
  - unfold stored, keyspace. simpl.
    rewrite lookup_insert_ne by (apply not_eq_sym, data_key_not_list_key).
    by rewrite lookup_insert_eq.
  - unfold stored, keyspace. simpl.
    rewrite lookup_insert_ne by (apply not_eq_sym, data_key_not_list_key).
    by rewrite lookup_insert_eq.
Qed.

Lemma X11_witness :
  store_reachable ex_one_append.1.1
  ∧ event_exists ex_id_1 ex_one_append.1.1
  ∧ ∃ r a,
      (get_activity_by_id ex_id_1 ex_one_append.1.1).1 = Some r
      ∧ objects (get_activity_by_id ex_id_1 ex_one_append.1.1).2 !! r = Some a
      ∧ (mark_activity_read ex_id_1 "alice" ex_one_append.1.1).1 = true
      ∧ objects (mark_activity_read ex_id_1 "alice" ex_one_append.1.1).2 !! r
        = Some (set_read true a)
      ∧ activity_cache (mark_activity_read ex_id_1 "alice" ex_one_append.1.1).2 !! ex_id_1
        = Some r
      ∧ stored (mark_activity_read ex_id_1 "alice" ex_one_append.1.1).2 (id a)
        = Some (set_read true a)
      ∧ stored (cleanup (mark_activity_read ex_id_1 "alice" ex_one_append.1.1).2) (id a)
        = Some (set_read true a).
Proof.
  assert (H1 : store_reachable ex_one_append.1.1).
  { eexists. split; [vm_compute; reflexivity|reflexivity]. }
  assert (H2 : event_exists ex_id_1 ex_one_append.1.1).
  { eexists _, _. split; [vm_compute; reflexivity|vm_compute; reflexivity]. }
  assert (H3 : index_ok ex_one_append.1.1).
  { apply (appends_store_inv 2 [ex_call "e1"] (ex_feed_up, None, ex_world)
             ex_one_append eq_refl).
    apply ex_feed_up_inv. }
  split; [exact H1|]. split; [exact H2|].
  apply (X11_mark_read_is_written_through ex_id_1 "alice" ex_one_append.1.1 H1 H3);
    [reflexivity|exact H2].
Defined.

(** ** [WebSocketManager]: the bookkeeping over every method *)

Module WSMore.
Import WebSocketManager.

Lemma disconnect_connections (k : string) (m : t) :
  connections (disconnect k m) = delete k (connections m).
Proof.
  destruct (connections m !! k) as [conn|] eqn:Hk.
  - by destruct (WSFacts.disconnect_live k conn m Hk) as (-> & _).
  - unfold disconnect. rewrite Hk. by rewrite delete_id.
Qed.

Lemma disconnect_cleanup_task (k : string) (m : t) :
  _cleanup_task m = false → _cleanup_task (disconnect k m) = false.
Proof.
  intros H. unfold disconnect. destruct (connections m !! k) as [conn|]; [|done].
  destruct (user_id conn) as [u|]; [destruct (truthy (Some u))|];
    cbn [_cleanup_task with_connections with_subscriptions with_user_connections];
    rewrite H, andb_false_r; done.
Qed.

Lemma disconnects_connections (l : list string) (m : t) :
  connections (foldl (fun m c => disconnect c m) m l)
  = foldl (fun d c => delete c d) (connections m) l.
Proof.
  revert m. induction l as [|c l IH]; intros m; [done|].
  cbn [foldl]. by rewrite IH, disconnect_connections.
Qed.

Lemma disconnects_registry_ok (l : list string) (m : t) :
  registry_ok m → registry_ok (foldl (fun m c => disconnect c m) m l).
Proof.
  revert m. induction l as [|c l IH]; intros m H; [done|].
  cbn [foldl]. by apply IH, WSFacts.disconnect_registry_ok.
Qed.

Lemma lookup_foldl_delete {A} (l : list string) (d : gmap string A) (k : string) :
  foldl (fun d c => delete c d) d l !! k = if decide (k ∈ l) then None else d !! k.
Proof.
  revert d. induction l as [|c l IH]; intros d; cbn [foldl].
  - by rewrite decide_False by apply not_elem_of_nil.
  - rewrite IH. destruct (decide (k ∈ l)) as [Hin|Hin].
    + by rewrite decide_True by (by right).
    + destruct (decide (k = c)) as [->|Hne].
      * rewrite decide_True by (by left). by rewrite lookup_delete_eq.
      * rewrite decide_False by (by intros [?|?]%elem_of_cons).
        by rewrite lookup_delete_ne.
Qed.

Lemma _send_to_connection_cases (c : string) (message : dict) (m : t) (w : World) :
  (_send_to_connection c message m w).1.2 = m
  ∨ (_send_to_connection c message m w).1.2 = disconnect c m.
Proof.
  unfold _send_to_connection. destruct (connections m !! c) as [conn|]; [|by left].
  destruct (now w) as [t w1]. destruct (send_text _ _ w1) as [[?|?] w2]; [by left|by right].
Qed.

Lemma _send_to_connection_registry_ok c message m w :
  registry_ok m → registry_ok (_send_to_connection c message m w).1.2.
Proof.
  intros H. destruct (_send_to_connection_cases c message m w) as [->| ->]; [done|].
  by apply WSFacts.disconnect_registry_ok.
Qed.

Lemma _send_to_connection_cleanup_task c message m w :
  _cleanup_task m = false → _cleanup_task (_send_to_connection c message m w).1.2 = false.
Proof.
  intros H. destruct (_send_to_connection_cases c message m w) as [->| ->]; [done|].
  by apply disconnect_cleanup_task.
Qed.

Lemma send_each_registry_ok l message n m w :
  registry_ok m → registry_ok (send_each l message n m w).1.2.
Proof.
  revert n m w. induction l as [|c l IH]; intros n m w H; [done|].
  cbn [send_each].
  pose proof (_send_to_connection_registry_ok c message m w H) as H1.
  destruct (_send_to_connection c message m w) as [[ok m1] w1]. by apply IH.
Qed.

Lemma send_each_cleanup_task l message n m w :
  _cleanup_task m = false → _cleanup_task (send_each l message n m w).1.2 = false.
Proof.
  revert n m w. induction l as [|c l IH]; intros n m w H; [done|].
  cbn [send_each].
  pose proof (_send_to_connection_cleanup_task c message m w H) as H1.
  destruct (_send_to_connection c message m w) as [[ok m1] w1]. by apply IH.
Qed.

(** Writing [last_ping] of a connection keeps the bookkeeping. *)
Lemma touch_registry_ok (c : string) (conn : WebSocketConnection) (t0 : Z) (m : t) :
  connections m !! c = Some conn → registry_ok m →
  registry_ok
    (with_connections m
       (<[c := mkConn (websocket conn) (user_id conn) (connection_id conn)
                 (connected_at conn) t0 (conn_subscriptions conn)]> (connections m))).
Proof.
  intros Hc (Hsub & Husr & Hinj). split; [|split]; simpl.
  - intros topic ids c' Hl Hin. destruct (Hsub _ _ _ Hl Hin) as (conn' & Hc' & Ht).
    destruct (decide (c' = c)) as [->|Hne].
    + rewrite lookup_insert_eq. eexists. split; [done|]. simpl. congruence.
    + rewrite lookup_insert_ne by done. eauto.
  - intros u ids c' Hl Hin. destruct (Husr _ _ _ Hl Hin) as (conn' & Hc' & Hu & Hne').
    destruct (decide (c' = c)) as [->|Hne].
    + rewrite lookup_insert_eq. eexists. split; [done|]. simpl. split; [congruence|done].
    + rewrite lookup_insert_ne by done. eauto.
  - intros c1 c2 k1 k2 H1 H2 Hw.
    assert (Hold : ∀ c0 k0, <[c := mkConn (websocket conn) (user_id conn)
                                     (connection_id conn) (connected_at conn) t0
                                     (conn_subscriptions conn)]> (connections m) !! c0
                            = Some k0 →
                            ∃ k0', connections m !! c0 = Some k0'
                                   ∧ websocket k0' = websocket k0).
    { intros c0 k0 [[<- <-]|[Hne H0]]%lookup_insert_Some; eauto. }
    destruct (Hold _ _ H1) as (k1' & H1' & E1). destruct (Hold _ _ H2) as (k2' & H2' & E2).
    apply (Hinj c1 c2 k1' k2' H1' H2'). congruence.
Qed.

Lemma handle_message_registry_ok c ty topic m w :
  registry_ok m → registry_ok (handle_message c ty topic m w).1.
Proof.
  intros H. unfold handle_message.
  destruct (connections m !! c) as [conn|] eqn:Hc; [|done].
  destruct (now w) as [t0 w1].
  pose proof (touch_registry_ok c conn t0 m Hc H) as H1.
  set (m1 := with_connections m _) in *. clearbody m1.
  destruct (decide (ty = Some "ping")).
  - destruct (now w1) as [t' w2].
    pose proof (_send_to_connection_registry_ok c
                  [("type", JStr "pong"); ("data", JObj [("timestamp", JInt t')])]
                  m1 w2 H1) as H2.
    by destruct (_send_to_connection _ _ m1 w2) as [[? ?] ?].
  - destruct (decide (ty = Some "subscribe")); [|done].
    destruct topic as [tp|]; [|done]. destruct (truthy (Some tp)); [|done].
    pose proof (WSFacts.subscribe_registry_ok c tp m1 H1) as H2.
    destruct (subscribe c tp m1) as [b m2]. simpl in H2.
    pose proof (_send_to_connection_registry_ok c
                  [("type", JStr "subscription_confirmed");
                   ("data", JObj [("topic", JStr tp)])] m2 w1 H2) as H3.
    by destruct (_send_to_connection _ _ m2 w1) as [[? ?] ?].
Qed.

(** The closing loop of [shutdown]. *)
Lemma shutdown_loop (l : list string) (m : t) (w : World) :
  (foldl shutdown_step (m, w) l).1 = foldl (fun m c => disconnect c m) m l.
Proof.
  revert m w. induction l as [|c l IH]; intros m w; [done|].
  cbn [foldl]. unfold shutdown_step at 2. apply IH.
Qed.

Lemma disconnects_cleanup_task (l : list string) (m : t) :
  _cleanup_task m = false → _cleanup_task (foldl (fun m c => disconnect c m) m l) = false.
Proof.
  revert m. induction l as [|c l IH]; intros m H; [done|].
  cbn [foldl]. by apply IH, disconnect_cleanup_task.
Qed.

Lemma shutdown_state (m : t) (w : World) :
  ∃ m1, (registry_ok m → registry_ok m1) ∧ _cleanup_task m1 = false
        ∧ (shutdown m w).1
          = foldl (fun m c => disconnect c m) m1 (elements (dom (connections m1))).
Proof.
  unfold shutdown.
  set (m0 := if _cleanup_task m then with_cleanup_task m false else m).
  assert (H0 : (registry_ok m → registry_ok m0) ∧ _cleanup_task m0 = false).
  { subst m0. destruct (_cleanup_task m) eqn:E; [|done]. split; [|done].
    intros (H1 & H2 & H3). split; [|split]; done. }
  destruct H0 as [H0 T0]. clearbody m0.
  unfold broadcast.
  pose proof (λ H, send_each_registry_ok (elements (dom (connections m0)))
                [("type", JStr "server_shutdown");
                 ("data", JObj [("message", JStr "Serveur en cours d'arrêt")])]
                0 m0 w (H0 H)) as H1.
  pose proof (send_each_cleanup_task (elements (dom (connections m0)))
                [("type", JStr "server_shutdown");
                 ("data", JObj [("message", JStr "Serveur en cours d'arrêt")])]
                0 m0 w T0) as T1.
  destruct (send_each _ _ _ m0 w) as [[n m1] w1]. simpl in H1, T1.
  exists m1. split; [done|]. split; [done|]. apply (shutdown_loop _ m1 w1).
Qed.

End WSMore.

(** X12.  The bookkeeping invariant of [WebSocketManager] (a member of a
    topic or of a user's set is a live connection that records it, and no
    two connections share a transport) is kept by every method other than
    [connect]: disconnecting, subscribing, every kind of send and
    broadcast, handling a client message, sweeping expired connections
    and shutting down. *)
Theorem X12_registry_invariant_is_kept (m : WebSocketManager.t) (w : World) :
  registry_ok m →
  (∀ c, registry_ok (WebSocketManager.disconnect c m))
  ∧ (∀ c topic, registry_ok (WebSocketManager.subscribe c topic m).2)
  ∧ (∀ c msg, registry_ok (WebSocketManager._send_to_connection c msg m w).1.2)
  ∧ (∀ u msg, registry_ok (WebSocketManager.send_to_user u msg m w).1.2)
  ∧ (∀ msg, registry_ok (WebSocketManager.broadcast msg m w).1.2)
  ∧ (∀ topic msg, registry_ok (WebSocketManager.broadcast_to_topic topic msg m w).1.2)
  ∧ (∀ c ty topic, registry_ok (WebSocketManager.handle_message c ty topic m w).1)
  ∧ registry_ok (WebSocketManager._cleanup_connections_once m w).1
  ∧ registry_ok (WebSocketManager.shutdown m w).1.
Proof.
  intros H.
  split; [intros c; by apply WSFacts.disconnect_registry_ok|].
  split; [intros c topic; by apply WSFacts.subscribe_registry_ok|].
  split; [intros c msg; by apply WSMore._send_to_connection_registry_ok|].
  split.
  { intros u msg. unfold WebSocketManager.send_to_user.
    destruct (WebSocketManager.user_connections m !! u); [|done].
    by apply WSMore.send_each_registry_ok. }
  split; [intros msg; by apply WSMore.send_each_registry_ok|].
  split.
  { intros topic msg. unfold WebSocketManager.broadcast_to_topic.
    destruct (WebSocketManager.subscriptions m !! topic); [|done].
    by apply WSMore.send_each_registry_ok. }
  split; [intros c ty topic; by apply WSMore.handle_message_registry_ok|].
  split.
  - unfold WebSocketManager._cleanup_connections_once. destruct (now w) as [t0 w1].
    simpl. by apply WSMore.disconnects_registry_ok.
  - destruct (WSMore.shutdown_state m w) as (m1 & H1 & _ & ->).
    apply WSMore.disconnects_registry_ok. by apply H1.
Qed.

Lemma X12_witness :
  registry_ok ex_registry
  ∧ registry_ok (WebSocketManager.shutdown ex_registry ex_registry_world).1
  ∧ registry_ok (WebSocketManager._cleanup_connections_once ex_registry
                   ex_registry_world).1.
Proof.
  split; [exact ex_registry_ok|].
  destruct (X12_registry_invariant_is_kept ex_registry ex_registry_world ex_registry_ok)
    as (_ & _ & _ & _ & _ & _ & _ & H1 & H2).
  split; [exact H2|exact H1].
Defined.

(** X13.  One sweep of [_cleanup_connections]: a connection whose last
    ping is older than the timeout is removed, and belongs to no topic
    afterwards when the bookkeeping was in order; a connection whose last
    ping is more recent than the threshold is kept as it was; no connection
    is added. *)
Theorem X13_sweep_removes_the_expired_connections (m : WebSocketManager.t) (w : World) :
  let threshold := (now w).1 - WebSocketManager.connection_timeout m * 1000000 in
  let m' := (WebSocketManager._cleanup_connections_once m w).1 in
  (∀ c conn, WebSocketManager.connections m !! c = Some conn →
     WebSocketManager.last_ping conn < threshold →
     WebSocketManager.connections m' !! c = None
     ∧ (registry_ok m →
        ∀ topic ids, WebSocketManager.subscriptions m' !! topic = Some ids → c ∉ ids))
  ∧ (∀ c conn, WebSocketManager.connections m !! c = Some conn →
       threshold < WebSocketManager.last_ping conn →
       WebSocketManager.connections m' !! c = Some conn)
  ∧ (∀ c, WebSocketManager.connections m !! c = None →
          WebSocketManager.connections m' !! c = None).
Proof.
  intros threshold m'. subst threshold m'.
  unfold WebSocketManager._cleanup_connections_once.
  destruct (now w) as [t0 w1]. cbn [fst snd].
  set (thr := t0 - WebSocketManager.connection_timeout m * 1000000).
  set (expired := (filter _ _).*1).
  assert (Hexp : ∀ c, c ∈ expired ↔ ∃ conn, WebSocketManager.connections m !! c = Some conn
                                           ∧ WebSocketManager.last_ping conn < thr).
  { intros c. subst expired. rewrite list_elem_of_fmap. split.
    - intros ([c' conn] & -> & [Hlt Hin%elem_of_map_to_list]%list_elem_of_filter). eauto.
    - intros (conn & Hc & Hlt). exists (c, conn). split; [done|].
      apply list_elem_of_filter. split; [done|]. by apply elem_of_map_to_list. }
  split; [|split].
  - intros c conn Hc Hlt.
    assert (Hgone : WebSocketManager.connections
                      (foldl (fun m c => WebSocketManager.disconnect c m) m expired) !! c
                    = None).
    { rewrite WSMore.disconnects_connections, WSMore.lookup_foldl_delete.
      rewrite decide_True; [done|]. apply Hexp. eauto. }
    split; [exact Hgone|].
    intros Hok topic ids Hl Hin.
    destruct (WSMore.disconnects_registry_ok expired m Hok) as (Hsub & _).
    destruct (Hsub topic ids c Hl Hin) as (conn' & Hc' & _). congruence.
  - intros c conn Hc Hlt.
    rewrite WSMore.disconnects_connections, WSMore.lookup_foldl_delete.
    rewrite decide_False; [done|]. intros (conn' & Hc' & Hlt')%Hexp.
    assert (conn' = conn) by congruence. subst. lia.
  - intros c Hc.
    rewrite WSMore.disconnects_connections, WSMore.lookup_foldl_delete.
    by destruct (decide _).
Qed.

Module WSShutdown.
Import WebSocketManager.

(** The closing loop over connections whose transports do not raise: each
    transport ends [DISCONNECTED], with what it had received. *)
Lemma close_loop (l : list string) (m : t) (w : World) :
  NoDup l →
  (∀ c1 c2 k1 k2, connections m !! c1 = Some k1 → connections m !! c2 = Some k2 →
                  websocket k1 = websocket k2 → c1 = c2) →
  (∀ c, c ∈ l → ∃ conn k, connections m !! c = Some conn
                          ∧ sockets w !! websocket conn = Some k ∧ broken k = false) →
  (∀ c conn, c ∈ l → connections m !! c = Some conn →
     ∃ k, sockets w !! websocket conn = Some k
          ∧ sockets (foldl shutdown_step (m, w) l).2 !! websocket conn
            = Some (mkWebSocket DISCONNECTED (accepted k) (broken k) (outbox k)
                      (attempts k)))
  ∧ (∀ ws, (∀ c conn, c ∈ l → connections m !! c = Some conn → websocket conn ≠ ws) →
           sockets (foldl shutdown_step (m, w) l).2 !! ws = sockets w !! ws).
Proof.
  revert m w. induction l as [|c l IH]; intros m w Hnd Hinj Hall.
  - split; [by intros c conn Hin%elem_of_nil|done].
  - apply NoDup_cons in Hnd as [Hc Hnd].
    destruct (Hall c) as (conn & k & Hconn & Hk & Hb); [by left|].
    cbn [foldl]. unfold shutdown_step at 2 4. rewrite Hconn.
    unfold close. rewrite Hk, Hb. cbn [snd].
    set (w1 := with_sockets w _).
    set (m1 := disconnect c m).
    assert (Hm1 : ∀ c', c' ≠ c → connections m1 !! c' = connections m !! c').
    { intros c' Hne. subst m1. rewrite WSMore.disconnect_connections.
      by rewrite lookup_delete_ne. }
    assert (Hm1' : ∀ c' conn', connections m1 !! c' = Some conn' →
                               c' ≠ c ∧ connections m !! c' = Some conn').
    { intros c' conn'. subst m1. rewrite WSMore.disconnect_connections.
      intros [? ?]%lookup_delete_Some. done. }
    assert (Hw1 : ∀ ws, ws ≠ websocket conn → sockets w1 !! ws = sockets w !! ws).
    { intros ws Hne. subst w1. simpl. by rewrite lookup_insert_ne. }
    destruct (IH m1 w1 Hnd) as [I1 I2].
    { intros c1 c2 k1 k2 [_ H1]%Hm1' [_ H2]%Hm1'. by apply Hinj. }
    { intros c' Hin. destruct (Hall c') as (conn' & k' & Hconn' & Hk' & Hb'); [by right|].
      assert (Hne : c' ≠ c) by (intros ->; done).
      exists conn', k'. rewrite Hm1 by done. split; [done|]. split; [|done].
      rewrite Hw1; [done|]. intros Heq. apply Hne. by apply (Hinj c' c conn' conn). }
    split.
    + intros c' conn' [->|Hin]%elem_of_cons Hconn'.
      * assert (conn' = conn) by congruence. subst conn'. exists k. split; [done|].
        rewrite I2.
        -- subst w1. simpl. rewrite lookup_insert_eq, ?Hb. done.
        -- intros c2 conn2 Hin2 [Hne2 Hconn2]%Hm1' Heq. apply Hne2.
           by apply (Hinj c2 c conn2 conn).
      * assert (Hne : c' ≠ c) by (intros ->; done).
        destruct (I1 c' conn' Hin) as (k' & Hk' & Hfin); [by rewrite Hm1|].
        exists k'. split; [|done]. rewrite <- Hk'. symmetry. apply Hw1.
        intros Heq. apply Hne. by apply (Hinj c' c conn' conn).
    + intros ws Hws. rewrite I2.
      * apply Hw1. intros ->. apply (Hws c conn); [by left|done|done].
      * intros c2 conn2 Hin2 [Hne2 Hconn2]%Hm1'. apply (Hws c2 conn2); [by right|done].
Qed.

End WSShutdown.

(** X14.  [shutdown] leaves no connection and no sweeping task; when the
    bookkeeping was in order no topic and no user keeps a member; and when,
    moreover, every transport is healthy, each connection receives the
    shutdown message exactly once, in one send, and its transport is then
    closed. *)
Theorem X14_shutdown_closes_every_connection (m : WebSocketManager.t) (w : World) :
  let res := WebSocketManager.shutdown m w in
  WebSocketManager.connections res.1 = ∅
  ∧ WebSocketManager._cleanup_task res.1 = false
  ∧ (registry_ok m →
     (∀ topic ids, WebSocketManager.subscriptions res.1 !! topic = Some ids → ids = ∅)
     ∧ (∀ u ids, WebSocketManager.user_connections res.1 !! u = Some ids → ids = ∅)
     ∧ ((∀ c conn, WebSocketManager.connections m !! c = Some conn →
                   healthy w (WebSocketManager.websocket conn)) →
        ∀ c conn, WebSocketManager.connections m !! c = Some conn →
          ∃ k t, sockets w !! WebSocketManager.websocket conn = Some k
                 ∧ sockets res.2 !! WebSocketManager.websocket conn
                   = Some (mkWebSocket DISCONNECTED (accepted k) (broken k)
                             (outbox k ++ [frame_for shutdown_message t c])
                             (S (attempts k))))).
Proof.
  intros res. subst res.
  destruct (WSMore.shutdown_state m w) as (m1 & Hok1 & T1 & E).
  assert (Hconn : WebSocketManager.connections (WebSocketManager.shutdown m w).1 = ∅).
  { rewrite E, WSMore.disconnects_connections. apply map_eq. intros c.
    rewrite WSMore.lookup_foldl_delete, lookup_empty.
    destruct (decide _) as [|Hn]; [done|].
    apply not_elem_of_dom. by rewrite <- elem_of_elements. }
  split; [exact Hconn|]. split; [rewrite E; by apply WSMore.disconnects_cleanup_task|].
  intros Hok.
  assert (Hok' : registry_ok (WebSocketManager.shutdown m w).1).
  { rewrite E. apply WSMore.disconnects_registry_ok. by apply Hok1. }
  destruct Hok' as (Hsub & Husr & _).
  split; [|split].
  - intros topic ids Hl. apply set_eq. intros c. split; [|set_solver].
    intros Hin. destruct (Hsub topic ids c Hl Hin) as (conn & Hc & _).
    by rewrite Hconn, lookup_empty in Hc.
  - intros u ids Hl. apply set_eq. intros c. split; [|set_solver].
    intros Hin. destruct (Husr u ids c Hl Hin) as (conn & Hc & _).
    by rewrite Hconn, lookup_empty in Hc.
  - intros Hh c conn Hc. clear E Hconn Hsub Husr Hok1 T1 m1.
    unfold WebSocketManager.shutdown.
    set (m0 := if WebSocketManager._cleanup_task m then _ else m).
    assert (H0 : WebSocketManager.connections m0 = WebSocketManager.connections m)
      by (subst m0; by destruct (WebSocketManager._cleanup_task m)).
    destruct Hok as (_ & _ & Hinj).
    unfold WebSocketManager.broadcast.
    destruct (WSBroadcast.send_each_healthy
                (elements (dom (WebSocketManager.connections m0))) shutdown_message 0 m0 w)
      as (w1 & Es & Hdel & Hrest).
    { apply NoDup_elements. }
    { rewrite H0. exact Hinj. }
    { intros j Hj%elem_of_elements%elem_of_dom. rewrite H0 in Hj |- *.
      destruct Hj as [cj Hcj]. exists cj. split; [done|]. by apply (Hh j). }
    fold shutdown_message. rewrite Es.
    change (foldl _ (m0, w1) ?l) with (foldl shutdown_step (m0, w1) l).
    assert (Hin : c ∈ elements (dom (WebSocketManager.connections m0))).
    { apply elem_of_elements, elem_of_dom. rewrite H0. eauto. }
    destruct (Hdel c conn Hin) as (t & k & Hk & Hk1); [by rewrite H0|].
    destruct (WSShutdown.close_loop (elements (dom (WebSocketManager.connections m0)))
                m0 w1) as [Hclose _].
    { apply NoDup_elements. }
    { rewrite H0. exact Hinj. }
    { intros j Hj%elem_of_elements%elem_of_dom. rewrite H0 in Hj |- *.
      destruct Hj as [cj Hcj]. destruct (Hdel j cj) as (tj & kj & Hkj & Hkj1).
      - apply elem_of_elements, elem_of_dom. rewrite H0. eauto.
      - by rewrite H0.
      - exists cj. eexists. split; [done|]. split; [exact Hkj1|]. simpl.
        destruct (Hh j cj Hcj) as (k' & Hk' & Hb' & _). congruence. }
    destruct (Hclose c conn Hin) as (k1 & Hk1' & Hfin); [by rewrite H0|].
    exists k, t. split; [done|]. rewrite Hfin.
    rewrite Hk1 in Hk1'. injection Hk1' as <-. done.
Qed.

Lemma X14_witness :
  registry_ok ex_registry
  ∧ (∀ c conn, WebSocketManager.connections ex_registry !! c = Some conn →
               healthy ex_open_world (WebSocketManager.websocket conn))
  ∧ ∃ k t, sockets ex_open_world !! 1%nat = Some k
           ∧ sockets (WebSocketManager.shutdown ex_registry ex_open_world).2 !! 1%nat
             = Some (mkWebSocket DISCONNECTED (accepted k) (broken k)
                       (outbox k ++ [frame_for shutdown_message t "a"])
                       (S (attempts k))).
Proof.
  assert (Hh : ∀ c conn, WebSocketManager.connections ex_registry !! c = Some conn →
                         healthy ex_open_world (WebSocketManager.websocket conn)).
  { intros c conn Hc. simpl in Hc.
    repeat (apply lookup_insert_Some in Hc as [[<- <-]|[? Hc]]);
      try (by rewrite lookup_empty in Hc);
      eexists; (split; [reflexivity|]); split; reflexivity. }
  split; [exact ex_registry_ok|]. split; [exact Hh|].
  destruct (X14_shutdown_closes_every_connection ex_registry ex_open_world)
    as (_ & _ & H).
  destruct (H ex_registry_ok) as (_ & _ & H').
  exact (H' Hh "a" (ex_conn "a" 1) eq_refl).
Defined.

(** ** [WebSocketManager.connect] *)

(** X15.  [connect] on a transport that raises on [accept] raises and
    registers nothing.  Otherwise it returns the new id (made of the clock
    in milliseconds and of the first 8 hex digits of a uuid), the transport
    is accepted, the connection is recorded with no subscription and under
    its user, the acknowledgement reaches the peer exactly once, and the
    bookkeeping invariant is kept when the id is new and the transport is
    not already in use. *)
Theorem X15_connect_registers_and_acknowledges
    (ws : nat) (user : option string) (m : WebSocketManager.t) (w : World) (k : WebSocket) :
  sockets w !! ws = Some k →
  (broken k = true → WebSocketManager.connect ws user m w = Raise WebSocketError)
  ∧ (broken k = false →
     ∃ cid t t' m' w',
       WebSocketManager.connect ws user m w = Ok (cid, m', w')
       ∧ cid = "ws_" +:+ pretty (Z.quot (wall w (ticks w)) 1000) +:+ "_"
               +:+ String.substring 0 8 (uuids w (drawn w))
       ∧ WebSocketManager.connections m'
         = <[cid := WebSocketManager.mkConn ws user cid t t ∅]>
             (WebSocketManager.connections m)
       ∧ WebSocketManager.subscriptions m' = WebSocketManager.subscriptions m
       ∧ (∀ u, user = Some u → u ≠ "" →
            ∃ ids, WebSocketManager.user_connections m' !! u = Some ids ∧ cid ∈ ids)
       ∧ sockets w' !! ws
         = Some (mkWebSocket CONNECTED true false
                   (outbox k ++ [frame_for (connection_established cid user t) t' cid])
                   (S (attempts k)))
       ∧ (registry_ok m → WebSocketManager.connections m !! cid = None →
          (∀ c conn, WebSocketManager.connections m !! c = Some conn →
                     WebSocketManager.websocket conn ≠ ws) →
          registry_ok m')).
Proof.
  intros Hk. unfold WebSocketManager.connect, accept. rewrite Hk. split.
  - intros ->. done.
  - intros Hb. rewrite Hb. cbn [mbind result_bind].
    unfold time_ms, now, uuid4. cbn [wall ticks uuids drawn sockets with_sockets].
    set (cid := "ws_" +:+ _ +:+ "_" +:+ _).
    set (t := wall w (S (ticks w))).
    set (conn := WebSocketManager.mkConn ws user cid t t ∅).
    set (w2 := mkWorld _ _ _ _ _).
    set (m1 := WebSocketManager.with_connections m _).
    set (m2 := match user with Some _ => _ | None => m1 end).
    set (m3 := if _ && _ then _ else m2).
    assert (H3 : WebSocketManager.connections m3
                 = <[cid := conn]> (WebSocketManager.connections m)
                 ∧ WebSocketManager.subscriptions m3 = WebSocketManager.subscriptions m
                 ∧ WebSocketManager.user_connections m3
                   = match user with
                     | Some u =>
                         if truthy user
                         then <[u := {[cid]} ∪ default ∅ (WebSocketManager.user_connections m !! u)]>
                                (WebSocketManager.user_connections m)
                         else WebSocketManager.user_connections m
                     | None => WebSocketManager.user_connections m
                     end).
    { subst m3. destruct (_ && _); subst m2;
        (destruct user as [u|]; [destruct (truthy (Some u))|]); done. }
    destruct H3 as (C3 & S3 & U3). clearbody m3. clear m2 m1.
    destruct (WSBroadcast.send_healthy cid conn (connection_established cid user t) m3 w2)
      as (w' & E & (k' & Hk' & Hd) & _).
    { rewrite C3. by rewrite lookup_insert_eq. }
    { eexists. subst w2. simpl. rewrite lookup_insert_eq. done. }
    unfold connection_established in E. rewrite E.
    exists cid, t, (wall w2 (ticks w2)), m3, w'.
    split; [done|]. split; [done|]. split; [done|]. split; [done|].
    split; [|split].
    + intros u -> Hu. rewrite U3.
      assert (Ht : truthy (Some u) = true) by (simpl; by apply negb_true_iff, String.eqb_neq).
      rewrite Ht. rewrite lookup_insert_eq. eexists. split; [done|]. set_solver.
    + simpl in Hd. rewrite Hd. subst w2. simpl in Hk'. rewrite lookup_insert_eq in Hk'.
      injection Hk' as <-. done.
    + intros (Hsub & Husr & Hinj) Hnew Hfree. split; [|split].
      * intros topic ids c Hl Hin. rewrite S3 in Hl.
        destruct (Hsub topic ids c Hl Hin) as (conn' & Hc' & Ht).
        exists conn'. split; [|done]. rewrite C3.
        rewrite lookup_insert_ne; [done|]. intros <-. congruence.
      * intros u ids c Hl Hin. rewrite U3 in Hl. rewrite C3.
        assert (Hold : WebSocketManager.user_connections m !! u = Some ids →
                       ∃ conn0, <[cid := conn]> (WebSocketManager.connections m) !! c
                                = Some conn0
                                ∧ WebSocketManager.user_id conn0 = Some u ∧ u ≠ "").
        { intros Hl0. destruct (Husr u ids c Hl0 Hin) as (conn' & Hc' & Hu').
          exists conn'. split; [|done].
          rewrite lookup_insert_ne; [done|]. intros <-. congruence. }
        destruct user as [u0|]; [|by apply Hold].
        destruct (truthy (Some u0)) eqn:Ht; [|by apply Hold].
        apply lookup_insert_Some in Hl as [[<- <-]|[Hne Hl]]; [|by apply Hold].
        apply elem_of_union in Hin as [->%elem_of_singleton|Hin].
        -- exists conn. rewrite lookup_insert_eq. split; [done|]. split; [done|].
           simpl in Ht. intros ->. done.
        -- destruct (WebSocketManager.user_connections m !! u0) as [s|] eqn:Es;
             [|by apply elem_of_empty in Hin].
           simpl in Hin. destruct (Husr u0 s c Es Hin) as (conn' & Hc' & Hu').
           exists conn'. split; [|done].
           rewrite lookup_insert_ne; [done|]. intros <-. congruence.
      * intros c1 c2 k1 k2. rewrite C3.
        intros [[<- <-]|[Hn1 H1]]%lookup_insert_Some [[<- <-]|[Hn2 H2]]%lookup_insert_Some;
          simpl; intros Hw.
        -- done.
        -- exfalso. by apply (Hfree c2 k2).
        -- exfalso. by apply (Hfree c1 k1).
        -- by apply (Hinj c1 c2 k1 k2).
Qed.

Lemma X15_witness :
  sockets ex_world !! 1%nat = Some ex_socket
  ∧ ∃ cid t t' m' w',
      WebSocketManager.connect 1 (Some "alice") WebSocketManager.__init__ ex_world
      = Ok (cid, m', w')
      ∧ WebSocketManager.connections m'
        = <[cid := WebSocketManager.mkConn 1 (Some "alice") cid t t ∅]> ∅
      ∧ sockets w' !! 1%nat
        = Some (mkWebSocket CONNECTED true false
                  [frame_for (connection_established cid (Some "alice") t) t' cid] 1).
Proof.
  split; [reflexivity|].
  destruct (X15_connect_registers_and_acknowledges 1 (Some "alice")
              WebSocketManager.__init__ ex_world ex_socket eq_refl) as [_ H].
  destruct (H eq_refl) as (cid & t & t' & m' & w' & E & _ & C & _ & _ & S & _).
  exists cid, t, t', m', w'. split; [exact E|]. split; [exact C|exact S].
Defined.

(** ** [WebSocketManager.handle_message] *)

(** X16.  A client message on a live connection with a healthy transport
    records the time of the message as the last ping.  A ["ping"] is
    answered by one ["pong"]; a ["subscribe"] with a topic subscribes the
    connection to the topic and is confirmed once; any other message sends
    nothing and changes nothing else.  A message for an unknown connection
    is ignored. *)
Theorem X16_handle_message_ping_and_subscribe
    (c : string) (ty topic : option string) (m : WebSocketManager.t) (w : World)
    (conn : WebSocketManager.WebSocketConnection) :
  WebSocketManager.connections m !! c = Some conn →
  healthy w (WebSocketManager.websocket conn) →
  let t := wall w (ticks w) in
  let touched :=
    WebSocketManager.mkConn (WebSocketManager.websocket conn) (WebSocketManager.user_id conn)
      (WebSocketManager.connection_id conn) (WebSocketManager.connected_at conn) t
      (WebSocketManager.conn_subscriptions conn) in
  let res := WebSocketManager.handle_message c ty topic m w in
  (ty = Some "ping" →
   res.1 = WebSocketManager.with_connections m
             (<[c := touched]> (WebSocketManager.connections m))
   ∧ ∃ t1 t2, delivered_once w res.2 (WebSocketManager.websocket conn)
                (frame_for [("type", JStr "pong"); ("data", JObj [("timestamp", JInt t1)])]
                   t2 c))
  ∧ (∀ tp, ty = Some "subscribe" → topic = Some tp → tp ≠ "" →
       (∃ ids, WebSocketManager.subscriptions res.1 !! tp = Some ids ∧ c ∈ ids)
       ∧ (∃ conn', WebSocketManager.connections res.1 !! c = Some conn'
                   ∧ tp ∈ WebSocketManager.conn_subscriptions conn'
                   ∧ WebSocketManager.last_ping conn' = t)
       ∧ ∃ t2, delivered_once w res.2 (WebSocketManager.websocket conn)
                 (frame_for [("type", JStr "subscription_confirmed");
                             ("data", JObj [("topic", JStr tp)])] t2 c))
  ∧ (ty ≠ Some "ping" → (ty ≠ Some "subscribe" ∨ truthy topic = false) →
     res.1 = WebSocketManager.with_connections m
               (<[c := touched]> (WebSocketManager.connections m))
     ∧ sockets res.2 = sockets w)
  ∧ (∀ c', WebSocketManager.connections m !! c' = None →
           WebSocketManager.handle_message c' ty topic m w = (m, w)).
Proof.
  intros Hc Hh t touched res. subst res.
  split; [|split; [|split]].
  4:{ intros c' Hc'. unfold WebSocketManager.handle_message. by rewrite Hc'. }
  all: unfold WebSocketManager.handle_message; rewrite Hc;
    destruct (now w) as [t0 w1] eqn:En;
    assert (Ht0 : t0 = t ∧ sockets w1 = sockets w)
      by (unfold now in En; injection En as <- <-; done);
    destruct Ht0 as [-> Hs1]; fold touched;
    set (m1 := WebSocketManager.with_connections m _);
    assert (Hh1 : healthy w1 (WebSocketManager.websocket conn))
      by (unfold healthy; by rewrite Hs1);
    assert (Hdel : ∀ w' f, delivered_once w1 w' (WebSocketManager.websocket conn) f →
                           delivered_once w w' (WebSocketManager.websocket conn) f)
      by (intros w' f; unfold delivered_once; by rewrite Hs1);
    clear En.
  - intros ->. rewrite decide_True by done.
    destruct (now w1) as [t1 w2] eqn:En1.
    assert (Hs2 : sockets w2 = sockets w1)
      by (unfold now in En1; injection En1 as <- <-; done).
    destruct (WSBroadcast.send_healthy c touched
                [("type", JStr "pong"); ("data", JObj [("timestamp", JInt t1)])]
                m1 w2) as (w' & E & Hd & _).
    { subst m1. simpl. by rewrite lookup_insert_eq. }
    { unfold healthy. by rewrite Hs2. }
    rewrite E. split; [done|]. eexists _, _. apply Hdel.
    unfold delivered_once in *. rewrite <- Hs2. exact Hd.
  - intros tp -> -> Htp. rewrite decide_False by done. rewrite decide_True by done.
    assert (Ht : truthy (Some tp) = true) by (simpl; by apply negb_true_iff, String.eqb_neq).
    rewrite Ht. unfold WebSocketManager.subscribe.
    assert (Hc1 : WebSocketManager.connections m1 !! c = Some touched).
    { subst m1. simpl. by rewrite lookup_insert_eq. }
    rewrite Hc1.
    set (conn2 := WebSocketManager.mkConn _ _ _ _ _ _).
    set (m2 := WebSocketManager.with_subscriptions _ _).
    destruct (WSBroadcast.send_healthy c conn2
                [("type", JStr "subscription_confirmed"); ("data", JObj [("topic", JStr tp)])]
                m2 w1) as (w' & E & Hd & _).
    { subst m2. simpl. by rewrite lookup_insert_eq. }
    { exact Hh1. }
    rewrite E. cbn [fst snd]. split; [|split].
    + subst m2. simpl. rewrite lookup_insert_eq. eexists. split; [done|]. set_solver.
    + exists conn2. subst m2. simpl. rewrite lookup_insert_eq. split; [done|].
      split; [|done]. subst conn2. simpl. set_solver.
    + eexists. apply Hdel. exact Hd.
  - intros Hp Hs. rewrite decide_False by done.
    destruct (decide (ty = Some "subscribe")) as [->|Hns]; [|done].
    destruct Hs as [Hs|Hs]; [done|].
    destruct topic as [tp|]; [|done]. by rewrite Hs.
Qed.

Lemma X16_witness :
  WebSocketManager.connections ex_registry !! "a" = Some (ex_conn "a" 1)
  ∧ healthy ex_registry_world 1
  ∧ ∃ t1 t2,
      delivered_once ex_registry_world
        (WebSocketManager.handle_message "a" (Some "ping") None ex_registry
           ex_registry_world).2 1
        (frame_for [("type", JStr "pong"); ("data", JObj [("timestamp", JInt t1)])] t2 "a").
Proof.
  assert (Hh : healthy ex_registry_world 1).
  { eexists. split; [reflexivity|]. split; reflexivity. }
  split; [reflexivity|]. split; [exact Hh|].
  destruct (X16_handle_message_ping_and_subscribe "a" (Some "ping") None ex_registry
              ex_registry_world (ex_conn "a" 1) eq_refl Hh) as [H _].
  destruct (H eq_refl) as [_ H']. exact H'.
Defined.

(** ** [ConnectionManager]: what the three mutually recursive methods keep *)

Module CMInv.
Import ConnectionManager.

Lemma foldl_none {X} (step : X → t → World → option (t * World)) (l : list X) :
  foldl (fun st x => '(m, w) ← st; step x m w) None l = None.
Proof. induction l as [|x l IH]; [done|]. exact IH. Qed.

Lemma foldl_preserves {X} (P : t → Prop) (step : X → t → World → option (t * World))
    (l : list X) (m : t) (w : World) m' w' :
  (∀ x m w m' w', step x m w = Some (m', w') → P m → P m') →
  foldl (fun st x => '(m, w) ← st; step x m w) (Some (m, w)) l = Some (m', w') →
  P m → P m'.
Proof.
  intros Hstep. revert m w. induction l as [|x l IH]; intros m w E Hm.
  - simpl in E. by simplify_eq.
  - cbn [foldl] in E. cbn [mbind option_bind] in E.
    destruct (step x m w) as [[m1 w1]|] eqn:E1.
    + apply (IH m1 w1 E). by apply (Hstep x m w m1 w1).
    + by rewrite foldl_none in E.
Qed.

(** One unfolding of [disconnect]. *)
Lemma disconnect_S (f : nat) (cid : string) (m : t) (w : World) :
  disconnect (S f) cid m w
  = let m1 := with_active (with_groups m ((fun g => g ∖ {[cid]}) <$> connection_groups m))
                (delete cid (active_connections m)) in
    let '(m2, w2) :=
      match connection_metadata m1 !! cid with
      | Some _ =>
          let '(_, w) := now w in
          (with_metadata m1 (delete cid (connection_metadata m1)), w)
      | None => (m1, w)
      end in
    if bool_decide (0 < size (active_connections m2))%nat then
      let '(goodbye_message, w3) :=
        new_message SYSTEM_STATUS
          [("status", JStr "user_disconnected");
           ("connection_id", JStr cid);
           ("total_users", JInt (Z.of_nat (size (active_connections m2))))]
          "low" None (Some 2) w2 in
      broadcast_to_group f "admin" goodbye_message [] m2 w3
    else Some (m2, w2).
Proof. reflexivity. Qed.

Section preserved.
Variable P : t → Prop.
Hypothesis P_meta : ∀ m cid md md',
  P m → connection_metadata m !! cid = Some md →
  P (with_metadata m (<[cid := md']> (connection_metadata m))).
Hypothesis P_leave : ∀ m cid,
  P m →
  P (with_active (with_groups m ((fun g => g ∖ {[cid]}) <$> connection_groups m))
       (delete cid (active_connections m))).
Hypothesis P_forget : ∀ m cid,
  P m → P (with_metadata m (delete cid (connection_metadata m))).
Hypothesis P_hist : ∀ m msg, P m → P (_add_to_history msg m).

(** A property kept by the four elementary updates is kept by the three
    methods, whatever they cascade into. *)
Lemma preserved (f : nat) :
  (∀ msg cid m w m' w', send_personal_message f msg cid m w = Some (m', w') → P m → P m')
  ∧ (∀ cid m w m' w', disconnect f cid m w = Some (m', w') → P m → P m')
  ∧ (∀ g msg ex m w m' w', broadcast_to_group f g msg ex m w = Some (m', w') → P m → P m').
Proof.
  induction f as [|f (IHs & IHd & IHb)]; [by split; [|split]|].
  split; [|split].
  - intros msg cid m w m' w'. simpl.
    destruct (active_connections m !! cid) as [ws|]; [|by intros [= <- <-]].
    destruct (sockets w !! ws) as [k|]; [|apply IHd].
    destruct (decide (client_state k = CONNECTED)); [|apply IHd].
    destruct (send_text ws (to_json msg) w) as [[[]|err] w1]; [|apply IHd].
    destruct (connection_metadata m !! cid) as [md|] eqn:Em; [|by intros [= <- <-]].
    destruct (now w1). intros [= <- <-] Hm. by eapply P_meta.
  - intros cid m w m' w'. rewrite disconnect_S. cbv zeta.
    set (m1 := with_active (with_groups m _) _).
    intros E Hm. assert (H1 : P m1) by (by apply P_leave). clearbody m1.
    set (st := match connection_metadata m1 !! cid with Some _ => _ | None => _ end) in E.
    assert (Hst : P st.1).
    { subst st. destruct (connection_metadata m1 !! cid); [|done].
      destruct (now w) as [t0 w0]. by apply P_forget. }
    clearbody st. destruct st as [m2 w2]. simpl in Hst.
    destruct (bool_decide _); [|by simplify_eq].
    destruct (new_message _ _ _ _ _ w2) as [bye w3].
    by apply (IHb _ _ _ _ _ _ _ E).
  - intros g msg ex m w m' w'. simpl.
    destruct (connection_groups m !! g) as [members|]; [|by intros [= <- <-]].
    destruct (decide (members ∖ list_to_set ex = ∅)); [by intros [= <- <-]|].
    intros E Hm.
    apply (foldl_preserves P (send_personal_message f msg) _ _ _ _ _ (IHs msg) E).
    by apply P_hist.
Qed.
End preserved.

End CMInv.

Module CMMore.
Import ConnectionManager.

Lemma forgotten_preserved (c : string) (f : nat) :
  (∀ msg cid m w m' w', send_personal_message f msg cid m w = Some (m', w') →
                        forgotten c m → forgotten c m')
  ∧ (∀ cid m w m' w', disconnect f cid m w = Some (m', w') → forgotten c m → forgotten c m')
  ∧ (∀ g msg ex m w m' w', broadcast_to_group f g msg ex m w = Some (m', w') →
                           forgotten c m → forgotten c m').
Proof.
  apply CMInv.preserved.
  - intros m cid md md' (H1 & H2 & H3) Hmd. split; [done|]. split; [|done].
    simpl. rewrite lookup_insert_ne; [done|]. intros ->. congruence.
  - intros m cid (H1 & H2 & H3). split; [|split; [done|]]; simpl.
    + apply lookup_delete_None. by right.
    + intros g members. rewrite lookup_fmap.
      destruct (connection_groups m !! g) as [s|] eqn:E; [|done].
      intros [= <-]. specialize (H3 g s E). set_solver.
  - intros m cid (H1 & H2 & H3). split; [done|]. split; [|done].
    simpl. apply lookup_delete_None. by right.
  - intros m msg H. unfold _add_to_history. by destruct (bool_decide _).
Qed.

Lemma groups_preserved (G : gmap string (gset string)) (f : nat) :
  let P := fun m => ∀ g, is_Some (connection_groups m !! g) ↔ is_Some (G !! g) in
  (∀ msg cid m w m' w', send_personal_message f msg cid m w = Some (m', w') → P m → P m')
  ∧ (∀ cid m w m' w', disconnect f cid m w = Some (m', w') → P m → P m')
  ∧ (∀ g msg ex m w m' w', broadcast_to_group f g msg ex m w = Some (m', w') → P m → P m').
Proof.
  intros P. apply CMInv.preserved; subst P; cbn beta.
  - intros m cid md md' H _. exact H.
  - intros m cid H g. simpl. rewrite lookup_fmap, <- H.
    destruct (connection_groups m !! g); simpl; split; intros [? ?]; eauto; done.
  - intros m cid H. exact H.
  - intros m msg H. unfold _add_to_history. by destruct (bool_decide _).
Qed.

Lemma _add_to_history_bounded (n : nat) (msg : WebSocketMessage) (m : t) :
  (0 < n)%nat → history_bounded n m → history_bounded n (_add_to_history msg m).
Proof.
  intros Hn [Hmax Hlen]. unfold _add_to_history, history_bounded.
  rewrite Hmax. destruct (bool_decide _) eqn:E; simpl.
  - split; [done|]. unfold py_last. destruct n as [|n]; [lia|].
    rewrite length_drop. lia.
  - apply bool_decide_eq_false_1 in E. split; [done|]. lia.
Qed.

Lemma history_preserved (n : nat) (f : nat) :
  (0 < n)%nat →
  (∀ msg cid m w m' w', send_personal_message f msg cid m w = Some (m', w') →
                        history_bounded n m → history_bounded n m')
  ∧ (∀ cid m w m' w', disconnect f cid m w = Some (m', w') →
                      history_bounded n m → history_bounded n m')
  ∧ (∀ g msg ex m w m' w', broadcast_to_group f g msg ex m w = Some (m', w') →
                           history_bounded n m → history_bounded n m').
Proof.
  intros Hn. apply CMInv.preserved.
  - intros m cid md md' H _. exact H.
  - intros m cid H. exact H.
  - intros m cid H. exact H.
  - intros m msg H. by apply _add_to_history_bounded.
Qed.

(** After [disconnect] nothing is left of the connection. *)
Lemma disconnect_forgotten (f : nat) (c : string) (m : t) (w : World) m' w' :
  disconnect f c m w = Some (m', w') → forgotten c m'.
Proof.
  destruct f as [|f]; [done|]. rewrite CMInv.disconnect_S. cbv zeta.
  set (m1 := with_active (with_groups m _) _).
  assert (H1 : active_connections m1 !! c = None
               ∧ (∀ g members, connection_groups m1 !! g = Some members → c ∉ members)).
  { subst m1. simpl. split; [by rewrite lookup_delete_eq|].
    intros g members. rewrite lookup_fmap.
    destruct (connection_groups m !! g) as [s|]; [|done]. intros [= <-]. set_solver. }
  destruct H1 as (A1 & G1). clearbody m1.
  set (st := match connection_metadata m1 !! c with Some _ => _ | None => _ end).
  assert (Hst : forgotten c st.1).
  { subst st. destruct (connection_metadata m1 !! c) as [md|] eqn:Em; [|done].
    destruct (now w) as [t0 w0]. split; [done|]. split; [|done].
    simpl. by rewrite lookup_delete_eq. }
  clearbody st. destruct st as [m2 w2]. simpl in Hst.
  destruct (forgotten_preserved c f) as (_ & _ & Hb).
  destruct (bool_decide _); [|by intros [= <- <-]].
  destruct (new_message _ _ _ _ _ w2) as [bye w3].
  intros E. by apply (Hb _ _ _ _ _ _ _ E).
Qed.

End CMMore.

(** X17.  The history of [ConnectionManager] is a bounded buffer.
    [_add_to_history] puts the message last and keeps at most
    [max_history] messages, dropping the oldest one when the buffer is
    full; and a broadcast to a group, with all the disconnections and
    farewell messages it may set off, returns and leaves the history within
    the bound. *)
Theorem X17_history_stays_bounded
    (fuel : nat) (g : string) (msg : ConnectionManager.WebSocketMessage)
    (ex : list string) (m : ConnectionManager.t) (w : World) :
  (0 < ConnectionManager.max_history m)%nat →
  (length (ConnectionManager.recent_messages m) ≤ ConnectionManager.max_history m)%nat →
  (3 * active_count m + 2 ≤ fuel)%nat →
  (list.last (ConnectionManager.recent_messages (ConnectionManager._add_to_history msg m))
   = Some msg
   ∧ ∃ dropped,
       (ConnectionManager.recent_messages m ++ [msg])%list
       = (dropped ++ ConnectionManager.recent_messages
                       (ConnectionManager._add_to_history msg m))%list
       ∧ (length dropped ≤ 1)%nat
       ∧ (dropped ≠ [] →
          length (ConnectionManager.recent_messages m) = ConnectionManager.max_history m))
  ∧ ∃ m' w',
      ConnectionManager.broadcast_to_group fuel g msg ex m w = Some (m', w')
      ∧ ConnectionManager.max_history m' = ConnectionManager.max_history m
      ∧ (length (ConnectionManager.recent_messages m') ≤ ConnectionManager.max_history m)%nat.
Proof.
  intros Hpos Hlen Hf. split.
  - unfold ConnectionManager._add_to_history.
    destruct (bool_decide _) eqn:E; simpl.
    + apply bool_decide_eq_true_1 in E. rewrite length_app in E. simpl in E.
      unfold py_last. destruct (ConnectionManager.max_history m) as [|n] eqn:En; [lia|].
      rewrite length_app. simpl.
      replace (length (ConnectionManager.recent_messages m) + 1 - S n)%nat with 1%nat by lia.
      destruct (ConnectionManager.recent_messages m) as [|x l] eqn:El; [simpl in *; lia|].
      simpl. rewrite drop_0. split; [by rewrite last_snoc|].
      exists [x]. split; [done|]. split; [simpl; lia|]. intros _. simpl in *. lia.
    + split; [by rewrite last_snoc|]. exists []. split; [done|]. split; [simpl; lia|done].
  - destruct (CMFacts.broadcast_to_group_total fuel g msg ex m w Hf) as (m' & w' & E & _).
    exists m', w'. split; [exact E|].
    destruct (CMMore.history_preserved (ConnectionManager.max_history m) fuel Hpos)
      as (_ & _ & Hb).
    by destruct (Hb g msg ex m w m' w' E).
Qed.

(** X18.  [disconnect], with the farewell broadcast to the admin group and
    whatever further disconnections that broadcast sets off, returns; the
    connection is then neither active nor described by metadata nor a
    member of any group, the groups themselves all remain (empty ones
    included), and no connection has been added. *)
Theorem X18_disconnect_forgets_the_connection
    (fuel : nat) (c : string) (m : ConnectionManager.t) (w : World) :
  (3 * active_count m + 3 ≤ fuel)%nat →
  ∃ m' w',
    ConnectionManager.disconnect fuel c m w = Some (m', w')
    ∧ forgotten c m'
    ∧ (∀ g, is_Some (ConnectionManager.connection_groups m' !! g)
            ↔ is_Some (ConnectionManager.connection_groups m !! g))
    ∧ (active_count m' ≤ active_count m)%nat.
Proof.
  intros Hf.
  destruct (CMFacts.total fuel) as (_ & Hd & _).
  destruct (Hd c m w) as (m' & w' & E & Hle); [lia| |].
  { destruct (decide _); lia. }
  exists m', w'. split; [exact E|]. split; [by eapply CMMore.disconnect_forgotten|].
  split; [|exact Hle].
  destruct (CMMore.groups_preserved (ConnectionManager.connection_groups m) fuel)
    as (_ & Hg & _).
  by apply (Hg c m w m' w' E).
Qed.

Lemma X17_witness :
  (0 < ConnectionManager.max_history ex_cm)%nat
  ∧ (3 * active_count ex_cm + 2 ≤ 8)%nat
  ∧ ∃ m' w',
      ConnectionManager.broadcast_to_group 8 "global"
        (ConnectionManager.mkMessage "m1" ConnectionManager.SYSTEM_STATUS [] 0 "normal"
           None None) [] ex_cm ex_registry_world = Some (m', w')
      ∧ ConnectionManager.max_history m' = ConnectionManager.max_history ex_cm
      ∧ (length (ConnectionManager.recent_messages m')
         ≤ ConnectionManager.max_history ex_cm)%nat.
Proof.
  assert (Hn : active_count ex_cm = 2%nat) by (vm_compute; reflexivity).
  assert (H1 : (0 < ConnectionManager.max_history ex_cm)%nat) by (simpl; lia).
  assert (H2 : (length (ConnectionManager.recent_messages ex_cm)
                ≤ ConnectionManager.max_history ex_cm)%nat) by (simpl; lia).
  assert (H3 : (3 * active_count ex_cm + 2 ≤ 8)%nat) by (rewrite Hn; lia).
  split; [exact H1|]. split; [exact H3|].
  exact (proj2 (X17_history_stays_bounded 8 "global"
                  (ConnectionManager.mkMessage "m1" ConnectionManager.SYSTEM_STATUS [] 0
                     "normal" None None) [] ex_cm ex_registry_world H1 H2 H3)).
Defined.

Lemma X18_witness :
  (3 * active_count ex_cm + 3 ≤ 9)%nat
  ∧ ∃ m' w',
      ConnectionManager.disconnect 9 "x" ex_cm ex_registry_world = Some (m', w')
      ∧ forgotten "x" m'
      ∧ (∀ g, is_Some (ConnectionManager.connection_groups m' !! g)
              ↔ is_Some (ConnectionManager.connection_groups ex_cm !! g))
      ∧ (active_count m' ≤ active_count ex_cm)%nat.
Proof.
  assert (Hn : active_count ex_cm = 2%nat) by (vm_compute; reflexivity).
  assert (H : (3 * active_count ex_cm + 3 ≤ 9)%nat) by (rewrite Hn; lia).
  split; [exact H|].
  exact (X18_disconnect_forgets_the_connection 9 "x" ex_cm ex_registry_world H).
Defined.

(** ** Reloading the in-memory lists from the store *)

Lemma cache_insert_is_Some (l : list (nat * ActivityItem)) (c0 : gmap string nat) i :
  is_Some (c0 !! i) →
  is_Some (foldl (fun c ra => <[id ra.2 := ra.1]> c) c0 l !! i).
Proof.
  revert c0. induction l as [|[r a] l IH]; intros c0 H; [done|].
  cbn [foldl]. apply IH. simpl.
  destruct (decide (id a = i)) as [->|Hne].
  - rewrite lookup_insert_eq. eauto.
  - by rewrite lookup_insert_ne.
Qed.

Lemma cache_of_zip (l : list ActivityItem) (first : nat) (c0 : gmap string nat) :
  let c := foldl (fun c ra => <[id ra.2 := ra.1]> c) c0 (zip (seq first (length l)) l) in
  (∀ i r, c !! i = Some r →
          c0 !! i = Some r
          ∨ ∃ k a, l !! k = Some a ∧ r = (first + k)%nat ∧ id a = i)
  ∧ (∀ k a, l !! k = Some a → is_Some (c !! id a)).
Proof.
  revert first c0. induction l as [|a l IH]; intros first c0; cbn zeta.
  - split; [by left|]. intros k a Hk. by rewrite lookup_nil in Hk.
  - cbn [length seq zip zip_with foldl]. cbn [fst snd].
    destruct (IH (S first) (<[id a := first]> c0)) as [I1 I2]. split.
    + intros i r Hc. destruct (I1 i r Hc) as [H0|(k & a' & Hk & -> & Hi)].
      * apply lookup_insert_Some in H0 as [[<- <-]|[Hne H0]]; [|by left].
        right. exists 0%nat, a. split; [done|]. split; [lia|done].
      * right. exists (S k), a'. split; [done|]. split; [lia|done].
    + intros [|k] a' Hk.
      * simpl in Hk. injection Hk as <-.
        apply cache_insert_is_Some. rewrite lookup_insert_eq. eauto.
      * simpl in Hk. by apply (I2 k a').
Qed.

Lemma deref_fresh (m : t) (o l : list ActivityItem) :
  objects m = (o ++ l)%list →
  deref m (seq (length o) (length l)) = zip (seq (length o) (length l)) l.
Proof.
  unfold deref. intros ->. revert o. induction l as [|a l IH]; intros o; [done|].
  cbn [length seq omap zip zip_with list_omap].
  rewrite list_lookup_middle by done. simpl. f_equal.
  specialize (IH (o ++ [a])%list). rewrite <- app_assoc in IH. simpl in IH.
  rewrite length_app in IH. simpl in IH.
  replace (length o + 1)%nat with (S (length o)) in IH by lia. exact IH.
Qed.

(** X19.  [_load_recent_activities] rebuilds the two in-memory lists from
    the store alone: the recent list is what a load of [max_activities]
    events returns, in that order and as new objects; the cache maps an id
    only to an object of the recent list that has this id, and knows the
    id of every object of the list; nothing is written to the store; and
    when the store cannot be reached both lists are empty. *)
Theorem X19_reload_rebuilds_the_lists_from_the_store (m : t) :
  let m' := _load_recent_activities m in
  let loaded :=
    _load_activities_from_redis (max_activities m) None None None None None None true m in
  redis m' = redis m
  ∧ (deref m' (recent_activities m')).*2 = loaded
  ∧ (length (recent_activities m') ≤ max_activities m)%nat
  ∧ (∀ i r, activity_cache m' !! i = Some r →
            r ∈ recent_activities m' ∧ ∃ a, objects m' !! r = Some a ∧ id a = i)
  ∧ (∀ r a, r ∈ recent_activities m' → objects m' !! r = Some a →
            is_Some (activity_cache m' !! id a))
  ∧ (store_unreachable m → recent_activities m' = [] ∧ activity_cache m' = ∅).
Proof.
  intros m' loaded. subst m'. unfold _load_recent_activities. fold loaded.
  assert (Hlen : (length loaded ≤ max_activities m)%nat).
  { subst loaded. unfold _load_activities_from_redis.
    destruct (RedisClient.call _ _) as [[ids c]|]; [|simpl; lia].
    destruct ids as [|i0 ids]; [simpl; lia|].
    destruct (load_each _ _) as [acts|]; [|simpl; lia].
    rewrite length_take. lia. }
  assert (Hdown : store_unreachable m → loaded = []).
  { subst loaded.
    unfold store_unreachable, _load_activities_from_redis, RedisClient.call,
      Redis.zrevrange, Redis.guard.
    destruct (RedisClient.redis (redis m)) as [s|]; [|done]. by intros ->. }
  clearbody loaded. cbn [redis recent_activities activity_cache objects with_cache
                         with_recent with_objects].
  destruct (cache_of_zip loaded (length (objects m)) ∅) as [C1 C2]. cbn zeta in C1, C2.
  split; [done|]. split; [|split; [|split; [|split]]].
  - unfold deref. cbn [objects].
    change (omap _ ?l) with (deref (with_objects m (objects m ++ loaded)%list) l).
    rewrite (deref_fresh _ (objects m) loaded) by done.
    rewrite snd_zip; [done|]. rewrite length_seq. lia.
  - by rewrite length_seq.
  - intros i r Hc. destruct (C1 i r Hc) as [H0|(k & a & Hk & -> & Hi)];
      [by rewrite lookup_empty in H0|].
    split.
    + apply elem_of_seq. apply lookup_lt_Some in Hk. lia.
    + exists a. split; [|done]. rewrite lookup_app_r by lia.
      replace (length (objects m) + k - length (objects m))%nat with k by lia. done.
  - intros r a Hr Ha. apply elem_of_seq in Hr as [Hr1 Hr2].
    rewrite lookup_app_r in Ha by lia. by apply (C2 _ a Ha).
  - intros Hd. rewrite (Hdown Hd). done.
Qed.

(** ** What a bookmark writes *)

Lemma bookmark_key_not_data_key user i j : bookmark_key user i ≠ data_key j.
Proof. unfold bookmark_key, data_key. cbv [String.append]. congruence. Qed.

Lemma bookmark_key_not_list_key user i : bookmark_key user i ≠ list_key.
Proof. unfold bookmark_key, list_key. cbv [String.append]. congruence. Qed.

Lemma client_set_keyspace key v ex (c : RedisClient.t) k :
  k ≠ key →
  match RedisClient.redis (RedisClient.set key v ex c).2 with
  | Some s => Redis.db s | None => ∅ end !! k
  = match RedisClient.redis c with Some s => Redis.db s | None => ∅ end !! k.
Proof.
  intros Hk. unfold RedisClient.set, RedisClient.call, Redis.set, Redis.guard.
  destruct c as [[s|] b]; simpl; [|done].
  destruct (Redis.reachable s); simpl; [|done].
  by rewrite lookup_insert_ne.
Qed.

Lemma client_delete_keyspace key (c : RedisClient.t) k :
  k ≠ key →
  match RedisClient.redis (RedisClient.delete key c).2 with
  | Some s => Redis.db s | None => ∅ end !! k
  = match RedisClient.redis c with Some s => Redis.db s | None => ∅ end !! k.
Proof.
  intros Hk. unfold RedisClient.delete, RedisClient.call, Redis.delete, Redis.guard.
  destruct c as [[s|] b]; simpl; [|done].
  destruct (Redis.reachable s); simpl; [|done].
  destruct (Redis.db s !! key); simpl; [|done].
  by rewrite lookup_delete_ne.
Qed.

(** X20.  The only key of the store that [bookmark_activity] can change
    is the bookmark key of the user for the event: the stored events (whose
    [bookmarked] field is therefore never written) and the index are what
    they were, whether or not the event exists and the store answers. *)
Theorem X20_bookmark_writes_only_the_bookmark_key (i user : string) (m : t) :
  let m' := (bookmark_activity i user m).2 in
  (∀ k, k ≠ bookmark_key user i → keyspace m' !! k = keyspace m !! k)
  ∧ (∀ j, stored m' j = stored m j)
  ∧ index m' = index m.
Proof.
  intros m'.
  assert (H : ∀ k, k ≠ bookmark_key user i → keyspace m' !! k = keyspace m !! k).
  { intros k Hk. subst m'. unfold bookmark_activity.
    destruct (get_activity_by_id_with_objects i m) as [extra Hm1].
    destruct (get_activity_by_id i m) as [o m1]. simpl in Hm1. subst m1.
    destruct o as [r|]; [|done].
    destruct (_ !! r) as [a|]; [|done].
    unfold keyspace.
    cbn [redis with_objects].
    destruct (RedisClient.exists_ _ _).
    - pose proof (client_delete_keyspace (bookmark_key user i) (redis m) k Hk) as Hd.
      destruct (RedisClient.delete _ _) as [b c]. exact Hd.
    - pose proof (client_set_keyspace (bookmark_key user i)
                    (Redis.PText (pretty (timestamp a))) (Some (activity_ttl m))
                    (redis m) k Hk) as Hs.
      cbn [activity_ttl].
      destruct (RedisClient.set _ _ _ _) as [b c]. exact Hs. }
  split; [exact H|]. split.
  - intros j. unfold stored. rewrite H; [done|]. apply not_eq_sym, bookmark_key_not_data_key.
  - unfold index. rewrite H; [done|]. apply not_eq_sym, bookmark_key_not_list_key.
Qed.

(** ** [ConnectionManager.connect] *)

(** X21.  [ConnectionManager.connect] on a transport that raises on
    [accept] re-raises and registers nothing.  On a healthy transport, for
    a new id joining a manager whose connections are healthy, it returns
    the id; the active connections are those of before and the new one
    under its transport; the groups are those of before with the id added
    to each group asked for (to ["global"] when none was asked for), so
    the connection is a member of each of them; and every connection is
    still healthy. *)
Theorem X21_connect_joins_the_groups_asked_for
    (ws : nat) (c : string) (groups : list string)
    (m : ConnectionManager.t) (w : World) (sk : WebSocket) :
  connections_healthy m w →
  ConnectionManager.active_connections m !! c = None →
  (∀ c', ConnectionManager.active_connections m !! c' ≠ Some ws) →
  sockets w !! ws = Some sk →
  (broken sk = true →
   ∀ fuel, ConnectionManager.connect fuel ws c groups m w = Some (Raise WebSocketError))
  ∧ (broken sk = false →
     ∀ fuel, ∃ m1 w1,
       ConnectionManager.connect (S (S fuel)) ws c groups m w = Some (Ok (c, m1, w1))
       ∧ ConnectionManager.active_connections m1
         = <[c := ws]> (ConnectionManager.active_connections m)
       ∧ ConnectionManager.connection_groups m1
         = foldl (fun g group => <[group := {[c]} ∪ default ∅ (g !! group)]> g)
                 (ConnectionManager.connection_groups m) (joined groups)
       ∧ (∀ g, g ∈ joined groups →
               ∃ members, ConnectionManager.connection_groups m1 !! g = Some members
                          ∧ c ∈ members)
       ∧ connections_healthy m1 w1).
Proof.
  intros [Hh Hinj] Hnew Hfresh Hsk. split.
  - intros Hb fuel. unfold ConnectionManager.connect, accept. by rewrite Hsk, Hb.
  - intros Hb fuel.
    unfold ConnectionManager.connect, accept. rewrite Hsk, Hb.
    set (wa := with_sockets w _).
    set (ma := ConnectionManager.with_active m _).
    set (mg := ConnectionManager.with_groups ma _).
    destruct (now wa) as [t1 w2] eqn:E1. destruct (now w2) as [t2 w3] eqn:E2.
    set (mm := ConnectionManager.with_metadata mg _).
    assert (Hs3 : sockets w3 = sockets wa).
    { unfold now in E1, E2. by simplify_eq. }
    assert (Hc3 : ConnectionManager.active_connections mm !! c = Some ws).
    { subst mm mg ma. simpl. by rewrite lookup_insert_eq. }
    assert (Hh3 : connections_healthy mm w3).
    { split.
      - intros c' ws' Hc'. subst mm mg ma. simpl in Hc'. rewrite Hs3. subst wa. simpl.
        apply lookup_insert_Some in Hc' as [[<- <-]|[Hne Hc']].
        + rewrite lookup_insert_eq. eexists. split; [done|]. done.
        + rewrite lookup_insert_ne by (intros <-; by apply (Hfresh c')).
          by apply (Hh c').
      - intros c1 c2 ws'. subst mm mg ma. simpl.
        intros [[<- <-]|[Hne1 H1]]%lookup_insert_Some [[<- Heq]|[Hne2 H2]]%lookup_insert_Some.
        + done.
        + exfalso. by apply (Hfresh c2).
        + subst ws'. exfalso. by apply (Hfresh c1).
        + eauto. }
    destruct (CMReplay.send_history (S fuel) c ws mm w3 Hh3 Hc3)
      as (mh & wh & -> & Hah & Hgh & Hhh & _).
    cbn [mbind option_bind].
    destruct (ConnectionManager.new_message _ _ _ _ _ wh) as [welcome ww] eqn:Ew.
    assert (Hsw : sockets ww = sockets wh).
    { unfold ConnectionManager.new_message, uuid4, now in Ew. by simplify_eq. }
    assert (Hhw : connections_healthy mh ww).
    { destruct Hhh as [H1 H2]. split; [|done]. intros c' ws' Hc'. rewrite Hsw. eauto. }
    destruct (CMHealthy.broadcast_healthy fuel "admin" welcome [c] mh ww Hhw)
      as (m1 & w1 & -> & Ha1 & Hg1 & Hh1 & _).
    cbn [mbind option_bind].
    exists m1, w1. split; [done|].
    split; [by rewrite Ha1, Hah|].
    assert (Hg : ConnectionManager.connection_groups m1
                 = foldl (fun g group => <[group := {[c]} ∪ default ∅ (g !! group)]> g)
                         (ConnectionManager.connection_groups m) (joined groups)).
    { rewrite Hg1, Hgh. subst mm mg ma. simpl. unfold joined. by destruct groups. }
    split; [exact Hg|]. split; [|exact Hh1].
    intros g Hin. rewrite Hg.
    apply (CMReplay.join_groups c (joined groups)
             (ConnectionManager.connection_groups m) g (or_introl Hin)).
Qed.

Lemma X21_witness :
  connections_healthy ConnectionManager.__init__ ex_world
  ∧ sockets ex_world !! 1%nat = Some ex_socket
  ∧ ∃ m1 w1,
      ConnectionManager.connect 2 1 "client" [] ConnectionManager.__init__ ex_world
      = Some (Ok ("client", m1, w1))
      ∧ (∀ g, g ∈ joined [] →
              ∃ members, ConnectionManager.connection_groups m1 !! g = Some members
                         ∧ "client" ∈ members).
Proof.
  assert (Hh : connections_healthy ConnectionManager.__init__ ex_world).
  { split; intros *; simpl; rewrite lookup_empty; done. }
  split; [exact Hh|]. split; [reflexivity|].
  destruct (X21_connect_joins_the_groups_asked_for 1 "client" []
              ConnectionManager.__init__ ex_world ex_socket Hh) as [_ H].
  - reflexivity.
  - intros c'. simpl. by rewrite lookup_empty.
  - reflexivity.
  - destruct (H eq_refl 0%nat) as (m1 & w1 & E & _ & _ & Hg & _).
    exists m1, w1. split; [exact E | exact Hg].
Defined.

(** ** Marking an event read twice *)

Module ZSetMore.
Import Redis.

Lemma zinsert_middle (e : Z * string) (a b : list (Z * string)) :
  Forall (fun x => zorder x e) a → Forall (fun x => zorder e x) b →
  zinsert e (a ++ b) = (a ++ e :: b)%list.
Proof.
  intros Ha Hb. induction Ha as [|x a Hx Ha IH]; simpl.
  - destruct Hb as [|y b Hy Hb]; [done|]. simpl. unfold zorder in Hy. by rewrite Hy.
  - destruct (zlt e x) eqn:E.
    + exfalso. apply (irreflexivity zorder x). by etrans.
    + by rewrite IH.
Qed.

Lemma zremove_id (i : string) (l : list (Z * string)) :
  Forall (fun x => x.2 ≠ i) l → zremove i l = l.
Proof. intros H. apply filter_all. by apply Forall_forall. Qed.

(** Adding again a member, with its score, to an index that was trimmed
    after it had been added gives the same index. *)
Lemma zadd_trim_idemp (e : Z * string) (z : list (Z * string)) (n : Z) :
  zsorted z → 0 < n →
  let z1 := trimmed n (zinsert e (zremove e.2 z)) in
  trimmed n (zinsert e (zremove e.2 z1)) = z1.
Proof.
  intros Hz Hn z1. subst z1.
  set (u := zinsert e (zremove e.2 z)).
  assert (Hu : zsorted u) by (destruct e; by apply ZSetFacts.zadd_sorted).
  assert (He : e ∈ u) by (apply ZSetFacts.elem_of_zinsert; by left).
  assert (Hmem : ∀ x, x ∈ u → x ≠ e → x.2 ≠ e.2).
  { intros x Hx Hne. apply ZSetFacts.elem_of_zinsert in Hx as [?|Hx]; [done|].
    intros Heq. apply (ZSetFacts.zremove_not_elem e.2 z).
    apply list_elem_of_fmap. by exists x. }
  clearbody u.
  apply list_elem_of_split in He as (pre & post & ->).
  unfold zsorted in Hu. apply StronglySorted_app in Hu as (Hpp & _ & Hep).
  apply StronglySorted_cons in Hep as [Hpost _].
  assert (Hpre : Forall (fun x => zorder x e) pre).
  { apply Forall_forall. intros x Hx. apply Hpp; [done|by left]. }
  assert (Hpre2 : Forall (fun x => x.2 ≠ e.2) pre).
  { apply Forall_forall. intros x Hx. apply Hmem.
    - apply elem_of_app. by left.
    - intros ->. apply (irreflexivity zorder e). rewrite Forall_forall in Hpre.
      by apply Hpre. }
  assert (Hpost2 : Forall (fun x => x.2 ≠ e.2) post).
  { apply Forall_forall. intros x Hx. apply Hmem.
    - apply elem_of_app. right. by right.
    - intros ->. apply (irreflexivity zorder e). rewrite Forall_forall in Hpost.
      by apply Hpost. }
  unfold trimmed at 2 3.
  set (d := (length (pre ++ e :: post) - Z.to_nat n)%nat).
  assert (Hd : (length (pre ++ e :: post) - d ≤ Z.to_nat n)%nat) by lia.
  assert (Hd' : (0 < d → length (pre ++ e :: post) - d = Z.to_nat n)%nat) by lia.
  clearbody d. rewrite length_app in Hd, Hd'. simpl in Hd, Hd'.
  destruct (decide (d ≤ length pre)%nat) as [Hle|Hgt].
  - rewrite drop_app_le by done.
    unfold zremove. rewrite filter_app, filter_cons_False by (intros H; by apply H).
    fold (zremove e.2 (drop d pre)). fold (zremove e.2 post).
    rewrite !zremove_id; [| done | ].
    2:{ apply Forall_forall. intros x Hx. rewrite Forall_forall in Hpre2. apply Hpre2.
        eapply elem_of_sublist; [exact Hx|apply sublist_drop]. }
    rewrite zinsert_middle; [| |done].
    2:{ apply Forall_forall. intros x Hx. rewrite Forall_forall in Hpre. apply Hpre.
        eapply elem_of_sublist; [exact Hx|apply sublist_drop]. }
    unfold trimmed. rewrite length_app, length_drop. simpl.
    replace (length pre - d + S (length post) - Z.to_nat n)%nat with 0%nat by lia.
    done.
  - rewrite drop_app_ge by lia.
    replace (d - length pre)%nat with (S (d - length pre - 1)) by lia.
    simpl. set (k := (d - length pre - 1)%nat).
    assert (Hk : Forall (fun x => x.2 ≠ e.2) (drop k post)).
    { apply Forall_forall. intros x Hx. rewrite Forall_forall in Hpost2. apply Hpost2.
      eapply elem_of_sublist; [exact Hx|apply sublist_drop]. }
    rewrite zremove_id by done.
    pose proof (zinsert_middle e [] (drop k post)) as Hm. simpl in Hm.
    rewrite Hm; [|constructor|].
    2:{ apply Forall_forall. intros x Hx. rewrite Forall_forall in Hpost. apply Hpost.
        eapply elem_of_sublist; [exact Hx|apply sublist_drop]. }
    unfold trimmed. simpl. rewrite length_drop.
    replace (S (length post - k) - Z.to_nat n)%nat with 1%nat by (subst k; lia).
    done.
Qed.

End ZSetMore.

Lemma set_read_idemp (b : bool) (a : ActivityItem) :
  set_read b (set_read b a) = set_read b a.
Proof. by destruct a. Qed.

(** X22.  Marking an event read is idempotent: on a store that answers,
    with a well-formed index, a second [mark_activity_read] of an existing
    event (by any user) returns true and leaves the manager, its objects
    and the whole store, index included, exactly as the first call left
    them. *)
Theorem X22_mark_read_twice_is_mark_read_once (i user user' : string) (m : t) :
  store_reachable m → index_ok m → 0 < max_activities_redis m →
  event_exists i m →
  mark_activity_read i user' (mark_activity_read i user m).2
  = (true, (mark_activity_read i user m).2).
Proof.
  intros (s & Hs & Hup) Hok Hn (r & a & Hr & Ha).
  destruct (redis m) as [o b] eqn:Hrm. simpl in Hs. subst o.
  assert (Hz : Redis.zset_at s list_key = Ok (index m)).
  { unfold index_ok, index, keyspace, Redis.zset_at in *. rewrite Hrm in *. simpl in *.
    destruct (Redis.db s !! list_key) as [[[p|z] t]|]; simpl in *; done. }
  pose proof (index_ok_sorted m Hok) as Hsorted.
  (* the first call *)
  assert (Honce : ∃ m2, redis m2 = RedisClient.mk (Some s) b
                        ∧ max_activities_redis m2 = max_activities_redis m
                        ∧ objects m2 !! r = Some (set_read true a)
                        ∧ activity_cache m2 !! i = Some r
                        ∧ (mark_activity_read i user m).2
                          = _save_activity_to_redis (set_read true a) m2).
  { unfold mark_activity_read.
    destruct (get_activity_by_id_with_objects i m) as [extra Hm1].
    destruct (get_activity_by_id i m) as [o m1]. simpl in Hr, Ha, Hm1. subst o.
    rewrite Ha. eexists. split; [|split; [|split; [|split; [|reflexivity]]]].
    - rewrite Hm1. simpl. exact Hrm.
    - by rewrite Hm1.
    - simpl. apply list_lookup_insert_eq. by apply lookup_lt_Some in Ha.
    - simpl. by rewrite lookup_insert_eq. }
  destruct Honce as (m2 & R2 & N2 & O2 & C2 & ->).
  set (a' := set_read true a) in *.
  set (e := (score_of a', id a')).
  set (z1 := trimmed (max_activities_redis m) (Redis.zinsert e (Redis.zremove (id a') (index m)))).
  set (ed := Redis.mkEntry (Redis.RString (Redis.PActivity a')) (Some (activity_ttl m2))).
  set (el := Redis.mkEntry (Redis.RZSet z1) (Some (activity_ttl m2))).
  set (d1 := <[list_key := el]> (<[data_key (id a') := ed]> (Redis.db s))).
  assert (Hsave : _save_activity_to_redis a' m2
                  = with_redis m2 (RedisClient.mk (Some (Redis.with_db s d1)) b)).
  { rewrite (_save_activity_to_redis_reachable a' m2 s b (index m) R2 Hup Hz)
      by (by rewrite N2).
    rewrite N2. done. }
  rewrite Hsave.
  set (m1 := with_redis m2 _).
  assert (H1 : redis m1 = RedisClient.mk (Some (Redis.with_db s d1)) b
               ∧ max_activities_redis m1 = max_activities_redis m
               ∧ activity_ttl m1 = activity_ttl m2
               ∧ objects m1 = objects m2 ∧ activity_cache m1 = activity_cache m2) by done.
  destruct H1 as (R1 & N1 & T1 & O1 & C1).
  assert (Hm1 : m1 = with_redis m2 (RedisClient.mk (Some (Redis.with_db s d1)) b))
    by reflexivity.
  clearbody m1.
  (* the second call *)
  assert (Hget : get_activity_by_id i m1 = (Some r, m1)).
  { unfold get_activity_by_id. by rewrite C1, C2. }
  assert (Hobj : objects m1 !! r = Some a') by (by rewrite O1).
  unfold mark_activity_read. rewrite Hget, Hobj.
  unfold a' at 1. rewrite set_read_idemp. fold a'.
  rewrite list_insert_id by done.
  rewrite insert_id by (simpl; by rewrite C1).
  replace (with_cache (with_objects m1 (objects m1))
             (activity_cache (with_objects m1 (objects m1)))) with m1
    by (by destruct m1).
  f_equal.
  rewrite (_save_activity_to_redis_reachable a' m1 (Redis.with_db s d1) b z1 R1 Hup).
  - rewrite N1, T1. fold e.
    pose proof (ZSetMore.zadd_trim_idemp e (index m) (max_activities_redis m) Hsorted Hn)
      as Hid. cbn zeta in Hid. change (e.2) with (id a') in Hid. fold z1 in Hid.
    rewrite Hid. fold ed el.
    assert (Hd : <[list_key := el]> (<[data_key (id a') := ed]> (Redis.db (Redis.with_db s d1)))
                 = d1).
    { simpl. subst d1. apply map_eq. intros k.
      destruct (decide (k = list_key)) as [->|Hk1]; [by rewrite !lookup_insert_eq|].
      rewrite !(lookup_insert_ne _ list_key) by done.
      destruct (decide (k = data_key (id a'))) as [->|Hk2]; [by rewrite !lookup_insert_eq|].
      by rewrite !lookup_insert_ne by done. }
    rewrite Hd. rewrite Hm1. by destruct m2.
  - unfold Redis.zset_at. simpl. subst d1. by rewrite lookup_insert_eq.
  - by rewrite N1.
Qed.

Lemma X22_witness :
  store_reachable ex_one_append.1.1
  ∧ event_exists ex_id_1 ex_one_append.1.1
  ∧ mark_activity_read ex_id_1 "bob" (mark_activity_read ex_id_1 "alice" ex_one_append.1.1).2
    = (true, (mark_activity_read ex_id_1 "alice" ex_one_append.1.1).2).
Proof.
  assert (H1 : store_reachable ex_one_append.1.1).
  { eexists. split; [vm_compute; reflexivity|reflexivity]. }
  assert (H2 : event_exists ex_id_1 ex_one_append.1.1).
  { eexists _, _. split; [vm_compute; reflexivity|vm_compute; reflexivity]. }
  assert (H3 : index_ok ex_one_append.1.1).
  { apply (appends_store_inv 2 [ex_call "e1"] (ex_feed_up, None, ex_world)
             ex_one_append eq_refl).
    apply ex_feed_up_inv. }
  split; [exact H1|]. split; [exact H2|].
  apply (X22_mark_read_twice_is_mark_read_once ex_id_1 "alice" "bob" ex_one_append.1.1 H1 H3);
    [reflexivity|exact H2].
Defined.

(** ** The count that a broadcast returns *)

Module WSCount.
Import WebSocketManager.

Lemma _send_to_connection_true c message m w :
  (_send_to_connection c message m w).1.1 = true →
  (_send_to_connection c message m w).1.2 = m.
Proof.
  unfold _send_to_connection. destruct (connections m !! c) as [conn|]; [|done].
  destruct (now w) as [t w1]. by destruct (send_text _ _ w1) as [[?|?] w2].
Qed.

Lemma send_each_count (l : list string) (message : dict) (n : nat) (m : t) (w : World) :
  (n ≤ (send_each l message n m w).1.1 ≤ n + length l)%nat
  ∧ connections (send_each l message n m w).1.2 ⊆ connections m
  ∧ ((send_each l message n m w).1.1 = (n + length l)%nat →
     (send_each l message n m w).1.2 = m).
Proof.
  revert n m w. induction l as [|c l IH]; intros n m w.
  - simpl. split; [lia|]. done.
  - cbn [send_each length].
    pose proof (_send_to_connection_true c message m w) as Ht.
    pose proof (WSMore._send_to_connection_cases c message m w) as Hc.
    destruct (_send_to_connection c message m w) as [[ok m1] w1]. simpl in Ht, Hc.
    destruct (IH (if ok then S n else n) m1 w1) as (I1 & I2 & I3).
    assert (Hsub : connections m1 ⊆ connections m).
    { destruct Hc as [->| ->]; [done|].
      rewrite WSMore.disconnect_connections. apply delete_subseteq. }
    split; [destruct ok; lia|]. split; [by etrans|].
    intros Heq. destruct ok.
    + rewrite I3 by lia. by apply Ht.
    + lia.
Qed.

End WSCount.

(** X23.  The count returned by [broadcast], [broadcast_to_topic] and
    [send_to_user] is at most the number of connections addressed; no
    connection is added; and when the count equals that number, every send
    succeeded and the manager is left as it was. *)
Theorem X23_broadcast_count_and_registry
    (message : dict) (m : WebSocketManager.t) (w : World) :
  (let res := WebSocketManager.broadcast message m w in
   (res.1.1 ≤ size (WebSocketManager.connections m))%nat
   ∧ WebSocketManager.connections res.1.2 ⊆ WebSocketManager.connections m
   ∧ (res.1.1 = size (WebSocketManager.connections m) → res.1.2 = m))
  ∧ (∀ topic,
       let res := WebSocketManager.broadcast_to_topic topic message m w in
       let ids := default ∅ (WebSocketManager.subscriptions m !! topic) in
       (res.1.1 ≤ size ids)%nat
       ∧ WebSocketManager.connections res.1.2 ⊆ WebSocketManager.connections m
       ∧ (res.1.1 = size ids → res.1.2 = m))
  ∧ (∀ user,
       let res := WebSocketManager.send_to_user user message m w in
       let ids := default ∅ (WebSocketManager.user_connections m !! user) in
       (res.1.1 ≤ size ids)%nat
       ∧ WebSocketManager.connections res.1.2 ⊆ WebSocketManager.connections m
       ∧ (res.1.1 = size ids → res.1.2 = m)).
Proof.
  assert (Hset : ∀ ids : gset string,
            let res := WebSocketManager.send_each (elements ids) message 0 m w in
            (res.1.1 ≤ size ids)%nat
            ∧ WebSocketManager.connections res.1.2 ⊆ WebSocketManager.connections m
            ∧ (res.1.1 = size ids → res.1.2 = m)).
  { intros ids res. subst res.
    destruct (WSCount.send_each_count (elements ids) message 0 m w) as (H1 & H2 & H3).
    change (size ids) with (length (elements ids)).
    split; [lia|]. split; [done|]. intros E. by apply H3. }
  split; [|split].
  - unfold WebSocketManager.broadcast. rewrite <- size_dom. apply Hset.
  - intros topic. unfold WebSocketManager.broadcast_to_topic.
    destruct (WebSocketManager.subscriptions m !! topic) as [ids|]; [apply Hset|].
    simpl. split; [lia|]. done.
  - intros user. unfold WebSocketManager.send_to_user.
    destruct (WebSocketManager.user_connections m !! user) as [ids|]; [apply Hset|].
    simpl. split; [lia|]. done.
Qed.

(** ** The counters of the statistics key *)

Lemma total_count_not_type v : "total_count" ≠ "type_" +:+ v.
Proof. cbv [String.append]. congruence. Qed.

Lemma total_count_not_priority v : "total_count" ≠ "priority_" +:+ v.
Proof. cbv [String.append]. congruence. Qed.

Lemma type_not_priority v v' : "type_" +:+ v ≠ "priority_" +:+ v'.
Proof. cbv [String.append]. congruence. Qed.

Lemma _update_activity_stats_counters (a : ActivityItem) (m : t) :
  store_reachable m → stats_ok m →
  let kt := "type_" +:+ type_value (type a) in
  let kp := "priority_" +:+ priority_value (priority a) in
  let m' := _update_activity_stats a m in
  counter m' "total_count" = counter m "total_count" + 1
  ∧ counter m' kt = counter m kt + 1
  ∧ counter m' kp = counter m kp + 1
  ∧ (∀ k, k ≠ "total_count" → k ≠ kt → k ≠ kp → counter m' k = counter m k)
  ∧ stats_ok m'.
Proof.
  intros (s & Hs & Hup) Hok kt kp m'. subst m'.
  unfold _update_activity_stats.
  destruct (redis m) as [o b] eqn:Hrm. simpl in Hs. subst o.
  rewrite (get_reachable s b Hup).
  assert (Hks : keyspace m = Redis.db s) by (unfold keyspace; by rewrite Hrm).
  set (cur := match match Redis.db s !! stats_key with
                    | Some (Redis.mkEntry (Redis.RString p) _) => Some p
                    | _ => None
                    end with
              | Some p => if payload_truthy p then p else Redis.PStats ∅ None
              | None => Redis.PStats ∅ None
              end).
  assert (Hcur : ∃ l, cur = Redis.PStats (stored_counters m) l).
  { subst cur. unfold stats_ok, stored_counters in *. rewrite Hks in *.
    destruct (Redis.db s !! stats_key) as [[[p|z] ttl]|]; simpl in *; [|done|eauto].
    destruct p as [?|c l|?]; [done| |done]. simpl.
    destruct (bool_decide (c = ∅)) eqn:Ec; simpl; [|eauto].
    apply bool_decide_eq_true_1 in Ec. subst c.
    destruct (bool_decide (is_Some l)); eauto. }
  destruct Hcur as [l ->].
  set (c0 := stored_counters m).
  rewrite (set_reachable s b Hup).
  fold kt kp.
  set (c3 := <[kp := _]> _).
  assert (Hc' : stored_counters
                  (with_redis m
                     (RedisClient.mk
                        (Some (Redis.with_db s
                                 (<[stats_key :=
                                      Redis.mkEntry
                                        (Redis.RString (Redis.PStats c3 (Some (timestamp a))))
                                        (Some (activity_ttl m))]> (Redis.db s)))) b))
                = c3).
  { unfold stored_counters, keyspace. simpl. by rewrite lookup_insert_eq. }
  unfold counter. rewrite Hc'. fold c0.
  assert (Hkt : kt ≠ kp) by apply type_not_priority.
  assert (H1 : "total_count" ≠ kt) by apply total_count_not_type.
  assert (H2 : "total_count" ≠ kp) by apply total_count_not_priority.
  subst c3. split; [|split; [|split; [|split]]].
  - rewrite lookup_insert_ne by done. rewrite lookup_insert_ne by done.
    by rewrite lookup_insert_eq.
  - rewrite lookup_insert_ne by done. rewrite lookup_insert_eq. simpl.
    by rewrite lookup_insert_ne by done.
  - rewrite lookup_insert_eq. simpl.
    rewrite lookup_insert_ne by done. by rewrite lookup_insert_ne by done.
  - intros k K1 K2 K3. by rewrite !lookup_insert_ne by done.
  - unfold stats_ok, keyspace. simpl. by rewrite lookup_insert_eq.
Qed.

(** X24.  Each append to a store that answers adds one to the stored
    [total_count], to the counter of the type of the event and to the
    counter of its priority, and changes no other counter. *)
Theorem X24_append_counts_the_event_once
    fuel a_type a_title a_description a_details a_priority a_source
    a_user a_source_name a_url a_tags a_areas a_score
    (m : t) (cm : option ConnectionManager.t) (w : World) r m' cm' w' :
  add_activity fuel a_type a_title a_description a_details a_priority a_source a_user
    a_source_name a_url a_tags a_areas a_score m cm w = Some (r, m', cm', w') →
  store_reachable m → index_ok m → 0 < max_activities_redis m → stats_ok m →
  let kt := "type_" +:+ type_value a_type in
  let kp := "priority_" +:+ priority_value a_priority in
  counter m' "total_count" = counter m "total_count" + 1
  ∧ counter m' kt = counter m kt + 1
  ∧ counter m' kp = counter m kp + 1
  ∧ (∀ k, k ≠ "total_count" → k ≠ kt → k ≠ kp → counter m' k = counter m k)
  ∧ stats_ok m'.
Proof.
  intros Hadd (s & Hs & Hup) Hok Hn Hst kt kp.
  destruct (add_activity_memory _ _ _ _ _ _ _ _ _ _ _ _ _ _ _ _ _ _ _ _ Hadd)
    as (new & _ & Hnew & _ & _ & _ & _ & _ & m2 & x & Hr2 & Hn2 & ->).
  assert (Hty : type new = a_type ∧ priority new = a_priority) by (by rewrite Hnew).
  destruct Hty as [Hty Hpr].
  destruct (redis m) as [o b] eqn:Hrm. simpl in Hs. subst o.
  assert (Hz : Redis.zset_at s list_key = Ok (index m)).
  { unfold index_ok, index, keyspace, Redis.zset_at in *. rewrite Hrm in *. simpl in *.
    destruct (Redis.db s !! list_key) as [[[p|z] t]|]; simpl in *; done. }
  pose proof (_save_activity_to_redis_reachable new m2 s b (index m) Hr2 Hup Hz) as Hsave.
  rewrite Hn2 in Hsave. specialize (Hsave Hn).
  set (ms := with_websocket_manager (_save_activity_to_redis new m2) x).
  assert (Hks : keyspace ms !! stats_key = keyspace m !! stats_key).
  { subst ms. rewrite Hsave. unfold keyspace. simpl. rewrite Hrm. simpl.
    rewrite lookup_insert_ne by apply list_key_not_stats_key.
    by rewrite lookup_insert_ne by apply data_key_not_stats_key. }
  assert (Hup' : store_reachable ms).
  { subst ms. rewrite Hsave. eexists. simpl. split; [reflexivity|done]. }
  assert (Hst' : stats_ok ms) by (unfold stats_ok; by rewrite Hks).
  assert (Hcnt : ∀ k, counter ms k = counter m k).
  { intros k. unfold counter, stored_counters. by rewrite Hks. }
  clearbody ms.
  destruct (_update_activity_stats_counters new ms Hup' Hst') as (C1 & C2 & C3 & C4 & C5).
  subst kt kp. rewrite <- Hty, <- Hpr.
  rewrite <- !Hcnt. split; [done|]. split; [done|]. split; [done|]. split; [|done].
  intros k K1 K2 K3. rewrite <- Hcnt. by apply C4.
Qed.

Lemma X24_witness :
  store_reachable ex_feed_up ∧ stats_ok ex_feed_up
  ∧ counter ex_one_append.1.1 "total_count" = counter ex_feed_up "total_count" + 1.
Proof.
  destruct ex_feed_up_inv as (H1 & H2 & _ & _).
  assert (H3 : stats_ok ex_feed_up) by exact I.
  split; [exact H1|]. split; [exact H3|].
  apply (X24_append_counts_the_event_once 2 INSIGHT_DISCOVERED "e1" "found" None NORMAL
           MCP None None None None (Some ["rust"]) (Qc_of_Z 1)
           ex_feed_up None ex_world (Ok ex_id_1) ex_one_append.1.1 None ex_one_append.2).
  - reflexivity.
  - exact H1.
  - exact H2.
  - reflexivity.
  - exact H3.
Defined.

(** ** The bookmark flag of a listing *)

Lemma mark_bookmarked_flags (ids : gset string) (refs : list nat) (m : t) r a' :
  objects (mark_bookmarked ids refs m) !! r = Some a' →
  ∃ a, objects m !! r = Some a
       ∧ (a' = set_bookmarked (bool_decide (id a ∈ ids)) a ∨ ((r ∉ refs) ∧ a' = a)).
Proof.
  revert m. induction refs as [|r0 refs IH]; intros m; cbn [mark_bookmarked foldl].
  - intros H. exists a'. split; [done|]. right. split; [apply not_elem_of_nil|done].
  - set (m1 := match objects m !! r0 with Some _ => _ | None => m end).
    intros H. destruct (IH m1 H) as (a1 & H1 & Hcase).
    assert (Hm1 : (∃ act, objects m !! r0 = Some act ∧ r = r0
                          ∧ a1 = set_bookmarked (bool_decide (id act ∈ ids)) act)
                  ∨ (r ≠ r0 ∧ objects m !! r = Some a1)).
    { subst m1. destruct (objects m !! r0) as [act|] eqn:E.
      - simpl in H1. destruct (decide (r = r0)) as [->|Hne].
        + rewrite list_lookup_insert_eq in H1 by (by apply lookup_lt_Some in E).
          injection H1 as <-. left. eauto.
        + rewrite list_lookup_insert_ne in H1 by done. by right.
      - right. split; [|done]. intros ->. congruence. }
    destruct Hm1 as [(act & Hact & -> & ->)|[Hne Hl]].
    + exists act. split; [done|]. left.
      destruct Hcase as [->|[_ ->]]; by destruct act.
    + exists a1. split; [done|].
      destruct Hcase as [->|[Hnot ->]]; [by left|].
      right. split; [|done]. by intros [?|?]%elem_of_cons.
Qed.

(** X25.  In a listing made for a user, the [bookmarked] attribute of
    every event returned says whether the user's bookmark keys list the
    id of the event, on both paths of [get_activities]. *)
Theorem X25_listing_shows_the_bookmarks_of_the_user
    (limit offset : nat) T P S (u : string) Ar since inc (m : t) :
  u ≠ "" →
  ∀ a, a ∈ (get_activities limit offset T P S (Some u) Ar since inc m).1 →
       bookmarked a = bool_decide (id a ∈ _get_user_bookmarked_ids u m).
Proof.
  intros Hu a. unfold get_activities.
  assert (Ht : truthy (Some u) = true) by (simpl; by apply negb_true_iff, String.eqb_neq).
  rewrite Ht.
  destruct (bool_decide (offset = 0%nat) && bool_decide (limit ≤ length (recent_activities m))%nat).
  - set (refs := (_filter_activities snd _ _ _ _ _ _ _ _).*1). cbn [fst].
    intros Ha. apply (λ H, elem_of_sublist _ _ _ H (sublist_take _ _)) in Ha.
    apply list_elem_of_fmap in Ha as ([r a'] & -> & Ha). simpl.
    apply elem_of_deref in Ha as [Hr Ha].
    destruct (mark_bookmarked_flags _ _ _ _ _ Ha) as (a0 & Ha0 & [->|[Hnot _]]); [|done].
    by destruct a0.
  - cbn [fst]. intros Ha.
    apply (λ H, elem_of_sublist _ _ _ H (sublist_take _ _)) in Ha.
    apply (λ H, elem_of_sublist _ _ _ H (sublist_drop _ _)) in Ha.
    apply list_elem_of_fmap in Ha as (a0 & -> & _). by destruct a0.
Qed.

Lemma X25_witness :
  "alice" ≠ ""
  ∧ ∀ a, a ∈ (get_activities 1 0 None None None (Some "alice") None None true
                (bookmark_activity ex_id_1 "alice" ex_one_append.1.1).2).1 →
         bookmarked a
         = bool_decide (id a ∈ _get_user_bookmarked_ids "alice"
                                 (bookmark_activity ex_id_1 "alice" ex_one_append.1.1).2).
Proof.
  assert (H : "alice" ≠ "") by discriminate.
  split; [exact H|].
  exact (X25_listing_shows_the_bookmarks_of_the_user 1 0 None None None "alice" None None
           true (bookmark_activity ex_id_1 "alice" ex_one_append.1.1).2 H).
Defined.

(** ** Who receives a new event *)


